(** * Ecommerce migration helper: hit decoding, schema identification and
      recommendation rendering

    A shallow embedding of the four JavaScript modules of the helper:

    - [schema_id.js]            ([identifySchema]),
    - [ga4.js]                  (the GA4 hit parser, module [Ga4]),
    - [measurement_protocol.js] (the UA hit parser, module [Ua]),
    - [schema_recommend.js]     ([buildGa4GtagCommand]).

    JavaScript strings are sequences of code units; the embedding uses
    [string], one [ascii] per code unit, which covers every code unit the
    regular expressions and tables of the source mention.  Operations of the
    source that can throw (property access on [undefined]/[null], calling a
    non-function) live in the [outcome] monad; everything else is a plain
    total function. *)

From Stdlib Require Import String Ascii List ZArith Lia Bool Arith.
From Stdlib Require Import Numbers.DecimalString Numbers.DecimalNat.
Import ListNotations.
Set Warnings "-register-all".
Open Scope string_scope.
Open Scope list_scope.

(** ** Completions: a value or a thrown exception *)

Inductive js_error : Type :=
| TypeError.

Inductive outcome (A : Type) : Type :=
| Returns (a : A)
| Throws (e : js_error).

Arguments Returns {A} a.
Arguments Throws {A} e.

Definition bind {A B : Type} (c : outcome A) (k : A -> outcome B) : outcome B :=
  match c with
  | Returns a => k a
  | Throws e => Throws e
  end.

Notation "x <- c ;; k" := (bind c (fun x => k))
  (at level 61, c at next level, right associativity).

(** ** Strings helpers shared by all modules *)

(** [String(n)] for a non-negative integer [n]: its decimal numeral. *)
Definition decimal (n : nat) : string :=
  NilZero.string_of_uint (Nat.to_uint n).

Definition is_digit (c : ascii) : bool :=
  let n := nat_of_ascii c in ((48 <=? n)%nat && (n <=? 57)%nat)%bool.

Definition digit_value (c : ascii) : N := N.of_nat (nat_of_ascii c - 48).

Fixpoint all_chars (p : ascii -> bool) (s : string) : bool :=
  match s with
  | EmptyString => true
  | String c s' => p c && all_chars p s'
  end.

(** Value of a string of decimal digits, most significant digit first. *)
Fixpoint digits_value (acc : N) (s : string) : N :=
  match s with
  | EmptyString => acc
  | String c s' => digits_value (10 * acc + digit_value c)%N s'
  end.

(** A property key is an _array index_ when it is the canonical decimal
    numeral of an integer below 2^32 - 1 (no sign, no leading zero). *)
Definition array_index (key : string) : option N :=
  match key with
  | EmptyString => None
  | String c rest =>
      if all_chars is_digit key
         && (negb (Ascii.eqb c "0") || String.eqb rest "")
      then let n := digits_value 0 key in
           if (n <? 4294967295)%N then Some n else None
      else None
  end.

(** ** JavaScript values handed to the classifier

    The parameter object is whatever the page evaluated: data built from
    literals.  Number values are restricted to integers (a number literal with
    a fraction is not represented; a string holding one is).  [VFun] stands
    for a built-in function object reached through a prototype
    ([Array.prototype.push]); it is what a read gives, not a part of the
    data. *)

Inductive jsval : Type :=
| VUndefined
| VNull
| VBool (b : bool)
| VNum (n : Z)
| VStr (s : string)
| VArr (elems : list jsval)
| VObj (props : list (string * jsval))
| VFun (name : string) (arity : Z).

(** ToBoolean. *)
Definition truthy (v : jsval) : bool :=
  match v with
  | VUndefined | VNull => false
  | VBool b => b
  | VNum n => negb (n =? 0)%Z
  | VStr s => negb (s =? "")
  | VArr _ | VObj _ | VFun _ _ => true
  end.

(** Own property of an object literal: the first binding of the key. *)
Fixpoint own_property (props : list (string * jsval)) (key : string) : option jsval :=
  match props with
  | [] => None
  | (k, v) :: rest => if k =? key then Some v else own_property rest key
  end.

(** [v[key]].  Reading a property of [undefined] or [null] throws a
    [TypeError]; primitives and arrays answer from their own properties and,
    for the two names the source probes that a prototype provides ([length],
    [push]), from the prototype.  No other key read by the source is
    inherited from a built-in prototype. *)
Definition get (v : jsval) (key : string) : outcome jsval :=
  match v with
  | VUndefined | VNull => Throws TypeError
  | VBool _ | VNum _ => Returns VUndefined
  | VStr s =>
      if key =? "length" then Returns (VNum (Z.of_nat (String.length s)))
      else match array_index key with
           | Some i =>
               match String.get (N.to_nat i) s with
               | Some c => Returns (VStr (String c EmptyString))
               | None => Returns VUndefined
               end
           | None => Returns VUndefined
           end
  | VArr elems =>
      if key =? "length" then Returns (VNum (Z.of_nat (List.length elems)))
      else if key =? "push" then Returns (VFun "push" 1)
      else match array_index key with
           | Some i => Returns (nth (N.to_nat i) elems VUndefined)
           | None => Returns VUndefined
           end
  | VObj props =>
      match own_property props key with
      | Some x => Returns x
      | None => Returns VUndefined
      end
  | VFun name arity =>
      if key =? "length" then Returns (VNum arity)
      else if key =? "name" then Returns (VStr name)
      else Returns VUndefined
  end.

(** [v[i]] for a loop counter [i]: the key is [String(i)]; on an array that
    is element [i]. *)
Definition get_index (v : jsval) (i : nat) : outcome jsval :=
  match v with
  | VArr elems => Returns (nth i elems VUndefined)
  | _ => get v (decimal i)
  end.

(** [acc || o[key]]: the right operand is only evaluated when the left one is
    falsy. *)
Definition or_get (acc : outcome jsval) (o : jsval) (key : string) : outcome jsval :=
  v <- acc ;;
  if truthy v then Returns v else get o key.

(** ** Conversion to a number

    When [items] is an array-like object its [length] can hold any value, and
    the loop test [i < items.length] converts it with ToNumber. *)

(** A Number: NaN, an infinity, or the finite value [mantissa * 2 ^ exponent].
    (The sign of a zero is not kept: no comparison tells the two zeros
    apart.) *)
Inductive number : Type :=
| NaN
| Infinity (negative : bool)
| Finite (mantissa exponent : Z).

Definition negate (n : number) : number :=
  match n with
  | NaN => NaN
  | Infinity negative => Infinity (negb negative)
  | Finite m e => Finite (- m) e
  end.

(** The integer [k] with [2 ^ k <= a / b < 2 ^ (k + 1)], for positive [a]
    and [b]. *)
Definition binary_exponent (a b : Z) : Z :=
  let k := (Z.log2 a - Z.log2 b)%Z in
  let reaches := if (0 <=? k)%Z then (b * 2 ^ k <=? a)%Z else (b <=? a * 2 ^ (- k))%Z in
  if reaches then k else (k - 1)%Z.

(** The Number value for the rational [a / b] ([a >= 0], [b > 0]): the
    nearest double, ties to the even mantissa, with gradual underflow below
    [2 ^ -1022] and infinity from [2 ^ 1024] on. *)
Definition round_to_double (a b : Z) : number :=
  if (a =? 0)%Z then Finite 0 0
  else
    let u := Z.max (binary_exponent a b - 52) (-1074) in
    let num := if (0 <=? u)%Z then a else (a * 2 ^ (- u))%Z in
    let den := if (0 <=? u)%Z then (b * 2 ^ u)%Z else b in
    let m := (num / den)%Z in
    let r := (num mod den)%Z in
    let m := if ((den <? 2 * r) || ((den =? 2 * r) && Z.odd m))%Z%bool
             then (m + 1)%Z else m in
    if ((0 <=? u) && (2 ^ 1024 <=? m * 2 ^ u))%Z%bool then Infinity false
    else Finite m u.

(** StrWhiteSpaceChar among the code units below 256: TAB, LF, VT, FF, CR,
    SP and NBSP. *)
Definition is_space (c : ascii) : bool :=
  let n := nat_of_ascii c in
  (((9 <=? n)%nat && (n <=? 13)%nat) || (n =? 32)%nat || (n =? 160)%nat)%bool.

Fixpoint trim_left (s : string) : string :=
  match s with
  | String c s' => if is_space c then trim_left s' else s
  | EmptyString => EmptyString
  end.

Fixpoint trim_right (s : string) : string :=
  match s with
  | String c s' =>
      match trim_right s' with
      | EmptyString => if is_space c then EmptyString else String c EmptyString
      | t => String c t
      end
  | EmptyString => EmptyString
  end.

(** The longest prefix of digits and what follows it. *)
Fixpoint leading_digits (s : string) : string * string :=
  match s with
  | String c s' =>
      if is_digit c
      then let (digits, rest) := leading_digits s' in (String c digits, rest)
      else (EmptyString, s)
  | EmptyString => (EmptyString, EmptyString)
  end.

(** Value of a digit of a hexadecimal, octal or binary literal. *)
Definition digit_in_base (base : N) (c : ascii) : option N :=
  let n := nat_of_ascii c in
  let d := if is_digit c then Some (n - 48)%nat
           else if ((97 <=? n) && (n <=? 102))%nat%bool then Some (n - 87)%nat
           else if ((65 <=? n) && (n <=? 70))%nat%bool then Some (n - 55)%nat
           else None in
  match d with
  | Some d => if (N.of_nat d <? base)%N then Some (N.of_nat d) else None
  | None => None
  end.

Fixpoint value_in_base (base acc : N) (s : string) : option N :=
  match s with
  | EmptyString => Some acc
  | String c s' =>
      match digit_in_base base c with
      | Some d => value_in_base base (base * acc + d)%N s'
      | None => None
      end
  end.

(** NonDecimalIntegerLiteral: [0x], [0o] or [0b] (either case) and at least
    one digit of that base. *)
Definition nonDecimalLiteral (s : string) : option N :=
  match s with
  | String "0" (String radix (String c digits)) =>
      let base :=
        if (Ascii.eqb radix "x" || Ascii.eqb radix "X")%bool then Some 16%N
        else if (Ascii.eqb radix "o" || Ascii.eqb radix "O")%bool then Some 8%N
        else if (Ascii.eqb radix "b" || Ascii.eqb radix "B")%bool then Some 2%N
        else None in
      match base with
      | Some base => value_in_base base 0 (String c digits)
      | None => None
      end
  | _ => None
  end.

(** ExponentPart: [e] or [E], an optional sign and at least one digit; the
    empty string is the absent exponent. *)
Definition exponentPart (s : string) : option Z :=
  match s with
  | EmptyString => Some 0%Z
  | String e t =>
      if (Ascii.eqb e "e" || Ascii.eqb e "E")%bool then
        let (negative, digits) :=
          match t with
          | String "-" t' => (true, t')
          | String "+" t' => (false, t')
          | _ => (false, t)
          end in
        if ((digits =? "") || negb (all_chars is_digit digits))%bool then None
        else let n := Z.of_N (digits_value 0 digits) in
             Some (if negative : bool then (- n)%Z else n)
      else None
  end.

(** StrUnsignedDecimalLiteral other than [Infinity]: digits with an optional
    fraction and exponent, at least one digit before or after the point.  The
    result [(m, e)] stands for [m * 10 ^ e]. *)
Definition decimalLiteral (s : string) : option (Z * Z) :=
  let (whole, s1) := leading_digits s in
  let (fraction, s2) :=
    match s1 with
    | String "." t => leading_digits t
    | _ => (EmptyString, s1)
    end in
  if ((whole =? "") && (fraction =? ""))%bool then None
  else
    match exponentPart s2 with
    | Some e =>
        Some (Z.of_N (digits_value 0 (whole ++ fraction)),
              (e - Z.of_nat (String.length fraction))%Z)
    | None => None
    end.

(** StringToNumber. *)
Definition stringToNumber (s : string) : number :=
  let s := trim_right (trim_left s) in
  if s =? "" then Finite 0 0
  else
    match nonDecimalLiteral s with
    | Some n => round_to_double (Z.of_N n) 1
    | None =>
        let (negative, body) :=
          match s with
          | String "-" t => (true, t)
          | String "+" t => (false, t)
          | _ => (false, s)
          end in
        if body =? "Infinity" then Infinity negative
        else
          match decimalLiteral body with
          | Some (m, e) =>
              let n := if (0 <=? e)%Z then round_to_double (m * 10 ^ e) 1
                       else round_to_double m (10 ^ (- e)) in
              if negative : bool then negate n else n
          | None => NaN
          end
    end.

(** Converting the value to a primitive throws.  For an object that is when
    it has an own property [toString]: the property shadows the inherited
    method and, being data, cannot be called, and [valueOf], inherited or
    own, gives no primitive either.  An array is converted by joining the
    strings of its elements, so it throws when one of them does. *)
Fixpoint unprintable (v : jsval) : bool :=
  match v with
  | VObj props =>
      match own_property props "toString" with
      | Some _ => true
      | None => false
      end
  | VArr elems => existsb unprintable elems
  | _ => false
  end.

(** ToNumber.  An array is first joined into a string: the empty array gives
    the empty string, a single element its own string ([undefined] and [null]
    the empty one), and two or more elements a string with a comma, which is
    no numeral.  A plain object gives [[object Object]], no numeral either,
    unless the conversion throws. *)
Fixpoint toNumber (v : jsval) : outcome number :=
  match v with
  | VUndefined => Returns NaN
  | VNull => Returns (Finite 0 0)
  | VBool b => Returns (Finite (if b then 1 else 0) 0)
  | VNum n => Returns (Finite n 0)
  | VStr s => Returns (stringToNumber s)
  | VArr elems =>
      match elems with
      | [] => Returns (Finite 0 0)
      | [x] =>
          match x with
          | VUndefined | VNull => Returns (Finite 0 0)
          | VBool _ | VFun _ _ => Returns NaN
          | VNum n => Returns (Finite n 0)
          | VStr s => Returns (stringToNumber s)
          | VArr _ => toNumber x
          | VObj _ => if unprintable x then Throws TypeError else Returns NaN
          end
      | _ :: _ :: _ => if existsb unprintable elems then Throws TypeError else Returns NaN
      end
  | VObj _ => if unprintable v then Throws TypeError else Returns NaN
  | VFun _ _ => Returns NaN
  end.

(** How often the test [i < len] of a loop counting up from 0 succeeds
    before it fails.  Under an infinite bound the loop over an array-like
    object only ends by a throw, at the first index the object has no
    property for; that index is at most the number of its properties, so one
    more iteration than that shows the same outcome. *)
Definition iterations (items : jsval) (len : number) : nat :=
  match len with
  | NaN | Infinity true => O
  | Infinity false =>
      match items with
      | VObj props => S (List.length props)
      | _ => O
      end
  | Finite m e =>
      Z.to_nat (if (0 <=? e)%Z then m * 2 ^ e else - ((- m) / 2 ^ (- e)))%Z
  end.

(** ** schema_id.js *)

Inductive KnownSchema : Type :=
| UNKNOWN
| UNKNOWN_GTAG
| GTM_UA
| GTM_LEGACY_GA4
| GTAG_UA
| UNIFIED.

Definition schema_label (k : KnownSchema) : string :=
  match k with
  | UNKNOWN => "unknown"
  | UNKNOWN_GTAG => "gtag-unknown"
  | GTM_UA => "ua-gtm"
  | GTM_LEGACY_GA4 => "ga4-gtm"
  | GTAG_UA => "ua-gtag"
  | UNIFIED => "ga4-gtag"
  end.

Definition KnownSchema_eqb (a b : KnownSchema) : bool :=
  schema_label a =? schema_label b.

Definition Api_DATA_LAYER : string := "dataLayer".
Definition Api_GTAG : string := "gtag".

(** A variable holding a schema label or [undefined]. *)
Definition schema_var : Type := option KnownSchema.

(** [a === b] on such variables. *)
Definition strict_eq (a b : schema_var) : bool :=
  match a, b with
  | None, None => true
  | Some x, Some y => KnownSchema_eqb x y
  | _, _ => false
  end.

(** One iteration of the loop over [items]: classify [items[i]] and fold it
    into [currentSchema]. *)
Definition classifyItem (item : jsval) (currentSchema : schema_var) : outcome schema_var :=
  unified <- or_get (or_get (or_get (or_get (get item "item_id")
                 item "item_name") item "promotion_id")
                 item "promotion_name") item "creative_name" ;;
  let thisItemSchema := if truthy unified then Some UNIFIED else None in
  legacy <- or_get (get item "id") item "name" ;;
  let thisItemSchema := if truthy legacy then Some GTAG_UA else thisItemSchema in
  match currentSchema with
  | None => Returns thisItemSchema
  | Some _ =>
      if strict_eq currentSchema thisItemSchema
      then Returns thisItemSchema
      else Returns (Some UNKNOWN_GTAG)
  end.

(** [for (let i = 0; i < items.length; i++)], with [remaining] iterations
    left before the test fails. *)
Fixpoint itemsLoop (items : jsval) (remaining i : nat) (currentSchema : schema_var)
  : outcome schema_var :=
  match remaining with
  | O => Returns currentSchema
  | S remaining' =>
      item <- get_index items i ;;
      currentSchema' <- classifyItem item currentSchema ;;
      itemsLoop items remaining' (S i) currentSchema'
  end.

(** The arm [case Api.GTAG] of the [switch]. *)
Definition identifyGtag (paramsObject : jsval) : outcome schema_var :=
  markers <- or_get (or_get (or_get (get paramsObject "items")
                 paramsObject "transaction_id") paramsObject "value")
                 paramsObject "currency" ;;
  if negb (truthy markers) then Returns (Some UNKNOWN)
  else
    items <- get paramsObject "items" ;;
    len <- get items "length" ;;
    if negb (truthy len) then Returns (Some UNKNOWN_GTAG)
    else
      push <- get items "push" ;;
      if negb (truthy push) then Returns (Some UNKNOWN_GTAG)
      else
        bound <- toNumber len ;;
        itemsLoop items (iterations items bound) 0 None.

(** The arm [case Api.DATA_LAYER]; [decided] is the label returned from
    inside [if (actionObject)], if any. *)
Definition identifyDataLayer (paramsObject : jsval) : outcome schema_var :=
  ecommerceObject <- get paramsObject "ecommerce" ;;
  if negb (truthy ecommerceObject) then Returns (Some UNKNOWN)
  else
    primary <- or_get (or_get (get ecommerceObject "items")
                 ecommerceObject "transaction_id") ecommerceObject "value" ;;
    if truthy primary then Returns (Some GTM_LEGACY_GA4)
    else
      actionObject <-
        or_get (or_get (or_get (or_get (or_get (or_get (or_get (or_get (or_get
          (get ecommerceObject "detail")
          ecommerceObject "click") ecommerceObject "add")
          ecommerceObject "remove") ecommerceObject "purchase")
          ecommerceObject "refund") ecommerceObject "checkout")
          ecommerceObject "checkoutStep") ecommerceObject "promoView")
          ecommerceObject "promoClick" ;;
      decided <-
        (if truthy actionObject then
           ua <- or_get (or_get (get actionObject "actionField")
                   actionObject "products") actionObject "promotions" ;;
           if truthy ua then Returns (Some GTM_UA)
           else
             items <- get actionObject "items" ;;
             if truthy items then Returns (Some GTM_LEGACY_GA4) else Returns None
         else Returns None) ;;
      match decided with
      | Some schema => Returns (Some schema)
      | None =>
          impressions <- get ecommerceObject "impressions" ;;
          if truthy impressions then Returns (Some GTM_UA)
          else Returns (Some UNKNOWN)
      end.

(** [identifySchema(api, paramsObject)]: a label, [undefined] ([None]) or a
    thrown [TypeError].  Any other [api] leaves the [switch] and gets
    [unknown]. *)
Definition identifySchema (api : string) (paramsObject : jsval) : outcome schema_var :=
  if api =? Api_GTAG then identifyGtag paramsObject
  else if api =? Api_DATA_LAYER then identifyDataLayer paramsObject
  else Returns (Some UNKNOWN).

(** ** Objects and sparse arrays built by the hit parsers

    The parsers only ever create properties by assignment and read them back
    by key, so an object is its list of own properties in creation order.  An
    array is the same thing: its elements are the properties whose key is an
    array index, and [length] is one more than the largest of them. *)

Section Objects.
Context {V : Type}.

Definition jsobj : Type := list (string * V).

(** [o[key]], [None] for [undefined]. *)
Fixpoint obj_get (o : jsobj) (key : string) : option V :=
  match o with
  | [] => None
  | (k, v) :: rest => if k =? key then Some v else obj_get rest key
  end.

(** Overwrite the value of an existing own property in place, or create the
    property after all existing ones. *)
Fixpoint obj_define (o : jsobj) (key : string) (v : V) : jsobj :=
  match o with
  | [] => [(key, v)]
  | (k, x) :: rest =>
      if k =? key then (k, v) :: rest else (k, x) :: obj_define rest key v
  end.

(** [o[key] = v].  The key [__proto__] reaches the accessor inherited from
    [Object.prototype] instead of creating an own property.  In the parsers
    only a parameter name of a GA4 hit can be that key, and what is assigned
    there is a string, which the accessor ignores. *)
Definition obj_set (o : jsobj) (key : string) (v : V) : jsobj :=
  if key =? "__proto__" then o else obj_define o key v.

(** [a.length] of an array. *)
Fixpoint arr_length (a : jsobj) : nat :=
  match a with
  | [] => 0
  | (k, _) :: rest =>
      match array_index k with
      | Some i => Nat.max (S (N.to_nat i)) (arr_length rest)
      | None => arr_length rest
      end
  end.

(** [a[i]] for a number [i]. *)
Definition arr_get (a : jsobj) (i : nat) : option V := obj_get a (decimal i).
End Objects.

Arguments jsobj V : clear implicits.

(** A decoded product, impression or promotion: field name to value. *)
Definition Product : Type := jsobj string.

Module ImpressionList.
Record t : Type := mk {
  name : option string;
  impressions : jsobj Product
}.
End ImpressionList.

(** The [parsedData] object of both parsers; an absent property is [None]. *)
Record ParsedData : Type := mkParsedData {
  products : jsobj Product;
  impressions : option (jsobj ImpressionList.t);
  promos : option (jsobj Product);
  params : option (jsobj string);
  event : option string
}.

(** A field table of the source: code to field name.  The codes looked up
    are at most three characters long or come from the table itself, so a
    lookup never finds a property inherited from [Object.prototype]. *)
Definition field_table : Type := list (string * string).

Fixpoint table_get (t : field_table) (code : string) : option string :=
  match t with
  | [] => None
  | (k, v) :: rest => if k =? code then Some v else table_get rest code
  end.

(** ToPropertyKey of a table lookup: a missing code gives [undefined], whose
    property key is the string ["undefined"]. *)
Definition property_key (looked_up : option string) : string :=
  match looked_up with
  | Some field => field
  | None => "undefined"
  end.

(** [s.substring(n)]. *)
Fixpoint substring_from (n : nat) (s : string) : string :=
  match n, s with
  | O, _ => s
  | S n', String _ s' => substring_from n' s'
  | S _, EmptyString => EmptyString
  end.

(** [s.split(sep)] for a one-character separator. *)
Fixpoint split (sep : ascii) (s : string) : list string :=
  match s with
  | EmptyString => [EmptyString]
  | String c s' =>
      if Ascii.eqb c sep then EmptyString :: split sep s'
      else match split sep s' with
           | part :: parts => String c part :: parts
           | [] => [String c EmptyString]
           end
  end.

(** ** Regular expressions

    A backtracking matcher for the fragment the source uses: literal text,
    character classes, greedy [?], [*] and [+] on classes, alternation and
    capturing groups.  Matching is written in continuation-passing style so
    that a failure of what follows a greedy construct makes it give characters
    back, as the JavaScript matcher does. *)

Inductive regex : Type :=
| Text (t : string)
| Class (p : ascii -> bool)
| Cat (r1 r2 : regex)
| Alt (r1 r2 : regex)
| Opt (r : regex)
| Star (p : ascii -> bool)
| Plus (p : ascii -> bool)
| Group (r : regex).

(** The rest of [s] after the literal text [t], when [s] starts with it. *)
Fixpoint strip (t s : string) : option string :=
  match t, s with
  | EmptyString, _ => Some s
  | String a t', String b s' => if Ascii.eqb a b then strip t' s' else None
  | String _ _, EmptyString => None
  end.

(** [s.startsWith(t)] and [s.includes(t)]. *)
Definition startsWith (t s : string) : bool :=
  match strip t s with
  | Some _ => true
  | None => false
  end.

Fixpoint includes (t s : string) : bool :=
  startsWith t s ||
  match s with
  | EmptyString => false
  | String _ s' => includes t s'
  end.

(** The longest prefix of [s] made of characters of the class [p], and what
    follows it. *)
Fixpoint take_while (p : ascii -> bool) (s : string) : string :=
  match s with
  | String c s' => if p c then String c (take_while p s') else EmptyString
  | EmptyString => EmptyString
  end.

Fixpoint drop_while (p : ascii -> bool) (s : string) : string :=
  match s with
  | String c s' => if p c then drop_while p s' else s
  | EmptyString => EmptyString
  end.

(** What was consumed between the suffix [s] and its later suffix [s']. *)
Definition consumed (s s' : string) : string :=
  substring 0 (String.length s - String.length s') s.

Section Matcher.
Context {R : Type}.

(** Greedy [p*]: longest run first, one character given back per retry. *)
Fixpoint star (p : ascii -> bool) (s : string) (k : string -> option R) : option R :=
  match s with
  | String c s' =>
      if p c then
        match star p s' k with
        | Some r => Some r
        | None => k s
        end
      else k s
  | EmptyString => k s
  end.

Fixpoint rmatch (r : regex) (s : string) (caps : list string)
         (k : string -> list string -> option R) : option R :=
  match r with
  | Text t =>
      match strip t s with
      | Some s' => k s' caps
      | None => None
      end
  | Class p =>
      match s with
      | String c s' => if p c then k s' caps else None
      | EmptyString => None
      end
  | Cat r1 r2 => rmatch r1 s caps (fun s' caps' => rmatch r2 s' caps' k)
  | Alt r1 r2 =>
      match rmatch r1 s caps k with
      | Some x => Some x
      | None => rmatch r2 s caps k
      end
  | Opt r1 =>
      match rmatch r1 s caps k with
      | Some x => Some x
      | None => k s caps
      end
  | Star p => star p s (fun s' => k s' caps)
  | Plus p =>
      match s with
      | String c s' => if p c then star p s' (fun s'' => k s'' caps) else None
      | EmptyString => None
      end
  | Group r1 => rmatch r1 s caps (fun s' caps' => k s' (caps' ++ [consumed s s']))
  end.
End Matcher.

(** Number of capturing groups of an expression, and whether each of them
    takes part in every match (none sits under an alternative or an option,
    where a group can be skipped and its capture left [undefined]). *)
Fixpoint group_count (r : regex) : nat :=
  match r with
  | Text _ | Class _ | Star _ | Plus _ => 0
  | Cat r1 r2 | Alt r1 r2 => group_count r1 + group_count r2
  | Opt r1 => group_count r1
  | Group r1 => S (group_count r1)
  end.

Fixpoint groups_mandatory (r : regex) : bool :=
  match r with
  | Text _ | Class _ | Star _ | Plus _ => true
  | Cat r1 r2 => groups_mandatory r1 && groups_mandatory r2
  | Alt r1 r2 =>
      (group_count r1 =? 0)%nat && (group_count r2 =? 0)%nat
      && groups_mandatory r1 && groups_mandatory r2
  | Opt r1 => (group_count r1 =? 0)%nat && groups_mandatory r1
  | Group r1 => groups_mandatory r1
  end.

(** A match anchored at the start of [s]: the captures [p[1]], [p[2]], ... and
    the number of characters matched. *)
Definition exec (r : regex) (s : string) : option (list string * nat) :=
  rmatch r s [] (fun s' caps => Some (caps, String.length s - String.length s')).

(** [p[n]] of a match, for [n >= 1]. *)
Definition group (n : nat) (p : list string) : string := nth (n - 1) p "".

(** [r.test(s)] for a regular expression without the [g] flag: is there a
    match starting anywhere in [s]. *)
Fixpoint test (r : regex) (s : string) : bool :=
  match exec r s with
  | Some _ => true
  | None =>
      match s with
      | String _ s' => test r s'
      | EmptyString => false
      end
  end.

(** [s.matchAll(r)] for a regular expression with the [g] flag: the leftmost
    match, then the leftmost match starting at or after its end, and so on.
    [skip] counts the characters of the previous match still to pass (every
    regular expression of the source matches at least one character). *)
Fixpoint matchAllFrom (r : regex) (skip : nat) (s : string) : list (list string) :=
  match skip with
  | S skip' =>
      match s with
      | String _ s' => matchAllFrom r skip' s'
      | EmptyString => []
      end
  | O =>
      match exec r s with
      | Some (p, len) =>
          p :: match s with
               | String _ s' => matchAllFrom r (len - 1) s'
               | EmptyString => []
               end
      | None =>
          match s with
          | String _ s' => matchAllFrom r 0 s'
          | EmptyString => []
          end
      end
  end.

Definition matchAll (r : regex) (s : string) : list (list string) :=
  matchAllFrom r 0 s.

(** Character classes of the source. *)
Definition is_word (c : ascii) : bool :=
  let n := nat_of_ascii c in
  (is_digit c
   || ((65 <=? n)%nat && (n <=? 90)%nat)
   || ((97 <=? n)%nat && (n <=? 122)%nat)
   || (n =? 95)%nat)%bool.

Definition not_amp (c : ascii) : bool := negb (Ascii.eqb c "&").
Definition not_equals (c : ascii) : bool := negb (Ascii.eqb c "=").

(** [.]: anything but a line terminator.  (The two Unicode line separators
    are code units above 255 and lie outside the strings of the embedding.) *)
Definition dot (c : ascii) : bool :=
  negb (Ascii.eqb c "010" || Ascii.eqb c "013").

(** ** ga4.js *)

Module Ga4.

(** The literal path [\/g\/collect\?]. *)
Definition GA4_URL_REGEX : regex := Text "/g/collect?".

(** [&pr], group 1 [\d+], [=], group 2 [[^&]*]; flag [g]. *)
Definition GA4_PRODUCT_REGEX : regex :=
  Cat (Text "&pr") (Cat (Group (Plus is_digit))
    (Cat (Text "=") (Group (Star not_amp)))).

(** [&epn?\.], group 1 [[^=]+], [=], group 2 [[^&]*]; flag [g]. *)
Definition GA4_PARAM_REGEX : regex :=
  Cat (Text "&ep") (Cat (Opt (Text "n")) (Cat (Text ".")
    (Cat (Group (Plus not_equals)) (Cat (Text "=") (Group (Star not_amp)))))).

(** [&en=], group 1 [[^&]*]; flag [g]. *)
Definition GA4_EVENT_NAME_REGEX : regex :=
  Cat (Text "&en=") (Group (Star not_amp)).

Definition GA4_PRODUCT_FIELDS : field_table :=
  [ ("id", "item_id"); ("nm", "item_name"); ("br", "item_brand");
    ("ca", "item_category"); ("c2", "item_category2");
    ("c3", "item_category3"); ("c4", "item_category4");
    ("c5", "item_category5"); ("va", "item_variant"); ("pr", "price");
    ("qt", "quantity"); ("cp", "coupon"); ("ln", "item_list_name");
    ("li", "item_list_id"); ("lp", "index"); ("ds", "discount");
    ("af", "affiliation"); ("pi", "promotion_id"); ("pn", "promotion_name");
    ("cn", "creative_name"); ("cs", "creative_slot"); ("lo", "Location ID") ].

(** The two statements after the [while] loop:
    [product[GA4_PRODUCT_FIELDS[code]] = productPart.substring(2)]. *)
Definition storePart (product : Product) (productPart : string) : Product :=
  let code := substring 0 2 productPart in
  obj_set product (property_key (table_get GA4_PRODUCT_FIELDS code))
          (substring_from 2 productPart).

(** The [for] loop over [productParts] with its inner [while] loop, as a
    walk over the parts that follow index [i]: [productPart] is the text
    accumulated for the current part and [rest] is
    [productParts[i+1 ..]].

    - no next part: both loops end, the part is stored;
    - the next part is empty: the [while] body runs, appends a tilde and
      (when truthy) [productParts[i+2]], and [i] moves past both;
    - otherwise the [while] test fails, the part is stored and the [for]
      loop moves on to the next part. *)
Fixpoint partsLoop (productPart : string) (rest : list string) (product : Product)
  : Product :=
  match rest with
  | [] => storePart product productPart
  | next :: rest' =>
      if next =? "" then
        match rest' with
        | [] => storePart product (productPart ++ "~")
        | after :: rest'' =>
            partsLoop
              ((productPart ++ "~") ++ (if after =? "" then "" else after))
              rest'' product
        end
      else partsLoop next rest' (storePart product productPart)
  end.

(** The body of the loop over product matches, from [p[2]] to the finished
    [product]. *)
Definition parseProduct (payload : string) : Product :=
  match split "~" payload with
  | [] => []
  | first :: rest => partsLoop first rest []
  end.

Definition parse (url : string) : ParsedData :=
  let products :=
    fold_left (fun acc p => obj_set acc (group 1 p) (parseProduct (group 2 p)))
              (matchAll GA4_PRODUCT_REGEX url) [] in
  let params :=
    fold_left (fun acc p => obj_set acc (group 1 p) (group 2 p))
              (matchAll GA4_PARAM_REGEX url) [] in
  let eventName := matchAll GA4_EVENT_NAME_REGEX url in
  {| products := products;
     impressions := None;
     promos := None;
     params := Some params;
     event := match eventName with
              | first :: _ => Some (group 1 first)
              | [] => None
              end |}.

Definition isGa4Hit (url : string) : bool := test GA4_URL_REGEX url.

End Ga4.

(** ** measurement_protocol.js *)

Module Ua.

(** [\/collect\?], [.*], [&el=GTM]. *)
Definition UA_LEGACY_REGEX : regex :=
  Cat (Text "/collect?") (Cat (Star dot) (Text "&el=GTM")).

(** [\/collect\?], [.*], [&el=GA4]. *)
Definition UA_GA4_REGEX : regex :=
  Cat (Text "/collect?") (Cat (Star dot) (Text "&el=GA4")).

(** [&pr], group 1 [\d+], group 2 [\w\w], [=?], group 3 [[^&]*]; flag [g]. *)
Definition UA_PRODUCT_REGEX : regex :=
  Cat (Text "&pr") (Cat (Group (Plus is_digit))
    (Cat (Group (Cat (Class is_word) (Class is_word)))
      (Cat (Opt (Text "=")) (Group (Star not_amp))))).

(** [&il], group 1 [\d+], [nm=], group 2 [[^&]*]; flag [g]. *)
Definition UA_LIST_NAME_REGEX : regex :=
  Cat (Text "&il") (Cat (Group (Plus is_digit))
    (Cat (Text "nm=") (Group (Star not_amp)))).

(** [&il], group 1 [\d+], [pi], group 2 [\d+], group 3 [\w\w], [=],
    group 4 [[^&]*]; flag [g]. *)
Definition UA_IMPRESSION_REGEX : regex :=
  Cat (Text "&il") (Cat (Group (Plus is_digit)) (Cat (Text "pi")
    (Cat (Group (Plus is_digit))
      (Cat (Group (Cat (Class is_word) (Class is_word)))
        (Cat (Text "=") (Group (Star not_amp))))))).

(** [&promo], group 1 [\d+], group 2 [\w\w], [=], group 3 [[^&]*];
    flag [g]. *)
Definition UA_PROMO_REGEX : regex :=
  Cat (Text "&promo") (Cat (Group (Plus is_digit))
    (Cat (Group (Cat (Class is_word) (Class is_word)))
      (Cat (Text "=") (Group (Star not_amp))))).

(** [&], group 1 [pa|ti|ta|tr|tt|ts|tcc|pal|cos|col|promoa|cu], [=],
    group 2 [[^&]*]; flag [g]. *)
Definition UA_PARAMS_REGEX : regex :=
  Cat (Text "&")
    (Cat (Group (Alt (Text "pa") (Alt (Text "ti") (Alt (Text "ta")
           (Alt (Text "tr") (Alt (Text "tt") (Alt (Text "ts")
           (Alt (Text "tcc") (Alt (Text "pal") (Alt (Text "cos")
           (Alt (Text "col") (Alt (Text "promoa") (Text "cu")))))))))))))
      (Cat (Text "=") (Group (Star not_amp)))).

Definition UA_PRODUCT_FIELDS : field_table :=
  [ ("id", "item_id"); ("nm", "item_name"); ("br", "item_brand");
    ("ca", "item_category"); ("va", "item_variant"); ("qt", "quantity");
    ("pr", "price"); ("cc", "coupon"); ("ps", "index") ].

Definition UA_IMPRESSION_FIELDS : field_table :=
  [ ("id", "item_id"); ("nm", "item_name"); ("br", "item_brand");
    ("ca", "item_category"); ("va", "item_variant"); ("ps", "index");
    ("pr", "price") ].

Definition UA_PROMOTION_FIELDS : field_table :=
  [ ("id", "item_id"); ("nm", "item_name"); ("cr", "creative_name");
    ("ps", "index") ].

Definition UA_PARAMS : field_table :=
  [ ("pa", "product_action"); ("ti", "transaction_id"); ("ta", "affiliation");
    ("tr", "value"); ("tt", "tax"); ("ts", "shipping"); ("tcc", "coupon");
    ("pal", "item_list_name"); ("cos", "checkout_step");
    ("col", "checkout_option"); ("promoa", "promo_action");
    ("cu", "currency") ].

(** [x || {}] for an entry looked up in a sparse array of objects. *)
Definition or_empty (x : option Product) : Product :=
  match x with
  | Some product => product
  | None => []
  end.

(** [x || { impressions: [] }]. *)
Definition or_empty_list (x : option ImpressionList.t) : ImpressionList.t :=
  match x with
  | Some l => l
  | None => ImpressionList.mk None []
  end.

(** Body of the loop over product, or promotion, field matches: fetch or
    create the entry at the index, assign the field, store the entry. *)
Definition fieldStep (table : field_table) (entries : jsobj Product)
           (p : list string) : jsobj Product :=
  let index := group 1 p in
  let entry := or_empty (obj_get entries index) in
  let entry := obj_set entry (property_key (table_get table (group 2 p))) (group 3 p) in
  obj_set entries index entry.

(** Body of the loop over list name matches. *)
Definition listNameStep (lists : jsobj ImpressionList.t) (list : list string)
  : jsobj ImpressionList.t :=
  let impressionListIndex := group 1 list in
  let impressionList := or_empty_list (obj_get lists impressionListIndex) in
  obj_set lists impressionListIndex
    (ImpressionList.mk (Some (group 2 list))
                       (ImpressionList.impressions impressionList)).

(** Body of the loop over impression field matches. *)
Definition impressionStep (lists : jsobj ImpressionList.t) (imp : list string)
  : jsobj ImpressionList.t :=
  let impressionListIndex := group 1 imp in
  let impressionList := or_empty_list (obj_get lists impressionListIndex) in
  let impressionIndex := group 2 imp in
  let impression :=
    or_empty (obj_get (ImpressionList.impressions impressionList) impressionIndex) in
  let impression :=
    obj_set impression (property_key (table_get UA_IMPRESSION_FIELDS (group 3 imp)))
            (group 4 imp) in
  obj_set lists impressionListIndex
    (ImpressionList.mk (ImpressionList.name impressionList)
       (obj_set (ImpressionList.impressions impressionList) impressionIndex impression)).

(** Body of the loop over action parameter matches. *)
Definition paramStep (acc : jsobj string) (field : list string) : jsobj string :=
  obj_set acc (property_key (table_get UA_PARAMS (group 1 field))) (group 2 field).

Definition parse (url : string) : ParsedData :=
  let products :=
    fold_left (fieldStep UA_PRODUCT_FIELDS) (matchAll UA_PRODUCT_REGEX url) [] in
  let lists :=
    fold_left listNameStep (matchAll UA_LIST_NAME_REGEX url) [] in
  let lists :=
    fold_left impressionStep (matchAll UA_IMPRESSION_REGEX url) lists in
  let promos :=
    fold_left (fieldStep UA_PROMOTION_FIELDS) (matchAll UA_PROMO_REGEX url) [] in
  let params :=
    fold_left paramStep (matchAll UA_PARAMS_REGEX url) [] in
  {| products := products;
     impressions := Some lists;
     promos := Some promos;
     params := Some params;
     event := None |}.

Definition isUaLegacyHit (url : string) : bool := test UA_LEGACY_REGEX url.

Definition isUaGa4Hit (url : string) : bool := test UA_GA4_REGEX url.

End Ua.

(** ** schema_recommend.js *)

(** The line feed of the template literals. *)
Definition nl : string := String "010" EmptyString.

Section Enumeration.
Context {V : Type}.

(** Insert an array-index key at its place in an ascending list. *)
Fixpoint insert_index (i : N) (key : string) (l : list (N * string))
  : list (N * string) :=
  match l with
  | [] => [(i, key)]
  | (j, k) :: rest =>
      if (i <=? j)%N then (i, key) :: l else (j, k) :: insert_index i key rest
  end.

Fixpoint index_keys (o : jsobj V) : list (N * string) :=
  match o with
  | [] => []
  | (k, _) :: rest =>
      match array_index k with
      | Some i => insert_index i k (index_keys rest)
      | None => index_keys rest
      end
  end.

Fixpoint named_keys (o : jsobj V) : list string :=
  match o with
  | [] => []
  | (k, _) :: rest =>
      match array_index k with
      | Some _ => named_keys rest
      | None => k :: named_keys rest
      end
  end.

(** The keys a [for ... in] loop visits on an object of the parsers: its own
    properties, array-index keys first in ascending order, then the other
    keys in creation order (nothing enumerable is inherited). *)
Definition for_in_keys (o : jsobj V) : list string :=
  map snd (index_keys o) ++ named_keys o.

(** [o.hasOwnProperty(key)].  When the object has an own property called
    [hasOwnProperty] (a string, in the objects of the parsers) the call
    throws; otherwise the inherited method answers. *)
Definition hasOwnProperty (o : jsobj V) (key : string) : outcome bool :=
  match obj_get o "hasOwnProperty" with
  | Some _ => Throws TypeError
  | None => Returns (match obj_get o key with Some _ => true | None => false end)
  end.
End Enumeration.

(** Interpolation of a possibly [undefined] string into a template literal. *)
Definition interpolate (x : option string) : string :=
  match x with
  | Some s => s
  | None => "undefined"
  end.

(** The loop over [paramName in parsedHitData.params]. *)
Fixpoint paramsLoop (params : jsobj string) (keys : list string)
         (eventParamsString : string) : outcome string :=
  match keys with
  | [] => Returns eventParamsString
  | paramName :: rest =>
      own <- hasOwnProperty params paramName ;;
      paramsLoop params rest
        (if own : bool
         then eventParamsString ++ nl ++ "  '" ++ paramName ++ "': '"
                ++ interpolate (obj_get params paramName) ++ "',"
         else eventParamsString)
  end.

(** The loop over [productField in product]. *)
Fixpoint fieldsLoop (product : Product) (keys : list string)
         (itemsString : string) : outcome string :=
  match keys with
  | [] => Returns itemsString
  | productField :: rest =>
      own <- hasOwnProperty product productField ;;
      fieldsLoop product rest
        (if own : bool
         then itemsString ++ "      '" ++ productField ++ ": '"
                ++ interpolate (obj_get product productField) ++ "'," ++ nl
         else itemsString)
  end.

(** One iteration of the loop over product indices; a hole of the array reads
    as [undefined], over which [for ... in] does not iterate. *)
Definition itemStep (product : option Product) (itemsString : string) : outcome string :=
  let itemsString := (itemsString ++ "    {" ++ nl)%string in
  itemsString <-
    match product with
    | Some fields => fieldsLoop fields (for_in_keys fields) itemsString
    | None => Returns itemsString
    end ;;
  Returns (itemsString ++ "    }," ++ nl)%string.

(** [for (let i = 1; i < parsedHitData.products.length; i++)], with
    [remaining] iterations left. *)
Fixpoint productsLoop (products : jsobj Product) (remaining i : nat)
         (itemsString : string) : outcome string :=
  match remaining with
  | O => Returns itemsString
  | S remaining' =>
      itemsString' <- itemStep (arr_get products i) itemsString ;;
      productsLoop products remaining' (S i) itemsString'
  end.

Definition buildGa4GtagCommand (parsedHitData : ParsedData) : outcome string :=
  eventParamsString <-
    match params parsedHitData with
    | Some ps => paramsLoop ps (for_in_keys ps) ""
    | None => Returns ""
    end ;;
  itemsString <-
    productsLoop (products parsedHitData)
                 (arr_length (products parsedHitData) - 1) 1 "" ;;
  let itemsString :=
    (if itemsString =? "" then nl
     else nl ++ "  'items': [" ++ nl ++ itemsString ++ "  ]," ++ nl)%string in
  Returns ("gtag('event', '" ++ interpolate (event parsedHitData) ++ "', {"
             ++ eventParamsString ++ itemsString ++ "});")%string.

(** ** Vocabulary of the specification

    Definitions that follow the wording of the specification rather than the
    source; the theorems below compare them with the embedding above. *)

(** The seven keys that classify an entry of [items]. *)
Definition item_marker_keys : list string :=
  ["item_id"; "item_name"; "promotion_id"; "promotion_name"; "creative_name";
   "id"; "name"].

(** An entry that has none of the marker keys: reading each gives
    [undefined] or another falsy value. *)
Definition unmarked (entry : jsval) : bool :=
  forallb (fun key => match get entry key with
                      | Returns v => negb (truthy v)
                      | Throws _ => false
                      end) item_marker_keys.

(** "The object has the key", read as presence of an own property. *)
Definition has_own_key (o : jsval) (key : string) : bool :=
  match o with
  | VObj props => match own_property props key with Some _ => true | None => false end
  | _ => false
  end.

(** "The object has the key", read as the source probes it: the property
    holds a truthy value. *)
Definition holds (o : jsval) (key : string) : bool :=
  match get o key with
  | Returns v => truthy v
  | Throws _ => false
  end.

(** The action sub-objects in their fixed order. *)
Definition action_keys : list string :=
  ["detail"; "click"; "add"; "remove"; "purchase"; "refund"; "checkout";
   "checkoutStep"; "promoView"; "promoClick"].

(** The first present action sub-object. *)
Fixpoint first_action (ecommerce : jsval) (keys : list string) : option jsval :=
  match keys with
  | [] => None
  | key :: rest =>
      if holds ecommerce key
      then match get ecommerce key with
           | Returns a => Some a
           | Throws _ => None
           end
      else first_action ecommerce rest
  end.

(** The precedence chain of the structured-push classification, for an
    [ecommerce] object: strong unified markers, then the first present action
    sub-object, then the impressions fallback. *)
Definition precedence_chain (ecommerce : jsval) : KnownSchema :=
  let fallback := if holds ecommerce "impressions" then GTM_UA else UNKNOWN in
  if holds ecommerce "items" || holds ecommerce "transaction_id"
     || holds ecommerce "value"
  then GTM_LEGACY_GA4
  else match first_action ecommerce action_keys with
       | Some action =>
           if holds action "actionField" || holds action "products"
              || holds action "promotions"
           then GTM_UA
           else if holds action "items" then GTM_LEGACY_GA4
           else fallback
       | None => fallback
       end.

(** The wire encoding of a product payload that the specification describes
    for Protocol A (the encoder itself belongs to the tag that sends the hit):
    every field is its two-character code followed by its value, a literal
    tilde inside a value is doubled, and the fields are joined by single
    tildes. *)
Fixpoint escapeTilde (value : string) : string :=
  match value with
  | EmptyString => EmptyString
  | String c rest =>
      if Ascii.eqb c "~" then String "~" (String "~" (escapeTilde rest))
      else String c (escapeTilde rest)
  end.

Definition encodeField (field : string * string) : string :=
  fst field ++ escapeTilde (snd field).

Fixpoint encodePayload (fields : list (string * string)) : string :=
  match fields with
  | [] => EmptyString
  | [field] => encodeField field
  | field :: rest => encodeField field ++ String "~" (encodePayload rest)
  end.

(** A field code of the encoding: two characters, none of them a tilde. *)
Definition field_code (code : string) : bool :=
  (String.length code =? 2)%nat && all_chars (fun c => negb (Ascii.eqb c "~")) code.

(** The product a list of fields describes: each value under the field name
    of its code, in order. *)
Definition productOf (fields : list (string * string)) : Product :=
  fold_left (fun product field =>
               obj_set product
                       (property_key (table_get Ga4.GA4_PRODUCT_FIELDS (fst field)))
                       (snd field))
            fields [].

(** The text of the recommendation, piece by piece. *)
Definition paramLine (params : jsobj string) (paramName : string) : string :=
  nl ++ "  '" ++ paramName ++ "': '" ++ interpolate (obj_get params paramName) ++ "',".

Definition fieldLine (product : Product) (productField : string) : string :=
  "      '" ++ productField ++ ": '" ++ interpolate (obj_get product productField)
    ++ "'," ++ nl.

(** The object literal rendered for one index of the products array; a hole
    gives a literal without fields. *)
Definition objectLiteral (product : option Product) : string :=
  "    {" ++ nl
    ++ match product with
       | Some fields => String.concat "" (map (fieldLine fields) (for_in_keys fields))
       | None => ""
       end
    ++ "    }," ++ nl.

(** The indices the items list is rendered from: 1 up to the last element of
    the array. *)
Definition renderedIndices (products : jsobj Product) : list nat :=
  seq 1 (arr_length products - 1).

Definition itemsList (products : jsobj Product) : string :=
  String.concat "" (map (fun i => objectLiteral (arr_get products i))
                        (renderedIndices products)).

(** The object can be asked [hasOwnProperty]: it has no own property of that
    name shadowing the method. *)
Definition answers_hasOwnProperty {V : Type} (o : jsobj V) : bool :=
  match obj_get o "hasOwnProperty" with
  | Some _ => false
  | None => true
  end.


(** What a decoded record holds: "the entry at [index] has the key [key]",
    "the impression list at [index] has a name" and "the impression [inner]
    of the list at [index] has the key [key]". *)
Definition entry_has (entries : jsobj Product) (index key : string) : Prop :=
  exists entry value, obj_get entries index = Some entry /\ obj_get entry key = Some value.

Definition list_named (lists : jsobj ImpressionList.t) (index : string) : Prop :=
  exists l n, obj_get lists index = Some l /\ ImpressionList.name l = Some n.

Definition impression_has (lists : jsobj ImpressionList.t) (index inner key : string) : Prop :=
  exists l, obj_get lists index = Some l
            /\ entry_has (ImpressionList.impressions l) inner key.

(** ** The page script (UI code of the schema test page)

    Of the page script the embedding covers what computes text from decoded
    hits: [show] and the body of the resource observer of [main].  A text
    area is its [value] and its [rows]. *)

Record TextArea : Type := mkTextArea {
  value : string;
  rows : nat
}.

Section ForEach.
Context {V St : Type}.

(** [a.forEach(callback)]: the indices below [a.length] in ascending order,
    a hole being passed over; the callback gets the accumulated state, the
    element and its index. *)
Fixpoint forEachFrom (a : jsobj V) (callback : St -> V -> nat -> St)
         (remaining k : nat) (state : St) : St :=
  match remaining with
  | O => state
  | S remaining' =>
      forEachFrom a callback remaining' (S k)
        (match arr_get a k with
         | Some element => callback state element k
         | None => state
         end)
  end.

Definition forEach (a : jsobj V) (callback : St -> V -> nat -> St) (state : St) : St :=
  forEachFrom a callback (arr_length a) 0 state.
End ForEach.

(** [for (const field of Object.keys(o)) valueParts.push(indent + field + ": "
    + o[field])]. *)
Definition pushFields (indent : string) (o : jsobj string) (valueParts : list string)
  : list string :=
  fold_left (fun parts field =>
               parts ++ [(indent ++ field ++ ": " ++ interpolate (obj_get o field))%string])
            (for_in_keys o) valueParts.

(** The callbacks of the three loops over products, impressions of a list
    and promotions: a heading with the index, then the fields. *)
Definition pushEntry (heading indent : string) (valueParts : list string)
           (entry : Product) (index : nat) : list string :=
  pushFields indent entry (valueParts ++ [(heading ++ decimal index)%string]).

(** The callback of the loop over impression lists. *)
Definition pushList (valueParts : list string) (impressionList : ImpressionList.t)
           (listIndex : nat) : list string :=
  let valueParts := valueParts ++ [("Impression List " ++ decimal listIndex)%string] in
  let valueParts :=
    match ImpressionList.name impressionList with
    | Some n => if n =? "" then valueParts else valueParts ++ [("  Name: " ++ n)%string]
    | None => valueParts
    end in
  forEach (ImpressionList.impressions impressionList)
          (pushEntry "  Impression " "    ") valueParts.

(** The lines [show] collects in [valueParts]. *)
Definition valueParts (data : ParsedData) : list string :=
  let parts := forEach (products data) (pushEntry "Product " "  ") [] in
  let parts :=
    match impressions data with
    | Some lists => forEach lists pushList parts
    | None => parts
    end in
  let parts :=
    match promos data with
    | Some entries => forEach entries (pushEntry "Promo " "  ") parts
    | None => parts
    end in
  match params data with
  | Some ps =>
      match for_in_keys ps with
      | [] => parts
      | _ :: _ => pushFields "  " ps (parts ++ ["Additional Parameters:"])
      end
  | None => parts
  end.

(** [show(data, element)]: what the element holds afterwards. *)
Definition show (data : ParsedData) : TextArea :=
  match valueParts data with
  | [] => {| value := "No ecommerce data found"; rows := 1 |}
  | parts => {| value := String.concat nl parts; rows := List.length parts |}
  end.

(** The four result boxes of the page. *)
Record Page : Type := mkPage {
  Ga4Result : TextArea;
  UaGa4Result : TextArea;
  UaLegacyResult : TextArea;
  Ga4GtagCommand : TextArea
}.

(** The body of the observer callback for one entry: the page afterwards
    and, when the callback was left by an exception, that exception. *)
Definition onEntry (page : Page) (url : string) : Page * option js_error :=
  let ga4_step :=
    if Ga4.isGa4Hit url then
      let parsedResult := Ga4.parse url in
      let page := {| Ga4Result := show parsedResult;
                     UaGa4Result := UaGa4Result page;
                     UaLegacyResult := UaLegacyResult page;
                     Ga4GtagCommand := Ga4GtagCommand page |} in
      match buildGa4GtagCommand parsedResult with
      | Returns gtagCommand =>
          ({| Ga4Result := Ga4Result page;
              UaGa4Result := UaGa4Result page;
              UaLegacyResult := UaLegacyResult page;
              Ga4GtagCommand :=
                {| value := gtagCommand;
                   rows := List.length (split "010" gtagCommand) + 1 |} |},
           None)
      | Throws e => (page, Some e)
      end
    else (page, None) in
  match ga4_step with
  | (page, Some e) => (page, Some e)
  | (page, None) =>
      let page :=
        if Ua.isUaLegacyHit url then
          {| Ga4Result := Ga4Result page;
             UaGa4Result := UaGa4Result page;
             UaLegacyResult := show (Ua.parse url);
             Ga4GtagCommand := Ga4GtagCommand page |}
        else page in
      let page :=
        if Ua.isUaGa4Hit url then
          {| Ga4Result := Ga4Result page;
             UaGa4Result := show (Ua.parse url);
             UaLegacyResult := UaLegacyResult page;
             Ga4GtagCommand := Ga4GtagCommand page |}
        else page in
      (page, None)
  end.

(** ** Further vocabulary *)

(** An entry of [items] whose properties can be read: anything but
    [undefined] and [null]. *)
Definition readable (v : jsval) : bool :=
  match v with
  | VUndefined | VNull => false
  | _ => true
  end.

(** The entry has one of the five keys of the unified schema, and one of the
    two keys of the legacy gtag schema. *)
Definition has_unified (entry : jsval) : bool :=
  holds entry "item_id" || holds entry "item_name" || holds entry "promotion_id"
  || holds entry "promotion_name" || holds entry "creative_name".

Definition has_legacy (entry : jsval) : bool :=
  holds entry "id" || holds entry "name".

(** An object whose keys are all distinct. *)
Definition unique_keys {V : Type} (o : jsobj V) : Prop := NoDup (map fst o).

(** The keys a decoded entry may carry under a field table: the names of
    the table and [undefined]. *)
Definition decoded_key (table : field_table) (key : string) : Prop :=
  key = "undefined" \/ In key (map snd table).

Definition decoded_keys (table : field_table) (entry : Product) : Prop :=
  forall key v, obj_get entry key = Some v -> decoded_key table key.

(** The schema one readable entry of [items] gives, and the fold of it into
    the running schema, written as plain functions. *)
Definition entry_schema (entry : jsval) : schema_var :=
  if has_legacy entry then Some GTAG_UA
  else if has_unified entry then Some UNIFIED
  else None.

Definition fold_schema (currentSchema thisItemSchema : schema_var) : schema_var :=
  match currentSchema with
  | None => thisItemSchema
  | Some _ =>
      if strict_eq currentSchema thisItemSchema then thisItemSchema
      else Some UNKNOWN_GTAG
  end.

(** The loop over the entries of an array, entry by entry. *)
Fixpoint classifyFrom (entries : list jsval) (currentSchema : schema_var)
  : outcome schema_var :=
  match entries with
  | [] => Returns currentSchema
  | entry :: rest =>
      currentSchema' <- classifyItem entry currentSchema ;;
      classifyFrom rest currentSchema'
  end.

(** The outcomes the structured-push arm can have, and those of the
    direct-call arm when it returns. *)
Definition dataLayer_outcome (o : outcome schema_var) : bool :=
  match o with
  | Returns (Some UNKNOWN) | Returns (Some GTM_UA) | Returns (Some GTM_LEGACY_GA4) => true
  | _ => false
  end.

Definition gtag_result (s : schema_var) : bool :=
  match s with
  | None | Some UNKNOWN | Some UNKNOWN_GTAG | Some GTAG_UA | Some UNIFIED => true
  | Some GTM_UA | Some GTM_LEGACY_GA4 => false
  end.

(** The literal texts an alternation of literals chooses from. *)
Fixpoint alternatives (r : regex) : option (list string) :=
  match r with
  | Text t => Some [t]
  | Alt r1 r2 =>
      match alternatives r1, alternatives r2 with
      | Some ts1, Some ts2 => Some (ts1 ++ ts2)
      | _, _ => None
      end
  | _ => None
  end.

(** Every entry of a collection has decoded keys only, and at least one. *)
Definition decoded_entries (table : field_table) (entries : jsobj Product) : Prop :=
  forall index entry,
    obj_get entries index = Some entry -> entry <> [] /\ decoded_keys table entry.

Definition decoded_lists (lists : jsobj ImpressionList.t) : Prop :=
  forall index l,
    obj_get lists index = Some l ->
    decoded_entries Ua.UA_IMPRESSION_FIELDS (ImpressionList.impressions l).

(** The text of the recommendation for a record, as the renderer lays it
    out when nothing throws: the event name, one line per parameter, and the
    items list when it is not empty. *)
Definition commandText (record : ParsedData) : string :=
  "gtag('event', '" ++ interpolate (event record) ++ "', {"
    ++ match params record with
       | Some ps => String.concat "" (map (paramLine ps) (for_in_keys ps))
       | None => ""
       end
    ++ (if itemsList (products record) =? "" then nl
        else nl ++ "  'items': [" ++ nl ++ itemsList (products record) ++ "  ]," ++ nl)
    ++ "});".

(** A line that does not begin with the letter N: every heading and every
    field line that [show] collects is one. *)
Definition heading_line (h : string) : Prop :=
  exists c r, h = String c r /\ c <> "N"%char.

(** The message of [show] for a record with nothing to list. *)
Definition noData : TextArea :=
  {| value := "No ecommerce data found"; rows := 1 |}.

(** The line [show] writes for one field of an entry. *)
Definition shownField (indent : string) (o : jsobj string) (field : string) : string :=
  indent ++ field ++ ": " ++ interpolate (obj_get o field).

(** Strings of the embedding have any length.  An engine refuses to build a
    string beyond its limit and throws a [RangeError] instead, a completion
    the embedding does not have.  [maxStringLength] is the smallest limit
    among current engines: [2 ^ 28 - 16] code units (V8 on 32-bit platforms;
    [2 ^ 29 - 24] on 64-bit ones, more in the other engines).  Every string
    the renderer or [show] builds on the way is a part of its final text, so
    a final text that fits is built without that error; what the embedding
    says of a longer text is not a statement about the source. *)
Definition maxStringLength : N := 268435440.

Definition fits (text : string) : Prop :=
  (N.of_nat (String.length text) <= maxStringLength)%N.

(** * Properties *)

(** ** Schema identification *)

Lemma get_of_truthy (o : jsval) (key : string) :
  truthy o = true -> exists v, get o key = Returns v.
Proof.
  destruct o; simpl; try discriminate; intros _.
  - eexists; reflexivity.
  - eexists; reflexivity.
  - destruct (key =? "length"); [eexists; reflexivity|].
    destruct (array_index key); [|eexists; reflexivity].
    destruct (String.get (N.to_nat n) s); eexists; reflexivity.
  - destruct (key =? "length"); [eexists; reflexivity|].
    destruct (key =? "push"); [eexists; reflexivity|].
    destruct (array_index key); eexists; reflexivity.
  - destruct (own_property props key); eexists; reflexivity.
  - destruct (key =? "length"); [eexists; reflexivity|].
    destruct (key =? "name"); eexists; reflexivity.
Qed.

Lemma or_get_Returns (v o : jsval) (key : string) :
  or_get (Returns v) o key = if truthy v then Returns v else get o key.
Proof. reflexivity. Qed.

Lemma get_object (props : list (string * jsval)) (key : string) :
  get (VObj props) key
  = Returns (match own_property props key with Some x => x | None => VUndefined end).
Proof. simpl. destruct (own_property props key); reflexivity. Qed.

Lemma unmarked_get (entry : jsval) (key : string) :
  unmarked entry = true -> In key item_marker_keys ->
  exists v, get entry key = Returns v /\ truthy v = false.
Proof.
  unfold unmarked. rewrite forallb_forall. intros H Hin.
  specialize (H key Hin).
  destruct (get entry key) as [v|]; [|discriminate].
  exists v. split; [reflexivity|]. apply negb_true_iff. exact H.
Qed.

(** Read a marker key of an unmarked entry. *)
Ltac read_marker H key :=
  let v := fresh "v" in
  let Hv := fresh "Hv" in
  let Hf := fresh "Hf" in
  destruct (unmarked_get _ key H ltac:(simpl; tauto)) as [v [Hv Hf]];
  rewrite Hv; cbn [bind]; rewrite ?Hf; cbn [bind].

Lemma classifyItem_unmarked (entry : jsval) :
  unmarked entry = true -> classifyItem entry None = Returns None.
Proof.
  intros H. unfold classifyItem, or_get.
  read_marker H "item_id". read_marker H "item_name".
  read_marker H "promotion_id". read_marker H "promotion_name".
  read_marker H "creative_name".
  read_marker H "id". read_marker H "name".
  reflexivity.
Qed.

(** An integer bound is the number of iterations. *)
Lemma iterations_integer (items : jsval) (n : Z) :
  iterations items (Finite n 0) = Z.to_nat n.
Proof. unfold iterations. cbn [Z.leb Z.compare]. rewrite Z.pow_0_r, Z.mul_1_r. reflexivity. Qed.

Lemma itemsLoop_unmarked (entries : list jsval) :
  Forall (fun e => unmarked e = true) entries ->
  forall remaining i, i + remaining = List.length entries ->
  itemsLoop (VArr entries) remaining i None = Returns None.
Proof.
  intros Hall. induction remaining as [|n IH]; intros i Hlen; simpl.
  - reflexivity.
  - rewrite Forall_forall in Hall.
    rewrite (classifyItem_unmarked (nth i entries VUndefined)).
    + simpl. apply IH. lia.
    + apply Hall. apply nth_In. lia.
Qed.

(** C1.  [identifySchema] is not total on the direct-call kind.  Whenever
    [items] is absent and [transaction_id], [value] or [currency] holds a
    truthy value, the marker test passes and reading [items.length] throws,
    as on [{transaction_id: "T-1"}]; and an [items] array whose single entry
    matches no rule makes it return [undefined], which is none of the six
    labels. *)
Theorem identifySchema_gtag_not_total :
  (forall props : list (string * jsval),
      own_property props "items" = None ->
      holds (VObj props) "transaction_id" || holds (VObj props) "value"
        || holds (VObj props) "currency" = true ->
      identifySchema Api_GTAG (VObj props) = Throws TypeError)
  /\ identifySchema Api_GTAG (VObj [("transaction_id", VStr "T-1")]) = Throws TypeError
  /\ identifySchema Api_GTAG (VObj [("items", VArr [VObj []])]) = Returns None.
Proof.
  split; [|split; reflexivity].
  intros props Hitems Hmarker.
  unfold identifySchema, identifyGtag. simpl (Api_GTAG =? Api_GTAG). cbv iota.
  unfold holds in Hmarker. unfold or_get.
  rewrite !get_object in *. rewrite Hitems.
  generalize dependent (match own_property props "transaction_id" with
                        | Some x => x | None => VUndefined end).
  generalize (match own_property props "value" with
              | Some x => x | None => VUndefined end).
  generalize (match own_property props "currency" with
              | Some x => x | None => VUndefined end).
  intros c v t Hmarker.
  unfold bind. cbv beta iota. change (truthy VUndefined) with false. cbv beta iota.
  destruct (truthy t) eqn:Et; repeat (progress (cbv beta iota; rewrite ?Et));
    [reflexivity|].
  destruct (truthy v) eqn:Ev; repeat (progress (cbv beta iota; rewrite ?Ev));
    [reflexivity|].
  destruct (truthy c) eqn:Ec; repeat (progress (cbv beta iota; rewrite ?Ec));
    [reflexivity|discriminate].
Qed.

Lemma identifySchema_gtag_not_total_witness :
  own_property [("currency", VStr "USD")] "items" = None
  /\ identifySchema Api_GTAG (VObj [("currency", VStr "USD")]) = Throws TypeError.
Proof.
  split; [reflexivity|].
  apply (proj1 identifySchema_gtag_not_total [("currency", VStr "USD")]); reflexivity.
Defined.

(** C3.  On the direct-call kind, a non-empty [items] array none of whose
    entries has any of the seven marker keys makes [identifySchema] return
    [undefined]; the fold never produces the [gtag-unknown] label there. *)
Theorem identifySchema_gtag_unmarked_items_undefined
        (props : list (string * jsval)) (entries : list jsval) :
  own_property props "items" = Some (VArr entries) ->
  entries <> [] ->
  Forall (fun e => unmarked e = true) entries ->
  identifySchema Api_GTAG (VObj props) = Returns None.
Proof.
  intros Hitems Hne Hall.
  unfold identifySchema, identifyGtag. simpl (Api_GTAG =? Api_GTAG).
  cbn [get]. rewrite Hitems. unfold or_get at 3. cbn [bind truthy].
  unfold or_get. cbn [bind truthy negb].
  cbn [get]. cbn [String.eqb Ascii.eqb Bool.eqb]. cbn [bind].
  assert (Hlen : (Z.of_nat (List.length entries) =? 0)%Z = false).
  { destruct entries; [congruence|]. apply Z.eqb_neq. simpl List.length. lia. }
  cbn [truthy]. rewrite Hlen. cbn [negb toNumber bind].
  rewrite iterations_integer, Nat2Z.id. apply itemsLoop_unmarked; [assumption|lia].
Qed.

Lemma identifySchema_gtag_unmarked_items_undefined_witness :
  own_property [("items", VArr [VObj []])] "items" = Some (VArr [VObj []])
  /\ [VObj []] <> []
  /\ identifySchema Api_GTAG (VObj [("items", VArr [VObj []])]) = Returns None.
Proof.
  assert (H1 : own_property [("items", VArr [VObj []])] "items" = Some (VArr [VObj []]))
    by reflexivity.
  assert (H2 : [VObj []] <> []) by discriminate.
  split; [exact H1|]. split; [exact H2|].
  apply (identifySchema_gtag_unmarked_items_undefined _ _ H1 H2).
  constructor; [reflexivity|constructor].
Defined.

Lemma holds_of_get (o v : jsval) (key : string) :
  get o key = Returns v -> holds o key = truthy v.
Proof. intros H. unfold holds. rewrite H. reflexivity. Qed.

(** Read [o[key]] on a truthy [o] and split on the truthiness of the result. *)
Ltac probe o key Ho :=
  let v := fresh "v" in
  let H := fresh "Hget" in
  let E := fresh "Etruthy" in
  destruct (get_of_truthy o key Ho) as [v H];
  rewrite ?(holds_of_get _ _ _ H), ?H;
  destruct (truthy v) eqn:E;
  repeat (progress (rewrite ?or_get_Returns; cbn [bind orb]; rewrite ?E)).

(** The action sub-object, once chosen, decides as the chain says. *)
Lemma action_decides (a : jsval) (k : option KnownSchema -> outcome schema_var) :
  truthy a = true ->
  (decided <-
     (ua <- or_get (or_get (get a "actionField") a "products") a "promotions" ;;
      if truthy ua then Returns (Some GTM_UA)
      else items <- get a "items" ;;
           if truthy items then Returns (Some GTM_LEGACY_GA4) else Returns None) ;;
   k decided)
  = k (if holds a "actionField" || holds a "products" || holds a "promotions"
       then Some GTM_UA
       else if holds a "items" then Some GTM_LEGACY_GA4 else None).
Proof.
  intros Ha.
  probe a "actionField" Ha; [reflexivity|].
  probe a "products" Ha; [reflexivity|].
  probe a "promotions" Ha; [reflexivity|].
  probe a "items" Ha; reflexivity.
Qed.

Lemma impressions_fallback (e : jsval) :
  truthy e = true ->
  (impressions <- get e "impressions" ;;
   if truthy impressions then Returns (Some GTM_UA) else Returns (Some UNKNOWN))
  = Returns (Some (if holds e "impressions" then GTM_UA else UNKNOWN)).
Proof.
  intros He. probe e "impressions" He; reflexivity.
Qed.

Ltac settle_action He :=
  rewrite action_decides by assumption;
  match goal with
  | |- context [holds ?a "actionField"] =>
      destruct (holds a "actionField"), (holds a "products"),
               (holds a "promotions"), (holds a "items"); cbn [orb]
  end;
  try reflexivity; apply impressions_fallback; exact He.

(** C5 (as amended).  On the structured-push kind, with "has" and "present"
    read as the source probes them (the property holds a truthy value), the
    label is the one the precedence chain gives: [ga4-gtm] when the ecommerce
    object has [items], [transaction_id] or [value]; otherwise the first
    present action sub-object in the fixed order decides ([ua-gtm] if it has
    [actionField], [products] or [promotions], else [ga4-gtm] if it has
    [items]); otherwise [ua-gtm] when [impressions] is present; otherwise
    [unknown]. *)
Theorem identifySchema_dataLayer_precedence (paramsObject ecommerce : jsval) :
  get paramsObject "ecommerce" = Returns ecommerce ->
  truthy ecommerce = true ->
  identifySchema Api_DATA_LAYER paramsObject
  = Returns (Some (precedence_chain ecommerce)).
Proof.
  intros Hget He.
  unfold identifySchema. simpl (Api_DATA_LAYER =? Api_GTAG).
  simpl (Api_DATA_LAYER =? Api_DATA_LAYER). cbv iota.
  unfold identifyDataLayer. rewrite Hget. cbn [bind]. rewrite He. cbn [negb].
  unfold precedence_chain, action_keys. cbn [first_action].
  probe ecommerce "items" He; [reflexivity|].
  probe ecommerce "transaction_id" He; [reflexivity|].
  probe ecommerce "value" He; [reflexivity|].
  probe ecommerce "detail" He; [settle_action He|].
  probe ecommerce "click" He; [settle_action He|].
  probe ecommerce "add" He; [settle_action He|].
  probe ecommerce "remove" He; [settle_action He|].
  probe ecommerce "purchase" He; [settle_action He|].
  probe ecommerce "refund" He; [settle_action He|].
  probe ecommerce "checkout" He; [settle_action He|].
  probe ecommerce "checkoutStep" He; [settle_action He|].
  probe ecommerce "promoView" He; [settle_action He|].
  probe ecommerce "promoClick" He; [settle_action He|].
  apply impressions_fallback; exact He.
Qed.

Lemma identifySchema_dataLayer_precedence_witness :
  get (VObj [("ecommerce",
              VObj [("purchase", VObj [("actionField", VObj []); ("products", VArr [])])])])
      "ecommerce"
  = Returns (VObj [("purchase", VObj [("actionField", VObj []); ("products", VArr [])])])
  /\ truthy (VObj [("purchase", VObj [("actionField", VObj []); ("products", VArr [])])]) = true
  /\ identifySchema Api_DATA_LAYER
       (VObj [("ecommerce",
               VObj [("purchase", VObj [("actionField", VObj []); ("products", VArr [])])])])
     = Returns (Some GTM_UA).
Proof.
  split; [reflexivity|]. split; [reflexivity|].
  apply (identifySchema_dataLayer_precedence
           (VObj [("ecommerce",
                   VObj [("purchase", VObj [("actionField", VObj []); ("products", VArr [])])])])
           (VObj [("purchase", VObj [("actionField", VObj []); ("products", VArr [])])]));
    reflexivity.
Defined.

(** C5 as stated, with "has" read as presence of the key, fails: an ecommerce
    object whose [value] is the number 0 has the key, yet the classifier
    moves on and answers [ua-gtm] from the impressions fallback. *)
Lemma identifySchema_dataLayer_zero_value :
  has_own_key (VObj [("value", VNum 0); ("impressions", VArr [VObj []])]) "value" = true
  /\ identifySchema Api_DATA_LAYER
       (VObj [("ecommerce", VObj [("value", VNum 0); ("impressions", VArr [VObj []])])])
     = Returns (Some GTM_UA)
  /\ identifySchema Api_DATA_LAYER
       (VObj [("ecommerce", VObj [("value", VNum 0); ("impressions", VArr [VObj []])])])
     <> Returns (Some GTM_LEGACY_GA4).
Proof.
  split; [reflexivity|]. split; [reflexivity|]. discriminate.
Qed.

(** ** Objects *)

Section ObjectFacts.
Context {V : Type}.
Implicit Types (o : jsobj V) (key : string) (v : V).

Lemma obj_get_define_same o key v : obj_get (obj_define o key v) key = Some v.
Proof.
  induction o as [|[k x] rest IH]; simpl.
  - rewrite String.eqb_refl. reflexivity.
  - destruct (k =? key) eqn:E; simpl; rewrite E; [reflexivity|exact IH].
Qed.

Lemma obj_get_define_other o key key' v :
  key' <> key -> obj_get (obj_define o key v) key' = obj_get o key'.
Proof.
  intros Hne. induction o as [|[k x] rest IH]; simpl.
  - destruct (key =? key') eqn:E; [|reflexivity].
    apply String.eqb_eq in E. congruence.
  - destruct (k =? key) eqn:E; simpl.
    + apply String.eqb_eq in E. subst k.
      destruct (key =? key') eqn:E'; [|reflexivity].
      apply String.eqb_eq in E'. congruence.
    + destruct (k =? key'); [reflexivity|exact IH].
Qed.

Lemma obj_get_set_same o key v :
  key <> "__proto__" -> obj_get (obj_set o key v) key = Some v.
Proof.
  intros Hne. unfold obj_set.
  destruct (key =? "__proto__") eqn:E.
  - apply String.eqb_eq in E. contradiction.
  - apply obj_get_define_same.
Qed.

Lemma obj_get_set_other o key key' v :
  key' <> key -> obj_get (obj_set o key v) key' = obj_get o key'.
Proof.
  intros Hne. unfold obj_set.
  destruct (key =? "__proto__"); [reflexivity|].
  apply obj_get_define_other. exact Hne.
Qed.
End ObjectFacts.

(** An index captured by [\d+] is never the key [__proto__]. *)
Lemma digits_not_proto (key : string) :
  all_chars is_digit key = true -> key <> "__proto__".
Proof. intros H ->. discriminate H. Qed.

(** Nor is a property key computed from a field table whose names are
    ordinary. *)
Lemma property_key_not_proto (table : field_table) (code : string) :
  forallb (fun entry => negb (snd entry =? "__proto__")) table = true ->
  property_key (table_get table code) <> "__proto__".
Proof.
  induction table as [|[k name] rest IH]; simpl; intros H.
  - discriminate.
  - apply andb_prop in H. destruct H as [Hname Hrest].
    destruct (k =? code).
    + simpl. intros E. rewrite E in Hname. discriminate.
    + apply IH. exact Hrest.
Qed.

Lemma unknown_code_key (table : field_table) (code : string) :
  table_get table code = None -> property_key (table_get table code) = "undefined".
Proof. intros ->. reflexivity. Qed.

Lemma ga4_names_ordinary :
  forallb (fun entry => negb (snd entry =? "__proto__")) Ga4.GA4_PRODUCT_FIELDS = true.
Proof. reflexivity. Qed.

Lemma ua_names_ordinary (table : field_table) :
  table = Ua.UA_PRODUCT_FIELDS \/ table = Ua.UA_PROMOTION_FIELDS
  \/ table = Ua.UA_IMPRESSION_FIELDS ->
  forallb (fun entry => negb (snd entry =? "__proto__")) table = true.
Proof. intros [-> | [-> | ->]]; reflexivity. Qed.

(** Assigning a field to an entry: the field holds the value, every other
    key of the entry is as before. *)
Lemma assign_field (table : field_table) (entry : Product) (code value : string) :
  forallb (fun e => negb (snd e =? "__proto__")) table = true ->
  let key := property_key (table_get table code) in
  obj_get (obj_set entry key value) key = Some value
  /\ forall k, k <> key -> obj_get (obj_set entry key value) k = obj_get entry k.
Proof.
  intros Hord key. split.
  - apply obj_get_set_same. apply property_key_not_proto. exact Hord.
  - intros k Hk. apply obj_get_set_other. exact Hk.
Qed.


Section Keeping.
Context {V : Type}.

(** An assignment never removes a key. *)
Lemma obj_set_keeps (o : jsobj V) (key key' : string) (v : V) :
  (exists x, obj_get o key = Some x) ->
  exists x, obj_get (obj_set o key' v) key = Some x.
Proof.
  intros [x Hx]. unfold obj_set. destruct (key' =? "__proto__"); [eauto|].
  destruct (string_dec key key') as [-> | Hne].
  - rewrite obj_get_define_same. eauto.
  - rewrite obj_get_define_other by exact Hne. eauto.
Qed.
End Keeping.

(** ** Scanning a URL with a regular expression *)

Lemma append_assoc (a b c : string) : ((a ++ b) ++ c)%string = (a ++ (b ++ c))%string.
Proof. induction a as [|x a IH]; simpl; [reflexivity|rewrite IH; reflexivity]. Qed.

Lemma append_empty_r (a : string) : (a ++ "")%string = a.
Proof. induction a as [|x a IH]; simpl; [reflexivity|rewrite IH; reflexivity]. Qed.

Lemma length_append (a b : string) :
  String.length (a ++ b) = String.length a + String.length b.
Proof. induction a as [|x a IH]; simpl; [reflexivity|rewrite IH; reflexivity]. Qed.

Lemma test_false_exec (r : regex) (s : string) : test r s = false -> exec r s = None.
Proof.
  destruct s; simpl; destruct (exec r _); intros H; try discriminate; reflexivity.
Qed.

Lemma test_false_tail (r : regex) (c : ascii) (s : string) :
  test r (String c s) = false -> test r s = false.
Proof. simpl. destruct (exec r (String c s)); [discriminate|tauto]. Qed.

(** Where the expression matches nowhere, [matchAll] finds nothing. *)
Lemma test_false_matchAllFrom (r : regex) (s : string) :
  test r s = false -> forall skip, matchAllFrom r skip s = [].
Proof.
  induction s as [|c s IH]; intros Htest skip.
  - destruct skip; simpl; [|reflexivity].
    rewrite (test_false_exec _ _ Htest). reflexivity.
  - destruct skip; simpl.
    + rewrite (test_false_exec _ _ Htest). apply IH.
      exact (test_false_tail _ _ _ Htest).
    + apply IH. exact (test_false_tail _ _ _ Htest).
Qed.

Lemma test_false_matchAll (r : regex) (s : string) :
  test r s = false -> matchAll r s = [].
Proof. intros H. apply test_false_matchAllFrom. exact H. Qed.

(** A match further to the right is still found by [test]. *)
Lemma test_append (r : regex) (pre s : string) :
  test r s = true -> test r (pre ++ s) = true.
Proof.
  intros H. induction pre as [|c pre IH]; simpl; [exact H|].
  destruct (exec r (String c (pre ++ s))); [reflexivity|exact IH].
Qed.

(** *** Facts about the matcher *)

Lemma strip_Some (t s rest : string) : strip t s = Some rest -> s = (t ++ rest)%string.
Proof.
  revert s. induction t as [|a t IH]; intros s H; simpl in *.
  - congruence.
  - destruct s as [|b s]; [discriminate|].
    destruct (Ascii.eqb a b) eqn:E; [|discriminate].
    apply Ascii.eqb_eq in E. subst b. rewrite (IH s H). reflexivity.
Qed.

Lemma strip_append (t rest : string) : strip t (t ++ rest) = Some rest.
Proof.
  induction t as [|a t IH]; simpl; [reflexivity|].
  rewrite Ascii.eqb_refl. exact IH.
Qed.

Lemma take_drop_while (p : ascii -> bool) (s : string) :
  (take_while p s ++ drop_while p s)%string = s.
Proof.
  induction s as [|c s IH]; simpl; [reflexivity|].
  destruct (p c); simpl; [rewrite IH|]; reflexivity.
Qed.

Lemma substring_prefix (a b : string) : substring 0 (String.length a) (a ++ b) = a.
Proof.
  induction a as [|c a IH]; simpl; [destruct b; reflexivity|rewrite IH; reflexivity].
Qed.

Lemma consumed_append (a b : string) : consumed (a ++ b) b = a.
Proof.
  unfold consumed. rewrite length_append.
  replace (String.length a + String.length b - String.length b)
    with (String.length a) by lia.
  apply substring_prefix.
Qed.

Lemma consumed_drop_while (p : ascii -> bool) (s : string) :
  consumed s (drop_while p s) = take_while p s.
Proof.
  rewrite <- (take_drop_while p s) at 1. apply consumed_append.
Qed.

(** Followed by something that always matches, a greedy star takes the whole
    run. *)
Lemma star_always {R : Type} (p : ascii -> bool) (s : string) (k : string -> option R) :
  (forall s', k s' <> None) -> star p s k = k (drop_while p s).
Proof.
  intros Hk. induction s as [|c s IH]; simpl; [reflexivity|].
  destruct (p c); [|reflexivity].
  rewrite IH. destruct (k (drop_while p s)) eqn:E; [reflexivity|].
  exfalso. exact (Hk _ E).
Qed.

(** A greedy star gives characters back until what follows matches. *)
Lemma star_append {R : Type} (p : ascii -> bool) (a b : string) (k : string -> option R) :
  all_chars p a = true -> k b <> None -> star p (a ++ b) k <> None.
Proof.
  intros Ha Hk. induction a as [|c a IH]; simpl in *.
  - destruct b as [|c b]; simpl; [exact Hk|].
    destruct (p c); [|exact Hk].
    destruct (star p b k); [discriminate|exact Hk].
  - apply andb_prop in Ha. destruct Ha as [Hc Ha]. rewrite Hc.
    specialize (IH Ha). destruct (star p (a ++ b) k); [discriminate|contradiction].
Qed.

Lemma exec_needs_text (t : string) (r : regex) (s : string) :
  startsWith t s = false -> exec (Cat (Text t) r) s = None.
Proof.
  unfold startsWith, exec. cbn [rmatch].
  destruct (strip t s); [discriminate|reflexivity].
Qed.

Lemma includes_false_test (t : string) (r : regex) (s : string) :
  includes t s = false -> test (Cat (Text t) r) s = false.
Proof.
  induction s as [|c s IH]; intros H; simpl in H; apply orb_false_elim in H;
    destruct H as [Hstart Hrest]; simpl test.
  - rewrite (exec_needs_text _ _ _ Hstart). reflexivity.
  - rewrite (exec_needs_text _ _ _ Hstart). apply IH. exact Hrest.
Qed.

Lemma includes_append_false (t pre s : string) :
  includes t (pre ++ s) = false -> includes t s = false.
Proof.
  induction pre as [|c pre IH]; simpl; [tauto|].
  intros H. apply orb_false_elim in H. apply IH. tauto.
Qed.

(** Leading text in which the expression matches nowhere is passed over. *)
Lemma matchAllFrom_pass (r : regex) (pre s : string) :
  (forall p q, pre = (p ++ q)%string -> q <> "" -> exec r (q ++ s) = None) ->
  matchAllFrom r 0 (pre ++ s) = matchAllFrom r 0 s.
Proof.
  induction pre as [|c pre IH]; intros H; [reflexivity|].
  cbn [append matchAllFrom].
  assert (E : exec r (String c (pre ++ s)) = None)
    by (apply (H "" (String c pre) eq_refl); discriminate).
  rewrite E.
  apply IH. intros p q Hpq Hq. apply (H (String c p) q); [|exact Hq].
  simpl. rewrite Hpq. reflexivity.
Qed.

(** A match at the very start is the first one found. *)
Lemma matchAllFrom_head (r : regex) (s : string) (p : list string) (len : nat) :
  exec r s = Some (p, len) -> exists rest, matchAllFrom r 0 s = p :: rest.
Proof.
  intros H. destruct s; simpl; rewrite H; eexists; reflexivity.
Qed.

(** *** The event name *)

Lemma exec_event_name (tail : string) :
  exec Ga4.GA4_EVENT_NAME_REGEX ("&en=" ++ tail)
  = Some ([take_while not_amp tail],
          String.length ("&en=" ++ tail) - String.length (drop_while not_amp tail)).
Proof.
  unfold exec, Ga4.GA4_EVENT_NAME_REGEX. cbn [rmatch].
  rewrite strip_append.
  rewrite star_always by discriminate.
  cbn [app]. rewrite consumed_drop_while. reflexivity.
Qed.

(** Whether [&en=] starts at a place of the text before an occurrence only
    depends on that text and the three characters after it. *)
Lemma startsWith_event_name (q tail : string) :
  q <> "" ->
  startsWith "&en=" (q ++ "&en=" ++ tail) = startsWith "&en=" (q ++ "&en").
Proof.
  intros Hq. unfold startsWith.
  destruct q as [|c0 [|c1 [|c2 [|c3 q]]]]; [contradiction|..]; cbn [append strip];
    repeat match goal with
           | |- context [Ascii.eqb ?a ?b] => destruct (Ascii.eqb a b) eqn:?
           end; try reflexivity; try discriminate.
Qed.

(** C9.  The GA4 parser sets [event] to the value of the first [&en=]
    parameter of the URL, that is the text from there up to the next
    ampersand or the end; later occurrences are ignored.  ([pre] is what
    comes before the first occurrence: no [&en=] starts inside it.)  Without
    any [&en=] the event is left unset. *)
Theorem ga4_event_is_first_occurrence :
  (forall pre tail : string,
      includes "&en=" (pre ++ "&en") = false ->
      event (Ga4.parse (pre ++ "&en=" ++ tail)) = Some (take_while not_amp tail))
  /\ (forall url : string,
      includes "&en=" url = false -> event (Ga4.parse url) = None).
Proof.
  split.
  - intros pre tail Hfirst. unfold Ga4.parse. cbn [event]. unfold matchAll.
    rewrite matchAllFrom_pass.
    + destruct (matchAllFrom_head _ _ _ _ (exec_event_name tail)) as [rest ->].
      reflexivity.
    + intros p q Hpq Hq. apply exec_needs_text.
      rewrite startsWith_event_name by exact Hq.
      rewrite Hpq, append_assoc in Hfirst.
      apply includes_append_false in Hfirst.
      destruct q as [|c q]; [contradiction|].
      simpl in Hfirst. apply orb_false_elim in Hfirst. tauto.
  - intros url H. unfold Ga4.parse. cbn [event].
    rewrite test_false_matchAll; [reflexivity|].
    apply includes_false_test. exact H.
Qed.

Lemma ga4_event_is_first_occurrence_witness :
  includes "&en=" ("https://www.google-analytics.com/g/collect?v=2" ++ "&en") = false
  /\ event (Ga4.parse "https://www.google-analytics.com/g/collect?v=2&en=purchase&en=refund&ep.currency=USD")
     = Some "purchase".
Proof.
  split; [reflexivity|].
  apply (proj1 ga4_event_is_first_occurrence
               "https://www.google-analytics.com/g/collect?v=2"
               "purchase&en=refund&ep.currency=USD").
  reflexivity.
Defined.

(** *** Recognising hits *)

Lemma test_Text (t s : string) : test (Text t) s = includes t s.
Proof.
  induction s as [|c s IH]; simpl; unfold startsWith, exec; cbn [rmatch].
  - destruct (strip t ""); reflexivity.
  - destruct (strip t (String c s)); [reflexivity|exact IH].
Qed.

Lemma includes_tail (t : string) (c : ascii) (s : string) :
  includes t s = true -> includes t (String c s) = true.
Proof. intros H. simpl. rewrite H. apply orb_true_r. Qed.

Lemma includes_collect (url : string) :
  includes "/g/collect?" url = true -> includes "/collect?" url = true.
Proof.
  induction url as [|c url IH]; simpl.
  - discriminate.
  - intros H. apply orb_prop in H. destruct H as [H | H].
    + unfold startsWith in H.
      destruct (strip "/g/collect?" (String c url)) as [rest|] eqn:E; [|discriminate].
      apply strip_Some in E. simpl in E. injection E as -> ->. reflexivity.
    + apply orb_true_iff. right. apply IH. exact H.
Qed.

(** A UA recogniser matches once its label follows the collect path on the
    same line. *)
Lemma test_collect_label (label pre mid post : string) :
  all_chars dot mid = true ->
  test (Cat (Text "/collect?") (Cat (Star dot) (Text label)))
       (pre ++ "/collect?" ++ mid ++ label ++ post) = true.
Proof.
  intros Hmid. apply test_append.
  assert (H : exec (Cat (Text "/collect?") (Cat (Star dot) (Text label)))
                   ("/collect?" ++ mid ++ label ++ post) <> None).
  { unfold exec. cbn [rmatch]. rewrite strip_append.
    apply star_append; [exact Hmid|].
    rewrite strip_append. discriminate. }
  destruct (exec _ _) eqn:E in H; [|contradiction].
  change ("/collect?" ++ mid ++ label ++ post)%string
    with (String "/" ("collect?" ++ mid ++ label ++ post)).
  change ("/collect?" ++ mid ++ label ++ post)%string
    with (String "/" ("collect?" ++ mid ++ label ++ post)) in E.
  cbn [test]. rewrite E. reflexivity.
Qed.

(** C10.  The recognisers overlap: a GA4 hit URL always contains the UA
    collect path, so a URL with the GA4 path followed, on the same line, by
    [&el=GTM] (or [&el=GA4]) is recognised both as a GA4 hit and as a UA
    legacy (or UA GA4) hit; and some URL is recognised by all three. *)
Theorem recognisers_overlap :
  (forall url, Ga4.isGa4Hit url = true -> includes "/collect?" url = true)
  /\ (forall pre mid post : string,
      all_chars dot mid = true ->
      Ga4.isGa4Hit (pre ++ "/g/collect?" ++ mid ++ "&el=GTM" ++ post) = true
      /\ Ua.isUaLegacyHit (pre ++ "/g/collect?" ++ mid ++ "&el=GTM" ++ post) = true)
  /\ (forall pre mid post : string,
      all_chars dot mid = true ->
      Ga4.isGa4Hit (pre ++ "/g/collect?" ++ mid ++ "&el=GA4" ++ post) = true
      /\ Ua.isUaGa4Hit (pre ++ "/g/collect?" ++ mid ++ "&el=GA4" ++ post) = true)
  /\ exists url, Ga4.isGa4Hit url = true /\ Ua.isUaLegacyHit url = true
                 /\ Ua.isUaGa4Hit url = true.
Proof.
  assert (Hga4 : forall pre rest, Ga4.isGa4Hit (pre ++ "/g/collect?" ++ rest) = true).
  { intros pre rest. unfold Ga4.isGa4Hit. apply test_append.
    unfold Ga4.GA4_URL_REGEX. rewrite test_Text. reflexivity. }
  assert (Hua : forall label pre mid post, all_chars dot mid = true ->
            test (Cat (Text "/collect?") (Cat (Star dot) (Text label)))
                 (pre ++ "/g/collect?" ++ mid ++ label ++ post) = true).
  { intros label pre mid post Hmid.
    change (pre ++ "/g/collect?" ++ mid ++ label ++ post)%string
      with (pre ++ "/g" ++ "/collect?" ++ mid ++ label ++ post)%string.
    rewrite <- append_assoc. apply test_collect_label. exact Hmid. }
  split; [|split; [|split]].
  - intros url H. unfold Ga4.isGa4Hit, Ga4.GA4_URL_REGEX in H.
    rewrite test_Text in H. apply includes_collect. exact H.
  - intros pre mid post Hmid. split; [apply Hga4|].
    apply (Hua "&el=GTM"). exact Hmid.
  - intros pre mid post Hmid. split; [apply Hga4|].
    apply (Hua "&el=GA4"). exact Hmid.
  - exists "https://www.google-analytics.com/g/collect?v=2&el=GTM&el=GA4".
    repeat split; reflexivity.
Qed.

Lemma recognisers_overlap_witness :
  all_chars dot "v=2&tid=G-1" = true
  /\ Ga4.isGa4Hit "https://www.google-analytics.com/g/collect?v=2&tid=G-1&el=GTM&ea=x" = true
  /\ Ua.isUaLegacyHit "https://www.google-analytics.com/g/collect?v=2&tid=G-1&el=GTM&ea=x" = true.
Proof.
  split; [reflexivity|].
  apply (proj1 (proj2 recognisers_overlap)
               "https://www.google-analytics.com" "v=2&tid=G-1" "&ea=x").
  reflexivity.
Defined.

(** ** What a match captures *)

Lemma star_inv {R : Type} (p : ascii -> bool) (s : string) (k : string -> option R) (x : R) :
  star p s k = Some x ->
  exists a b, s = (a ++ b)%string /\ all_chars p a = true /\ k b = Some x.
Proof.
  induction s as [|c s IH]; simpl; intros H.
  - exists "", "". auto.
  - destruct (p c) eqn:Hc.
    + destruct (star p s k) as [y|] eqn:E.
      * injection H as ->. destruct (IH eq_refl) as [a [b [-> [Ha Hb]]]].
        exists (String c a), b. simpl. rewrite Hc, Ha. auto.
      * exists "", (String c s). auto.
    + exists "", (String c s). auto.
Qed.

(** A successful match hands its continuation the captures it was given,
    extended by one capture per group. *)
Lemma rmatch_extends {R : Type} (r : regex) :
  groups_mandatory r = true ->
  forall (s : string) (caps : list string) (k : string -> list string -> option R) (x : R),
    rmatch r s caps k = Some x ->
    exists s' extra, List.length extra = group_count r /\ k s' (caps ++ extra) = Some x.
Proof.
  induction r as [t|p|r1 IH1 r2 IH2|r1 IH1 r2 IH2|r1 IH1|p|p|r1 IH1];
    intros Hm s caps k x H; cbn [rmatch group_count groups_mandatory] in *.
  - destruct (strip t s) as [s'|]; [|discriminate].
    exists s', []. rewrite app_nil_r. auto.
  - destruct s as [|c s]; [discriminate|]. destruct (p c); [|discriminate].
    exists s, []. rewrite app_nil_r. auto.
  - apply andb_prop in Hm. destruct Hm as [Hm1 Hm2].
    destruct (IH1 Hm1 _ _ _ _ H) as [s1 [e1 [Hl1 H1]]].
    destruct (IH2 Hm2 _ _ _ _ H1) as [s2 [e2 [Hl2 H2]]].
    exists s2, (e1 ++ e2). rewrite length_app, app_assoc. split; [lia|exact H2].
  - apply andb_prop in Hm. destruct Hm as [Hm Hm2].
    apply andb_prop in Hm. destruct Hm as [Hm Hm1].
    apply andb_prop in Hm. destruct Hm as [Hc1 Hc2].
    apply Nat.eqb_eq in Hc1, Hc2. rewrite Hc1, Hc2.
    destruct (rmatch r1 s caps k) as [y|] eqn:E.
    + injection H as ->. destruct (IH1 Hm1 _ _ _ _ E) as [s1 [e1 [Hl1 H1]]].
      exists s1, e1. split; [lia|exact H1].
    + destruct (IH2 Hm2 _ _ _ _ H) as [s2 [e2 [Hl2 H2]]].
      exists s2, e2. split; [lia|exact H2].
  - apply andb_prop in Hm. destruct Hm as [Hc1 Hm1].
    apply Nat.eqb_eq in Hc1. rewrite Hc1.
    destruct (rmatch r1 s caps k) as [y|] eqn:E.
    + injection H as ->. destruct (IH1 Hm1 _ _ _ _ E) as [s1 [e1 [Hl1 H1]]].
      exists s1, e1. split; [lia|exact H1].
    + exists s, []. rewrite app_nil_r. auto.
  - destruct (star_inv _ _ _ _ H) as [a [b [_ [_ Hk]]]].
    exists b, []. rewrite app_nil_r. auto.
  - destruct s as [|c s]; [discriminate|]. destruct (p c); [|discriminate].
    destruct (star_inv _ _ _ _ H) as [a [b [_ [_ Hk]]]].
    exists b, []. rewrite app_nil_r. auto.
  - destruct (IH1 Hm _ _ _ _ H) as [s1 [e1 [Hl1 H1]]].
    exists s1, (e1 ++ [consumed s s1]). rewrite length_app, app_assoc.
    split; [simpl; lia|exact H1].
Qed.

(** A group around [p+] captures a non-empty run of the class. *)
Lemma rmatch_group_plus {R : Type} (p : ascii -> bool) (s : string) (caps : list string)
      (k : string -> list string -> option R) (x : R) :
  rmatch (Group (Plus p)) s caps k = Some x ->
  exists g s', g <> "" /\ all_chars p g = true /\ k s' (caps ++ [g]) = Some x.
Proof.
  cbn [rmatch]. destruct s as [|c s]; [discriminate|].
  destruct (p c) eqn:Hc; [|discriminate]. intros H.
  destruct (star_inv _ _ _ _ H) as [a [b [-> [Ha Hk]]]].
  change (String c (a ++ b)) with (String c a ++ b)%string in Hk.
  rewrite consumed_append in Hk.
  exists (String c a), b. split; [discriminate|]. split; [|exact Hk].
  simpl. rewrite Hc, Ha. reflexivity.
Qed.

(** Every match [matchAll] reports was found by [exec] somewhere. *)
Lemma matchAllFrom_In (r : regex) (p : list string) (s : string) :
  forall skip, In p (matchAllFrom r skip s) -> exists s' len, exec r s' = Some (p, len).
Proof.
  induction s as [|c s IH]; intros skip H.
  - destruct skip; simpl in H; [|destruct H].
    destruct (exec r "") as [[q len]|] eqn:E; [|destruct H].
    destruct H as [<- | []]. eexists; eexists; exact E.
  - destruct skip; simpl in H; [|exact (IH _ H)].
    destruct (exec r (String c s)) as [[q len]|] eqn:E; [|exact (IH _ H)].
    destruct H as [<- | H]; [eexists; eexists; exact E|exact (IH _ H)].
Qed.

(** No capture of a match is [undefined] when every group is mandatory. *)
Lemma matchAll_groups (r : regex) (url : string) (p : list string) :
  groups_mandatory r = true ->
  In p (matchAll r url) -> List.length p = group_count r.
Proof.
  intros Hm Hin. destruct (matchAllFrom_In _ _ _ _ Hin) as [s' [len E]].
  unfold exec in E.
  destruct (rmatch_extends r Hm _ _ _ _ E) as [s1 [extra [Hl Hk]]].
  injection Hk as <- _. exact Hl.
Qed.

(** The index captured after a literal prefix by [(\d+)] is a digit string. *)
Lemma first_index_digits (t : string) (rest : regex) (url : string) (p : list string) :
  In p (matchAll (Cat (Text t) (Cat (Group (Plus is_digit)) rest)) url) ->
  groups_mandatory rest = true ->
  all_chars is_digit (group 1 p) = true.
Proof.
  intros Hin Hm. destruct (matchAllFrom_In _ _ _ _ Hin) as [s' [len E]].
  unfold exec in E. cbn [rmatch] in E.
  destruct (strip t s') as [s1|]; [|discriminate].
  change (rmatch (Group (Plus is_digit)) s1 []
            (fun s2 caps2 => rmatch rest s2 caps2
               (fun s3 caps3 => Some (caps3, String.length s' - String.length s3)))
          = Some (p, len)) in E.
  destruct (rmatch_group_plus _ _ _ _ _ E) as [g [s2 [_ [Hg Hk]]]].
  destruct (rmatch_extends rest Hm _ _ _ _ Hk) as [s3 [extra [_ Hf]]].
  injection Hf as <- _. exact Hg.
Qed.

(** Likewise the second index of an impression field. *)
Lemma second_index_digits (url : string) (p : list string) :
  In p (matchAll Ua.UA_IMPRESSION_REGEX url) ->
  all_chars is_digit (group 2 p) = true.
Proof.
  intros Hin. destruct (matchAllFrom_In _ _ _ _ Hin) as [s' [len E]].
  unfold exec, Ua.UA_IMPRESSION_REGEX in E. cbn [rmatch] in E.
  destruct (strip "&il" s') as [s1|]; [|discriminate].
      change (rmatch (Group (Plus is_digit)) s1 []
                (fun s2 caps2 =>
                   rmatch (Cat (Text "pi") (Cat (Group (Plus is_digit))
                             (Cat (Group (Cat (Class is_word) (Class is_word)))
                                (Cat (Text "=") (Group (Star not_amp))))))
                          s2 caps2
                          (fun s3 caps3 => Some (caps3, String.length s' - String.length s3)))
              = Some (p, len)) in E.
  destruct (rmatch_group_plus _ _ _ _ _ E) as [g1 [s2 [_ [_ Hk]]]].
  cbn [rmatch] in Hk. destruct (strip "pi" s2) as [s3|]; [|discriminate].
      change (rmatch (Group (Plus is_digit)) s3 ([] ++ [g1])
                (fun s4 caps4 =>
                   rmatch (Cat (Group (Cat (Class is_word) (Class is_word)))
                             (Cat (Text "=") (Group (Star not_amp))))
                          s4 caps4
                          (fun s5 caps5 => Some (caps5, String.length s' - String.length s5)))
              = Some (p, len)) in Hk.
  destruct (rmatch_group_plus _ _ _ _ _ Hk) as [g2 [s4 [_ [Hg2 Hk2]]]].
  match type of Hk2 with
  | rmatch ?r _ _ _ = _ =>
      destruct (rmatch_extends r eq_refl _ _ _ _ Hk2) as [s5 [extra [_ Hf]]]
  end.
  injection Hf as <- _. exact Hg2.
Qed.

(** ** Decoding never fails *)

(** C8.  Both parsers are total functions of the string.  The one thing they
    do with a match that could go wrong, using a capture that is
    [undefined], cannot happen: every match of every regular expression of
    the parsers carries all its groups.  And a string in which none of the
    regular expressions of a parser matches decodes to the empty record: no
    products, no event, and empty impression, promotion and parameter
    collections. *)
Theorem parse_without_patterns_is_empty :
  (forall r : regex,
      In r [Ga4.GA4_PRODUCT_REGEX; Ga4.GA4_PARAM_REGEX; Ga4.GA4_EVENT_NAME_REGEX;
            Ua.UA_PRODUCT_REGEX; Ua.UA_LIST_NAME_REGEX; Ua.UA_IMPRESSION_REGEX;
            Ua.UA_PROMO_REGEX; Ua.UA_PARAMS_REGEX] ->
      forall (url : string) (p : list string),
        In p (matchAll r url) -> List.length p = group_count r)
  /\ (forall url : string,
      test Ga4.GA4_PRODUCT_REGEX url = false ->
      test Ga4.GA4_PARAM_REGEX url = false ->
      test Ga4.GA4_EVENT_NAME_REGEX url = false ->
      Ga4.parse url
      = {| products := []; impressions := None; promos := None;
           params := Some []; event := None |})
  /\ (forall url : string,
      test Ua.UA_PRODUCT_REGEX url = false ->
      test Ua.UA_LIST_NAME_REGEX url = false ->
      test Ua.UA_IMPRESSION_REGEX url = false ->
      test Ua.UA_PROMO_REGEX url = false ->
      test Ua.UA_PARAMS_REGEX url = false ->
      Ua.parse url
      = {| products := []; impressions := Some []; promos := Some [];
           params := Some []; event := None |}).
Proof.
  split; [|split].
  - intros r Hr url p Hin. apply (matchAll_groups r url p); [|exact Hin].
    cbn [In] in Hr.
    repeat (destruct Hr as [<- | Hr]; [reflexivity|]). destruct Hr.
  - intros url H1 H2 H3. unfold Ga4.parse.
    rewrite (test_false_matchAll _ _ H1), (test_false_matchAll _ _ H2),
      (test_false_matchAll _ _ H3). reflexivity.
  - intros url H1 H2 H3 H4 H5. unfold Ua.parse.
    rewrite (test_false_matchAll _ _ H1), (test_false_matchAll _ _ H2),
      (test_false_matchAll _ _ H3), (test_false_matchAll _ _ H4),
      (test_false_matchAll _ _ H5). reflexivity.
Qed.

Lemma parse_without_patterns_is_empty_witness :
  test Ga4.GA4_PRODUCT_REGEX "not a hit: a=1&b=2" = false
  /\ Ga4.parse "not a hit: a=1&b=2"
     = {| products := []; impressions := None; promos := None;
          params := Some []; event := None |}
  /\ Ua.parse "not a hit: a=1&b=2"
     = {| products := []; impressions := Some []; promos := Some [];
          params := Some []; event := None |}.
Proof.
  split; [reflexivity|]. split.
  - apply (proj1 (proj2 parse_without_patterns_is_empty) "not a hit: a=1&b=2");
      reflexivity.
  - apply (proj2 (proj2 parse_without_patterns_is_empty) "not a hit: a=1&b=2");
      reflexivity.
Defined.

(** ** Product payloads of the GA4 parser *)

Lemma split_cons (sep : ascii) (s : string) : exists part parts, split sep s = part :: parts.
Proof.
  induction s as [|c s [part [parts IH]]]; simpl.
  - eexists; eexists; reflexivity.
  - destruct (Ascii.eqb c sep); [eexists; eexists; reflexivity|].
    rewrite IH. eexists; eexists; reflexivity.
Qed.

(** Text without the separator in front of a string extends its first
    part. *)
Lemma split_prefix (sep : ascii) (pre s part : string) (parts : list string) :
  all_chars (fun c => negb (Ascii.eqb c sep)) pre = true ->
  split sep s = part :: parts ->
  split sep (pre ++ s) = (pre ++ part)%string :: parts.
Proof.
  intros Hpre Hs. induction pre as [|c pre IH]; simpl in *; [exact Hs|].
  apply andb_prop in Hpre. destruct Hpre as [Hc Hpre].
  apply negb_true_iff in Hc. rewrite Hc, (IH Hpre). reflexivity.
Qed.

Lemma split_separator (sep : ascii) (s : string) :
  split sep (String sep s) = "" :: split sep s.
Proof. simpl. rewrite Ascii.eqb_refl. reflexivity. Qed.

Lemma append_char (x : string) (c : ascii) (s : string) :
  (x ++ String c s)%string = ((x ++ String c "") ++ s)%string.
Proof. rewrite append_assoc. reflexivity. Qed.

(** Walking over the parts of an escaped value rebuilds the value: started
    on the first part, the loop reaches the end of the value with the
    original text accumulated and the parts of what follows still to do. *)
Lemma partsLoop_value (value : string) :
  forall (x follow : string) (following : list string) (product : Product)
         (part : string) (parts : list string),
    split "~" follow = "" :: following ->
    split "~" (escapeTilde value ++ follow) = part :: parts ->
    Ga4.partsLoop (x ++ part) parts product
    = Ga4.partsLoop (x ++ value) following product.
Proof.
  induction value as [|c value IH]; intros x follow following product part parts Hf Hs.
  - simpl in Hs. rewrite Hf in Hs. injection Hs as <- <-. reflexivity.
  - simpl in Hs. destruct (Ascii.eqb c "~") eqn:Ec.
    + apply Ascii.eqb_eq in Ec. subst c.
      simpl in Hs.
      destruct (split_cons "~" (escapeTilde value ++ follow)) as [part' [parts' Hs']].
      rewrite Hs' in Hs. injection Hs as <- <-.
      cbn [Ga4.partsLoop String.eqb].
      replace (if part' =? "" then "" else part') with part'
        by (destruct (part' =? "") eqn:E; [apply String.eqb_eq in E; congruence|reflexivity]).
      rewrite append_empty_r.
      rewrite (IH (x ++ "~")%string follow following product part' parts' Hf Hs').
      rewrite <- append_char. reflexivity.
    + simpl in Hs. rewrite Ec in Hs.
      destruct (split_cons "~" (escapeTilde value ++ follow)) as [part' [parts' Hs']].
      rewrite Hs' in Hs. injection Hs as <- <-.
      rewrite (append_char x c part'), (append_char x c value).
      apply (IH _ follow following product part' parts' Hf Hs').
Qed.

Lemma field_code_length (code : string) : field_code code = true -> String.length code = 2.
Proof.
  unfold field_code. intros H. apply andb_prop in H. destruct H as [H _].
  apply Nat.eqb_eq in H. exact H.
Qed.

Lemma field_code_no_tilde (code : string) :
  field_code code = true -> all_chars (fun c => negb (Ascii.eqb c "~")) code = true.
Proof. unfold field_code. intros H. apply andb_prop in H. tauto. Qed.

Lemma substring_from_append (code value : string) :
  substring_from (String.length code) (code ++ value) = value.
Proof. induction code as [|c code IH]; simpl; [destruct value; reflexivity|exact IH]. Qed.

(** Storing a finished part: the code selects the field, the rest is the
    value. *)
Lemma storePart_field (product : Product) (code value : string) :
  field_code code = true ->
  Ga4.storePart product (code ++ value)
  = obj_set product (property_key (table_get Ga4.GA4_PRODUCT_FIELDS code)) value.
Proof.
  intros Hc. unfold Ga4.storePart.
  pose proof (field_code_length _ Hc) as Hlen.
  rewrite <- Hlen at 1. rewrite substring_prefix.
  rewrite <- Hlen. rewrite substring_from_append. reflexivity.
Qed.

Lemma encodePayload_cons (field : string * string) (rest : list (string * string)) :
  exists follow following,
    encodePayload (field :: rest) = (fst field ++ escapeTilde (snd field) ++ follow)%string
    /\ split "~" follow = "" :: following
    /\ (rest = [] -> following = [])
    /\ (rest <> [] -> following = split "~" (encodePayload rest)).
Proof.
  destruct rest as [|next rest].
  - exists "", []. simpl. unfold encodeField. rewrite append_empty_r.
    repeat split; try reflexivity. congruence.
  - exists (String "~" (encodePayload (next :: rest))),
           (split "~" (encodePayload (next :: rest))).
    cbn [encodePayload]. unfold encodeField at 1. rewrite append_assoc.
    repeat split; try reflexivity. discriminate.
Qed.

Lemma partsLoop_fields (rest : list (string * string)) :
  forall (field : string * string) (product : Product) (part : string) (parts : list string),
    Forall (fun f => field_code (fst f) = true) (field :: rest) ->
    split "~" (encodePayload (field :: rest)) = part :: parts ->
    Ga4.partsLoop part parts product
    = fold_left (fun acc f =>
                   obj_set acc (property_key (table_get Ga4.GA4_PRODUCT_FIELDS (fst f)))
                           (snd f))
                (field :: rest) product.
Proof.
  induction rest as [|next rest IH]; intros field product part parts Hcodes Hsplit.
  - destruct field as [code value]. cbn [encodePayload] in Hsplit.
    unfold encodeField in Hsplit. cbn [fst snd] in Hsplit.
    inversion Hcodes as [|? ? Hc _]; subst. cbn [fst] in Hc.
    rewrite <- (append_empty_r (escapeTilde value)) in Hsplit.
    destruct (split_cons "~" (escapeTilde value ++ "")) as [part' [parts' Hs']].
    rewrite (split_prefix _ _ _ _ _ (field_code_no_tilde _ Hc) Hs') in Hsplit.
    injection Hsplit as <- <-.
    rewrite (partsLoop_value value code "" [] product part' parts' eq_refl Hs').
    cbn [Ga4.partsLoop fold_left fst snd]. apply storePart_field. exact Hc.
  - destruct field as [code value].
    inversion Hcodes as [|? ? Hc Hrest]; subst. cbn [fst] in Hc.
    change (encodePayload ((code, value) :: next :: rest))
      with ((code ++ escapeTilde value) ++ String "~" (encodePayload (next :: rest)))%string
      in Hsplit.
    rewrite append_assoc in Hsplit.
    destruct (split_cons "~" (escapeTilde value
                                ++ String "~" (encodePayload (next :: rest))))
      as [part' [parts' Hs']].
    rewrite (split_prefix _ _ _ _ _ (field_code_no_tilde _ Hc) Hs') in Hsplit.
    injection Hsplit as <- <-.
    destruct (split_cons "~" (encodePayload (next :: rest))) as [part2 [parts2 Hs2]].
    rewrite (partsLoop_value value code (String "~" (encodePayload (next :: rest)))
               (part2 :: parts2) product part' parts').
    + assert (Hpart2 : (part2 =? "") = false).
      { destruct (encodePayload_cons next rest) as [follow [following [He _]]].
        rewrite He in Hs2.
        inversion Hrest as [|? ? Hc2 _]; subst.
        destruct (split_cons "~" (escapeTilde (snd next) ++ follow)) as [p3 [ps3 Hs3]].
        rewrite (split_prefix _ _ _ _ _ (field_code_no_tilde _ Hc2) Hs3) in Hs2.
        injection Hs2 as <- <-.
        pose proof (field_code_length _ Hc2) as Hlen.
        destruct (fst next) as [|a code2]; [discriminate|reflexivity]. }
      cbn [Ga4.partsLoop]. rewrite Hpart2.
      rewrite (IH next (Ga4.storePart product (code ++ value)) part2 parts2 Hrest Hs2).
      rewrite storePart_field by exact Hc. reflexivity.
    + rewrite split_separator, Hs2. reflexivity.
    + exact Hs'.
Qed.

Lemma fold_set_other (fields : list (string * string)) (product : Product) (key : string) :
  Forall (fun f => property_key (table_get Ga4.GA4_PRODUCT_FIELDS (fst f)) <> key) fields ->
  obj_get (fold_left (fun acc f =>
                        obj_set acc (property_key (table_get Ga4.GA4_PRODUCT_FIELDS (fst f)))
                                (snd f)) fields product) key
  = obj_get product key.
Proof.
  revert product. induction fields as [|f fields IH]; intros product H; [reflexivity|].
  inversion H as [|? ? Hf Hrest]; subst. cbn [fold_left].
  rewrite (IH _ Hrest). apply obj_get_set_other. congruence.
Qed.

(** Decoding an encoded payload gives the product its fields describe. *)
Lemma parseProduct_encodePayload (fields : list (string * string)) :
  fields <> [] ->
  Forall (fun f => field_code (fst f) = true) fields ->
  Ga4.parseProduct (encodePayload fields) = productOf fields.
Proof.
  intros Hne Hcodes. destruct fields as [|field rest]; [congruence|].
  unfold Ga4.parseProduct, productOf.
  destruct (split_cons "~" (encodePayload (field :: rest))) as [part [parts Hs]].
  rewrite Hs. apply partsLoop_fields; assumption.
Qed.

(** A key assigned by one of the fields is a key of the product. *)
Lemma productOf_has_key (fields : list (string * string)) (code value : string) :
  In (code, value) fields ->
  exists stored,
    obj_get (productOf fields) (property_key (table_get Ga4.GA4_PRODUCT_FIELDS code))
    = Some stored.
Proof.
  unfold productOf. generalize (@nil (string * string)) as product.
  induction fields as [|f fields IH]; intros product Hin; [destruct Hin|].
  cbn [fold_left]. destruct Hin as [-> | Hin]; [|apply IH; exact Hin].
  cbn [fst snd]. clear IH.
  assert (H : exists stored,
             obj_get (obj_set product
                        (property_key (table_get Ga4.GA4_PRODUCT_FIELDS code)) value)
                     (property_key (table_get Ga4.GA4_PRODUCT_FIELDS code)) = Some stored).
  { eexists. apply obj_get_set_same, property_key_not_proto, ga4_names_ordinary. }
  revert H. generalize (obj_set product
                          (property_key (table_get Ga4.GA4_PRODUCT_FIELDS code)) value).
  induction fields as [|f fields IH]; intros acc H; [exact H|].
  cbn [fold_left]. apply IH, obj_set_keeps, H.
Qed.

(** C6.  A payload that encodes a list of fields, each value with its
    literal tildes doubled, decodes to exactly those fields: the product is
    the one the fields describe, and when no two fields share a field name
    every field is read back with its exact original value.  (The payload
    [id12345~nmFoo~~Bar] thus gives [item_id] 12345 and [item_name]
    Foo~Bar.) *)
Theorem tilde_escaping_round_trip (fields : list (string * string)) :
  fields <> [] ->
  Forall (fun f => field_code (fst f) = true) fields ->
  Ga4.parseProduct (encodePayload fields) = productOf fields
  /\ (NoDup (map (fun f => property_key (table_get Ga4.GA4_PRODUCT_FIELDS (fst f))) fields) ->
      forall code value, In (code, value) fields ->
        obj_get (Ga4.parseProduct (encodePayload fields))
                (property_key (table_get Ga4.GA4_PRODUCT_FIELDS code))
        = Some value).
Proof.
  intros Hne Hcodes.
  pose proof (parseProduct_encodePayload fields Hne Hcodes) as Heq.
  split; [exact Heq|].
  rewrite Heq. unfold productOf. clear Heq Hne Hcodes.
  generalize (@nil (string * string)) as product.
  induction fields as [|f fields IH]; intros product Hnodup code value Hin; [destruct Hin|].
  rewrite map_cons in Hnodup. apply NoDup_cons_iff in Hnodup.
  destruct Hnodup as [Hfresh Hnodup'].
  cbn [fold_left]. destruct Hin as [-> | Hin].
  - cbn [fst snd]. rewrite fold_set_other.
    + apply obj_get_set_same, property_key_not_proto, ga4_names_ordinary.
    + apply Forall_forall. intros f' Hf' E. apply Hfresh.
      cbn [fst]. rewrite <- E.
      apply (in_map (fun f => property_key (table_get Ga4.GA4_PRODUCT_FIELDS (fst f)))).
      exact Hf'.
  - apply IH; assumption.
Qed.

Lemma tilde_escaping_round_trip_witness :
  [("id", "12345"); ("nm", "Foo~Bar")] <> []
  /\ encodePayload [("id", "12345"); ("nm", "Foo~Bar")] = "id12345~nmFoo~~Bar"
  /\ Ga4.parseProduct "id12345~nmFoo~~Bar"
     = [("item_id", "12345"); ("item_name", "Foo~Bar")].
Proof.
  assert (Hne : [("id", "12345"); ("nm", "Foo~Bar")] <> []) by discriminate.
  split; [exact Hne|]. split; [reflexivity|].
  apply (proj1 (tilde_escaping_round_trip [("id", "12345"); ("nm", "Foo~Bar")] Hne
                  ltac:(repeat constructor))).
Defined.

(** The same payload inside a hit URL. *)
Example ga4_parse_tilde_example :
  products (Ga4.parse "https://www.google-analytics.com/g/collect?v=2&en=view_item&pr1=id12345~nmFoo~~Bar")
  = [("1", [("item_id", "12345"); ("item_name", "Foo~Bar")])].
Proof. vm_compute. reflexivity. Qed.

(** ** Fields survive the rest of the scan *)



Lemma fieldStep_keeps (table : field_table) (entries : jsobj Product) (p : list string)
      (index key : string) :
  entry_has entries index key -> entry_has (Ua.fieldStep table entries p) index key.
Proof.
  intros [entry [value [He Hk]]]. unfold Ua.fieldStep, entry_has, obj_set at 1.
  destruct (group 1 p =? "__proto__"); [eauto|].
  destruct (string_dec index (group 1 p)) as [-> | Hne].
  - rewrite obj_get_define_same, He. cbn [Ua.or_empty].
    destruct (obj_set_keeps entry key
                (property_key (table_get table (group 2 p))) (group 3 p))
      as [x Hx]; eauto.
  - rewrite obj_get_define_other by exact Hne. eauto.
Qed.

Lemma fieldStep_adds (table : field_table) (entries : jsobj Product) (p : list string) :
  forallb (fun e => negb (snd e =? "__proto__")) table = true ->
  all_chars is_digit (group 1 p) = true ->
  entry_has (Ua.fieldStep table entries p) (group 1 p)
            (property_key (table_get table (group 2 p))).
Proof.
  intros Hord Hidx. unfold Ua.fieldStep, entry_has.
  eexists. eexists. split.
  - apply obj_get_set_same, digits_not_proto, Hidx.
  - apply obj_get_set_same, property_key_not_proto, Hord.
Qed.

Lemma fold_fieldStep_keeps (table : field_table) (ms : list (list string))
      (index key : string) :
  forall entries,
    entry_has entries index key ->
    entry_has (fold_left (Ua.fieldStep table) ms entries) index key.
Proof.
  induction ms as [|m ms IH]; intros entries H; [exact H|].
  cbn [fold_left]. apply IH, fieldStep_keeps, H.
Qed.

(** Every field found by the scan is in the record at the end of it. *)
Lemma fold_fieldStep_survives (table : field_table) (ms : list (list string)) :
  forallb (fun e => negb (snd e =? "__proto__")) table = true ->
  forall entries p,
    In p ms ->
    all_chars is_digit (group 1 p) = true ->
    entry_has (fold_left (Ua.fieldStep table) ms entries) (group 1 p)
              (property_key (table_get table (group 2 p))).
Proof.
  intros Hord. induction ms as [|m ms IH]; intros entries p Hin Hidx; [destruct Hin|].
  cbn [fold_left]. destruct Hin as [-> | Hin].
  - apply fold_fieldStep_keeps, fieldStep_adds; assumption.
  - apply IH; assumption.
Qed.

Lemma listNameStep_keeps (lists : jsobj ImpressionList.t) (m : list string) (index : string) :
  list_named lists index -> list_named (Ua.listNameStep lists m) index.
Proof.
  intros [l [n [Hl Hn]]]. unfold Ua.listNameStep, list_named, obj_set.
  destruct (group 1 m =? "__proto__"); [eauto|].
  destruct (string_dec index (group 1 m)) as [-> | Hne].
  - rewrite obj_get_define_same. eexists. eexists. split; reflexivity.
  - rewrite obj_get_define_other by exact Hne. eauto.
Qed.

Lemma listNameStep_adds (lists : jsobj ImpressionList.t) (m : list string) :
  all_chars is_digit (group 1 m) = true ->
  list_named (Ua.listNameStep lists m) (group 1 m).
Proof.
  intros Hidx. unfold Ua.listNameStep, list_named. eexists. eexists. split.
  - apply obj_get_set_same, digits_not_proto, Hidx.
  - reflexivity.
Qed.

Lemma impressionStep_keeps_name (lists : jsobj ImpressionList.t) (imp : list string)
      (index : string) :
  list_named lists index -> list_named (Ua.impressionStep lists imp) index.
Proof.
  intros [l [n [Hl Hn]]]. unfold Ua.impressionStep, list_named, obj_set at 1.
  destruct (group 1 imp =? "__proto__"); [eauto|].
  destruct (string_dec index (group 1 imp)) as [-> | Hne].
  - rewrite obj_get_define_same, Hl. cbn [Ua.or_empty_list]. eauto.
  - rewrite obj_get_define_other by exact Hne. eauto.
Qed.

Lemma impressionStep_keeps (lists : jsobj ImpressionList.t) (imp : list string)
      (index inner key : string) :
  impression_has lists index inner key ->
  impression_has (Ua.impressionStep lists imp) index inner key.
Proof.
  intros [l [Hl [entry [value [He Hk]]]]].
  unfold Ua.impressionStep, impression_has, obj_set at 1.
  destruct (group 1 imp =? "__proto__"); [unfold entry_has; eauto 6|].
  destruct (string_dec index (group 1 imp)) as [-> | Hne].
  - rewrite obj_get_define_same, Hl. cbn [Ua.or_empty_list].
    eexists. split; [reflexivity|]. cbn [ImpressionList.impressions].
    unfold entry_has, obj_set at 1.
    destruct (group 2 imp =? "__proto__"); [eauto|].
    destruct (string_dec inner (group 2 imp)) as [-> | Hne].
    + rewrite obj_get_define_same, He. cbn [Ua.or_empty].
      destruct (obj_set_keeps entry key
                  (property_key (table_get Ua.UA_IMPRESSION_FIELDS (group 3 imp)))
                  (group 4 imp)) as [x Hx]; eauto.
    + rewrite obj_get_define_other by exact Hne. eauto.
  - rewrite obj_get_define_other by exact Hne. unfold entry_has. eauto 6.
Qed.

Lemma impressionStep_adds (lists : jsobj ImpressionList.t) (imp : list string) :
  all_chars is_digit (group 1 imp) = true ->
  all_chars is_digit (group 2 imp) = true ->
  impression_has (Ua.impressionStep lists imp) (group 1 imp) (group 2 imp)
                 (property_key (table_get Ua.UA_IMPRESSION_FIELDS (group 3 imp))).
Proof.
  intros H1 H2. unfold Ua.impressionStep, impression_has, entry_has.
  eexists. split; [apply obj_get_set_same, digits_not_proto, H1|].
  cbn [ImpressionList.impressions]. eexists. eexists. split.
  - apply obj_get_set_same, digits_not_proto, H2.
  - apply obj_get_set_same, property_key_not_proto. reflexivity.
Qed.

Lemma fold_listNameStep_survives (ms : list (list string)) :
  forall lists m,
    In m ms -> all_chars is_digit (group 1 m) = true ->
    list_named (fold_left Ua.listNameStep ms lists) (group 1 m).
Proof.
  induction ms as [|m0 ms IH]; intros lists m Hin Hidx; [destruct Hin|].
  cbn [fold_left]. destruct Hin as [-> | Hin]; [|apply IH; assumption].
  clear IH. generalize (listNameStep_adds lists m Hidx).
  generalize (Ua.listNameStep lists m). induction ms as [|m1 ms IH]; intros l H; [exact H|].
  cbn [fold_left]. apply IH, listNameStep_keeps, H.
Qed.

Lemma fold_impressionStep_keeps_name (ms : list (list string)) (index : string) :
  forall lists, list_named lists index ->
                list_named (fold_left Ua.impressionStep ms lists) index.
Proof.
  induction ms as [|m ms IH]; intros lists H; [exact H|].
  cbn [fold_left]. apply IH, impressionStep_keeps_name, H.
Qed.

Lemma fold_impressionStep_survives (ms : list (list string)) :
  forall lists imp,
    In imp ms ->
    all_chars is_digit (group 1 imp) = true ->
    all_chars is_digit (group 2 imp) = true ->
    impression_has (fold_left Ua.impressionStep ms lists) (group 1 imp) (group 2 imp)
                   (property_key (table_get Ua.UA_IMPRESSION_FIELDS (group 3 imp))).
Proof.
  induction ms as [|m0 ms IH]; intros lists imp Hin H1 H2; [destruct Hin|].
  cbn [fold_left]. destruct Hin as [-> | Hin]; [|apply IH; assumption].
  clear IH. generalize (impressionStep_adds lists imp H1 H2).
  generalize (Ua.impressionStep lists imp).
  induction ms as [|m1 ms IH]; intros l H; [exact H|].
  cbn [fold_left]. apply IH, impressionStep_keeps, H.
Qed.

(** *** The four scans of the UA parser, on a whole URL *)

Lemma ua_products_survive (url : string) (p : list string) :
  In p (matchAll Ua.UA_PRODUCT_REGEX url) ->
  entry_has (products (Ua.parse url)) (group 1 p)
            (property_key (table_get Ua.UA_PRODUCT_FIELDS (group 2 p))).
Proof.
  intros Hin. unfold Ua.parse. cbn [products].
  apply fold_fieldStep_survives; [reflexivity|exact Hin|].
  exact (first_index_digits "&pr" _ url p Hin eq_refl).
Qed.

Lemma ua_promos_survive (url : string) (p : list string) :
  In p (matchAll Ua.UA_PROMO_REGEX url) ->
  exists entries,
    promos (Ua.parse url) = Some entries
    /\ entry_has entries (group 1 p)
                 (property_key (table_get Ua.UA_PROMOTION_FIELDS (group 2 p))).
Proof.
  intros Hin. unfold Ua.parse. cbn [promos]. eexists. split; [reflexivity|].
  apply fold_fieldStep_survives; [reflexivity|exact Hin|].
  exact (first_index_digits "&promo" _ url p Hin eq_refl).
Qed.

Lemma ua_list_names_survive (url : string) (m : list string) :
  In m (matchAll Ua.UA_LIST_NAME_REGEX url) ->
  exists lists,
    impressions (Ua.parse url) = Some lists /\ list_named lists (group 1 m).
Proof.
  intros Hin. unfold Ua.parse. cbn [impressions]. eexists. split; [reflexivity|].
  apply fold_impressionStep_keeps_name, fold_listNameStep_survives; [exact Hin|].
  exact (first_index_digits "&il" _ url m Hin eq_refl).
Qed.

Lemma ua_impressions_survive (url : string) (imp : list string) :
  In imp (matchAll Ua.UA_IMPRESSION_REGEX url) ->
  exists lists,
    impressions (Ua.parse url) = Some lists
    /\ impression_has lists (group 1 imp) (group 2 imp)
         (property_key (table_get Ua.UA_IMPRESSION_FIELDS (group 3 imp))).
Proof.
  intros Hin. unfold Ua.parse. cbn [impressions]. eexists. split; [reflexivity|].
  apply fold_impressionStep_survives; [exact Hin| |].
  - exact (first_index_digits "&il" _ url imp Hin eq_refl).
  - exact (second_index_digits url imp Hin).
Qed.

(** ** Product blocks of a GA4 hit *)

(** Assignments under other keys leave a key as it is. *)
Lemma fold_assign_skip {V M : Type} (kf : M -> string) (vf : M -> V) (key : string)
      (ms : list M) :
  Forall (fun m => kf m <> key) ms ->
  forall init : jsobj V,
    obj_get (fold_left (fun acc m => obj_set acc (kf m) (vf m)) ms init) key
    = obj_get init key.
Proof.
  induction 1 as [|m ms Hm _ IH]; intros init; [reflexivity|].
  cbn [fold_left]. rewrite IH. apply obj_get_set_other. congruence.
Qed.

(** The product of an index is decoded from the last block of that index. *)
Lemma ga4_last_block (url : string) (before after : list (list string)) (p : list string) :
  matchAll Ga4.GA4_PRODUCT_REGEX url = before ++ p :: after ->
  Forall (fun q => group 1 q <> group 1 p) after ->
  obj_get (products (Ga4.parse url)) (group 1 p) = Some (Ga4.parseProduct (group 2 p)).
Proof.
  intros Hms Hafter.
  assert (Hin : In p (matchAll Ga4.GA4_PRODUCT_REGEX url))
    by (rewrite Hms; apply in_or_app; right; left; reflexivity).
  pose proof (first_index_digits "&pr" _ url p Hin eq_refl) as Hd.
  unfold Ga4.parse. cbn [products]. rewrite Hms.
  rewrite fold_left_app. cbn [fold_left].
  rewrite (fold_assign_skip (group 1) (fun q => Ga4.parseProduct (group 2 q))
                            (group 1 p) after Hafter).
  apply obj_get_set_same, digits_not_proto, Hd.
Qed.

(** ** Field assignment in the two parsers *)

(** C2 (as amended).  A product, impression or promotion field whose code is
    absent from the code table is not dropped.  The assignment of each
    decoding loop stores its value in the entry under the key [undefined] and
    leaves every other key of the entry as it was (first three parts, on the
    bodies of the loops).  So an encoded GA4 payload that carries such a
    field decodes to a product with the key [undefined] (fourth part), and
    for every URL so does the product the GA4 parser leaves at an index whose
    last block carries such a field (fifth part: a later block of the same
    index replaces the product of an earlier one, as in the URL of the last
    part), and the entry the UA parser leaves at the index of such a field
    (sixth to eighth part).  No step of either parser can throw. *)
Theorem unknown_code_stored_under_undefined :
  (forall (product : Product) (productPart : string),
      table_get Ga4.GA4_PRODUCT_FIELDS (substring 0 2 productPart) = None ->
      obj_get (Ga4.storePart product productPart) "undefined"
      = Some (substring_from 2 productPart)
      /\ forall k, k <> "undefined" ->
           obj_get (Ga4.storePart product productPart) k = obj_get product k)
  /\ (forall (table : field_table) (entries : jsobj Product) (p : list string),
      table = Ua.UA_PRODUCT_FIELDS \/ table = Ua.UA_PROMOTION_FIELDS ->
      table_get table (group 2 p) = None ->
      all_chars is_digit (group 1 p) = true ->
      exists entry,
        obj_get (Ua.fieldStep table entries p) (group 1 p) = Some entry
        /\ obj_get entry "undefined" = Some (group 3 p)
        /\ forall k, k <> "undefined" ->
             obj_get entry k = obj_get (Ua.or_empty (obj_get entries (group 1 p))) k)
  /\ (forall (lists : jsobj ImpressionList.t) (imp : list string),
      table_get Ua.UA_IMPRESSION_FIELDS (group 3 imp) = None ->
      all_chars is_digit (group 1 imp) = true ->
      all_chars is_digit (group 2 imp) = true ->
      exists l impression,
        obj_get (Ua.impressionStep lists imp) (group 1 imp) = Some l
        /\ obj_get (ImpressionList.impressions l) (group 2 imp) = Some impression
        /\ obj_get impression "undefined" = Some (group 4 imp)
        /\ forall k, k <> "undefined" ->
             obj_get impression k
             = obj_get (Ua.or_empty
                          (obj_get (ImpressionList.impressions
                                      (Ua.or_empty_list (obj_get lists (group 1 imp))))
                                   (group 2 imp))) k)
  /\ (forall (fields : list (string * string)) (code value : string),
      fields <> [] ->
      Forall (fun f => field_code (fst f) = true) fields ->
      In (code, value) fields ->
      table_get Ga4.GA4_PRODUCT_FIELDS code = None ->
      exists stored,
        obj_get (Ga4.parseProduct (encodePayload fields)) "undefined" = Some stored)
  /\ (forall (url : string) (before after : list (list string)) (p : list string)
             (fields : list (string * string)) (code value : string),
      matchAll Ga4.GA4_PRODUCT_REGEX url = before ++ p :: after ->
      Forall (fun q => group 1 q <> group 1 p) after ->
      group 2 p = encodePayload fields ->
      fields <> [] ->
      Forall (fun f => field_code (fst f) = true) fields ->
      In (code, value) fields ->
      table_get Ga4.GA4_PRODUCT_FIELDS code = None ->
      entry_has (products (Ga4.parse url)) (group 1 p) "undefined")
  /\ (forall (url : string) (p : list string),
      In p (matchAll Ua.UA_PRODUCT_REGEX url) ->
      table_get Ua.UA_PRODUCT_FIELDS (group 2 p) = None ->
      entry_has (products (Ua.parse url)) (group 1 p) "undefined")
  /\ (forall (url : string) (p : list string),
      In p (matchAll Ua.UA_PROMO_REGEX url) ->
      table_get Ua.UA_PROMOTION_FIELDS (group 2 p) = None ->
      exists entries, promos (Ua.parse url) = Some entries
                      /\ entry_has entries (group 1 p) "undefined")
  /\ (forall (url : string) (imp : list string),
      In imp (matchAll Ua.UA_IMPRESSION_REGEX url) ->
      table_get Ua.UA_IMPRESSION_FIELDS (group 3 imp) = None ->
      exists lists, impressions (Ua.parse url) = Some lists
                    /\ impression_has lists (group 1 imp) (group 2 imp) "undefined")
  /\ products (Ga4.parse "https://www.google-analytics.com/g/collect?v=2&pr1=zzFoo&pr1=idA")
     = [("1", [("item_id", "A")])].
Proof.
  repeat apply conj.
  - intros product productPart Hcode. unfold Ga4.storePart.
    rewrite Hcode. cbn [property_key]. split.
    + apply obj_get_set_same. discriminate.
    + intros k Hk. apply obj_get_set_other. exact Hk.
  - intros table entries p _ Hcode Hidx. unfold Ua.fieldStep.
    rewrite Hcode. cbn [property_key].
    eexists. split; [apply obj_get_set_same, digits_not_proto, Hidx|]. split.
    + apply obj_get_set_same. discriminate.
    + intros k Hk. apply obj_get_set_other. exact Hk.
  - intros lists imp Hcode Hidx Himp. unfold Ua.impressionStep.
    rewrite Hcode. cbn [property_key].
    eexists. eexists.
    split; [apply obj_get_set_same, digits_not_proto, Hidx|].
    cbn [ImpressionList.impressions].
    split; [apply obj_get_set_same, digits_not_proto, Himp|]. split.
    + apply obj_get_set_same. discriminate.
    + intros k Hk. apply obj_get_set_other. exact Hk.
  - intros fields code value Hne Hcodes Hin Hcode.
    rewrite (parseProduct_encodePayload fields Hne Hcodes).
    rewrite <- (unknown_code_key _ _ Hcode).
    exact (productOf_has_key fields code value Hin).
  - intros url before after p fields code value Hms Hafter Hpayload Hne Hcodes Hin Hcode.
    destruct (productOf_has_key fields code value Hin) as [stored Hstored].
    rewrite (unknown_code_key _ _ Hcode) in Hstored.
    exists (Ga4.parseProduct (group 2 p)), stored. split.
    + exact (ga4_last_block url before after p Hms Hafter).
    + rewrite Hpayload, (parseProduct_encodePayload fields Hne Hcodes). exact Hstored.
  - intros url p Hin Hcode.
    rewrite <- (unknown_code_key _ _ Hcode). exact (ua_products_survive url p Hin).
  - intros url p Hin Hcode.
    rewrite <- (unknown_code_key _ _ Hcode). exact (ua_promos_survive url p Hin).
  - intros url imp Hin Hcode.
    rewrite <- (unknown_code_key _ _ Hcode). exact (ua_impressions_survive url imp Hin).
  - vm_compute. reflexivity.
Qed.

Lemma unknown_code_stored_under_undefined_witness :
  table_get Ga4.GA4_PRODUCT_FIELDS (substring 0 2 "zzFoo") = None
  /\ obj_get (Ga4.storePart [("item_id", "SKU1")] "zzFoo") "undefined" = Some "Foo"
  /\ table_get Ua.UA_PRODUCT_FIELDS (group 2 ["1"; "zz"; "Foo"]) = None
  /\ all_chars is_digit (group 1 ["1"; "zz"; "Foo"]) = true
  /\ (exists entry,
       obj_get (Ua.fieldStep Ua.UA_PRODUCT_FIELDS [("1", [("item_id", "SKU1")])]
                             ["1"; "zz"; "Foo"]) "1" = Some entry
       /\ obj_get entry "undefined" = Some "Foo")
  /\ matchAll Ga4.GA4_PRODUCT_REGEX "https://x.test/g/collect?v=2&pr1=idA&pr2=idB&pr1=idC~zzFoo"
     = [["1"; "idA"]; ["2"; "idB"]] ++ ["1"; "idC~zzFoo"] :: []
  /\ entry_has (products (Ga4.parse "https://x.test/g/collect?v=2&pr1=idA&pr2=idB&pr1=idC~zzFoo"))
               "1" "undefined".
Proof.
  split; [reflexivity|]. split.
  - apply (proj1 (proj1 unknown_code_stored_under_undefined
                        [("item_id", "SKU1")] "zzFoo" eq_refl)).
  - split; [reflexivity|]. split; [reflexivity|]. split.
    + destruct (proj1 (proj2 unknown_code_stored_under_undefined)
                      Ua.UA_PRODUCT_FIELDS [("1", [("item_id", "SKU1")])]
                      ["1"; "zz"; "Foo"] (or_introl eq_refl) eq_refl eq_refl)
        as [entry [H1 [H2 _]]].
      exists entry. split; assumption.
    + split; [vm_compute; reflexivity|].
      apply (proj1 (proj2 (proj2 (proj2 (proj2 unknown_code_stored_under_undefined))))
                   "https://x.test/g/collect?v=2&pr1=idA&pr2=idB&pr1=idC~zzFoo"
                   [["1"; "idA"]; ["2"; "idB"]] [] ["1"; "idC~zzFoo"]
                   [("id", "C"); ("zz", "Foo")] "zz" "Foo").
      * vm_compute. reflexivity.
      * constructor.
      * reflexivity.
      * discriminate.
      * repeat constructor.
      * right. left. reflexivity.
      * reflexivity.
Defined.

(** C2 as stated fails in both parsers: the value of a field with the unknown
    code [zz] is kept in the decoded product, under the key [undefined]. *)
Lemma unknown_code_value_kept :
  table_get Ga4.GA4_PRODUCT_FIELDS "zz" = None
  /\ products (Ga4.parse "https://www.google-analytics.com/g/collect?v=2&en=view_item&pr1=idSKU1~zzFoo")
     = [("1", [("item_id", "SKU1"); ("undefined", "Foo")])]
  /\ table_get Ua.UA_PRODUCT_FIELDS "zz" = None
  /\ products (Ua.parse "https://www.google-analytics.com/collect?v=1&t=event&pr1id=SKU1&pr1zz=Foo")
     = [("1", [("item_id", "SKU1"); ("undefined", "Foo")])]
  /\ products (Ua.parse "https://www.google-analytics.com/collect?v=1&t=event&pr1id=SKU1&pr1zz=Foo")
     <> [("1", [("item_id", "SKU1")])].
Proof.
  split; [reflexivity|]. split; [vm_compute; reflexivity|].
  split; [reflexivity|]. split; [vm_compute; reflexivity|].
  vm_compute. discriminate.
Qed.

(** C7.  In the UA parser a field found for an index that already has an
    entry is merged into that entry: the entry keeps every other key it had,
    the other indices are untouched, and the same holds for impression lists
    (a list name keeps the impressions, an impression field keeps the name and
    the other impressions, and is merged into the impression it addresses).
    Hence every product, promotion and impression field and every list name
    found in a URL is in the decoded record at its index, whatever was found
    before or after it; [&pr1id=SKU1&pr1nm=Widget] gives one product at
    index 1 with both fields. *)
Theorem ua_fields_merge_into_existing_entry :
  (forall (table : field_table) (entries : jsobj Product) (p : list string)
          (entry : Product),
      table = Ua.UA_PRODUCT_FIELDS \/ table = Ua.UA_PROMOTION_FIELDS ->
      all_chars is_digit (group 1 p) = true ->
      obj_get entries (group 1 p) = Some entry ->
      let key := property_key (table_get table (group 2 p)) in
      (exists entry',
          obj_get (Ua.fieldStep table entries p) (group 1 p) = Some entry'
          /\ obj_get entry' key = Some (group 3 p)
          /\ forall k, k <> key -> obj_get entry' k = obj_get entry k)
      /\ forall j, j <> group 1 p ->
           obj_get (Ua.fieldStep table entries p) j = obj_get entries j)
  /\ (forall (lists : jsobj ImpressionList.t) (m : list string) (l : ImpressionList.t),
      all_chars is_digit (group 1 m) = true ->
      obj_get lists (group 1 m) = Some l ->
      obj_get (Ua.listNameStep lists m) (group 1 m)
      = Some (ImpressionList.mk (Some (group 2 m)) (ImpressionList.impressions l))
      /\ forall j, j <> group 1 m ->
           obj_get (Ua.listNameStep lists m) j = obj_get lists j)
  /\ (forall (lists : jsobj ImpressionList.t) (imp : list string) (l : ImpressionList.t),
      all_chars is_digit (group 1 imp) = true ->
      all_chars is_digit (group 2 imp) = true ->
      obj_get lists (group 1 imp) = Some l ->
      let key := property_key (table_get Ua.UA_IMPRESSION_FIELDS (group 3 imp)) in
      (exists l' impression',
          obj_get (Ua.impressionStep lists imp) (group 1 imp) = Some l'
          /\ ImpressionList.name l' = ImpressionList.name l
          /\ obj_get (ImpressionList.impressions l') (group 2 imp) = Some impression'
          /\ obj_get impression' key = Some (group 4 imp)
          /\ (forall impression k,
                 obj_get (ImpressionList.impressions l) (group 2 imp) = Some impression ->
                 k <> key -> obj_get impression' k = obj_get impression k)
          /\ forall j, j <> group 2 imp ->
               obj_get (ImpressionList.impressions l') j
               = obj_get (ImpressionList.impressions l) j)
      /\ forall j, j <> group 1 imp ->
           obj_get (Ua.impressionStep lists imp) j = obj_get lists j)
  /\ (forall (url : string) (p : list string),
      In p (matchAll Ua.UA_PRODUCT_REGEX url) ->
      entry_has (products (Ua.parse url)) (group 1 p)
                (property_key (table_get Ua.UA_PRODUCT_FIELDS (group 2 p))))
  /\ (forall (url : string) (p : list string),
      In p (matchAll Ua.UA_PROMO_REGEX url) ->
      exists entries,
        promos (Ua.parse url) = Some entries
        /\ entry_has entries (group 1 p)
                     (property_key (table_get Ua.UA_PROMOTION_FIELDS (group 2 p))))
  /\ (forall (url : string) (m : list string),
      In m (matchAll Ua.UA_LIST_NAME_REGEX url) ->
      exists lists,
        impressions (Ua.parse url) = Some lists /\ list_named lists (group 1 m))
  /\ (forall (url : string) (imp : list string),
      In imp (matchAll Ua.UA_IMPRESSION_REGEX url) ->
      exists lists,
        impressions (Ua.parse url) = Some lists
        /\ impression_has lists (group 1 imp) (group 2 imp)
             (property_key (table_get Ua.UA_IMPRESSION_FIELDS (group 3 imp))))
  /\ products (Ua.parse "https://www.google-analytics.com/collect?v=1&t=event&pr1id=SKU1&pr1nm=Widget")
     = [("1", [("item_id", "SKU1"); ("item_name", "Widget")])].
Proof.
  split; [|split; [|split; [|split; [|split; [|split; [|split]]]]]].
  - intros table entries p entry Htable Hidx Hentry key.
    assert (Hord : forallb (fun e => negb (snd e =? "__proto__")) table = true)
      by (apply ua_names_ordinary; tauto).
    unfold Ua.fieldStep. rewrite Hentry. cbn [Ua.or_empty]. split.
    + eexists. split; [apply obj_get_set_same, digits_not_proto, Hidx|].
      apply (assign_field table entry (group 2 p) (group 3 p) Hord).
    + intros j Hj. apply obj_get_set_other. exact Hj.
  - intros lists m l Hidx Hl. unfold Ua.listNameStep.
    rewrite Hl. cbn [Ua.or_empty_list]. split.
    + apply obj_get_set_same, digits_not_proto, Hidx.
    + intros j Hj. apply obj_get_set_other. exact Hj.
  - intros lists imp l Hidx Himp Hl key.
    assert (Hord : forallb (fun e => negb (snd e =? "__proto__"))
                           Ua.UA_IMPRESSION_FIELDS = true) by reflexivity.
    unfold Ua.impressionStep. rewrite Hl. cbn [Ua.or_empty_list]. split.
    + eexists. eexists.
      split; [apply obj_get_set_same, digits_not_proto, Hidx|].
      cbn [ImpressionList.name ImpressionList.impressions].
      split; [reflexivity|].
      split; [apply obj_get_set_same, digits_not_proto, Himp|].
      split; [apply (assign_field _ _ (group 3 imp) (group 4 imp) Hord)|].
      split.
      * intros impression k Himpression Hk. rewrite Himpression.
        cbn [Ua.or_empty]. apply obj_get_set_other. exact Hk.
      * intros j Hj. apply obj_get_set_other. exact Hj.
    + intros j Hj. apply obj_get_set_other. exact Hj.
  - exact ua_products_survive.
  - exact ua_promos_survive.
  - exact ua_list_names_survive.
  - exact ua_impressions_survive.
  - vm_compute. reflexivity.
Qed.

Lemma ua_fields_merge_into_existing_entry_witness :
  all_chars is_digit (group 1 ["1"; "nm"; "Widget"]) = true
  /\ obj_get [("1", [("item_id", "SKU1")])] (group 1 ["1"; "nm"; "Widget"])
     = Some [("item_id", "SKU1")]
  /\ exists entry',
       obj_get (Ua.fieldStep Ua.UA_PRODUCT_FIELDS [("1", [("item_id", "SKU1")])]
                             ["1"; "nm"; "Widget"]) "1" = Some entry'
       /\ obj_get entry' "item_name" = Some "Widget"
       /\ obj_get entry' "item_id" = Some "SKU1".
Proof.
  split; [reflexivity|]. split; [reflexivity|].
  destruct (proj1 (proj1 ua_fields_merge_into_existing_entry
                         Ua.UA_PRODUCT_FIELDS [("1", [("item_id", "SKU1")])]
                         ["1"; "nm"; "Widget"] [("item_id", "SKU1")]
                         (or_introl eq_refl) eq_refl eq_refl))
    as [entry' [H1 [H2 H3]]].
  exists entry'. split; [exact H1|]. split; [exact H2|].
  rewrite (H3 "item_id"); [reflexivity|discriminate].
Defined.

(** The worked example of the specification. *)
Example ua_parse_example :
  Ua.parse "https://www.google-analytics.com/collect?v=1&pr1id=SKU1&pr1nm=Widget&il2nm=Homepage&il2pi0id=SKU2&promo3id=P9&pa=purchase&tr=19.99"
  = {| products := [("1", [("item_id", "SKU1"); ("item_name", "Widget")])];
       impressions :=
         Some [("2", ImpressionList.mk (Some "Homepage")
                       [("0", [("item_id", "SKU2")])])];
       promos := Some [("3", [("item_id", "P9")])];
       params := Some [("product_action", "purchase"); ("value", "19.99")];
       event := None |}.
Proof. vm_compute. reflexivity. Qed.

(** ** The recommendation text *)

Lemma concat_cons (x : string) (xs : list string) :
  String.concat "" (x :: xs) = (x ++ String.concat "" xs)%string.
Proof. destruct xs; simpl; [rewrite append_empty_r|]; reflexivity. Qed.

Section EnumerationFacts.
Context {V : Type}.
Implicit Types (o : jsobj V).

Lemma obj_get_key o key : In key (map fst o) -> exists v, obj_get o key = Some v.
Proof.
  induction o as [|[k x] rest IH]; simpl; [tauto|].
  intros [-> | Hin].
  - rewrite String.eqb_refl. eexists; reflexivity.
  - destruct (k =? key); [eexists; reflexivity|exact (IH Hin)].
Qed.

Lemma insert_index_keys i key (l : list (N * string)) k :
  In k (map snd (insert_index i key l)) -> k = key \/ In k (map snd l).
Proof.
  induction l as [|[j kj] rest IH]; simpl.
  - intros [<- | []]. left; reflexivity.
  - destruct (i <=? j)%N; simpl.
    + intros [<- | H]; [left; reflexivity|right; exact H].
    + intros [<- | H]; [right; left; reflexivity|].
      destruct (IH H) as [-> | H']; [left; reflexivity|right; right; exact H'].
Qed.

Lemma index_keys_own o k : In k (map snd (index_keys o)) -> In k (map fst o).
Proof.
  induction o as [|[key x] rest IH]; simpl; [tauto|].
  destruct (array_index key).
  - intros H. destruct (insert_index_keys _ _ _ _ H) as [-> | H'];
      [left; reflexivity|right; exact (IH H')].
  - intros H. right. exact (IH H).
Qed.

Lemma named_keys_own o k : In k (named_keys o) -> In k (map fst o).
Proof.
  induction o as [|[key x] rest IH]; simpl; [tauto|].
  destruct (array_index key); simpl.
  - intros H. right. exact (IH H).
  - intros [<- | H]; [left; reflexivity|right; exact (IH H)].
Qed.

(** Every key a [for ... in] loop visits is an own property. *)
Lemma for_in_keys_own o k : In k (for_in_keys o) -> exists v, obj_get o k = Some v.
Proof.
  unfold for_in_keys. intros H. apply in_app_or in H. apply obj_get_key.
  destruct H as [H | H]; [exact (index_keys_own _ _ H)|exact (named_keys_own _ _ H)].
Qed.

Lemma hasOwnProperty_own o k :
  answers_hasOwnProperty o = true ->
  (exists v, obj_get o k = Some v) ->
  hasOwnProperty o k = Returns true.
Proof.
  unfold answers_hasOwnProperty, hasOwnProperty.
  destruct (obj_get o "hasOwnProperty"); [discriminate|].
  intros _ [v ->]. reflexivity.
Qed.
End EnumerationFacts.

Lemma paramsLoop_lines (ps : jsobj string) (keys : list string) :
  answers_hasOwnProperty ps = true ->
  (forall k, In k keys -> exists v, obj_get ps k = Some v) ->
  forall acc,
    paramsLoop ps keys acc
    = Returns (acc ++ String.concat "" (map (paramLine ps) keys))%string.
Proof.
  intros Hsafe. induction keys as [|k keys IH]; intros Hown acc.
  - simpl. rewrite append_empty_r. reflexivity.
  - cbn [paramsLoop]. rewrite (hasOwnProperty_own ps k Hsafe) by (apply Hown; left; reflexivity).
    cbn [bind]. rewrite IH by (intros k' Hk'; apply Hown; right; exact Hk').
    cbn [map]. rewrite concat_cons. unfold paramLine at 2.
    rewrite !append_assoc. reflexivity.
Qed.

Lemma fieldsLoop_lines (product : Product) (keys : list string) :
  answers_hasOwnProperty product = true ->
  (forall k, In k keys -> exists v, obj_get product k = Some v) ->
  forall acc,
    fieldsLoop product keys acc
    = Returns (acc ++ String.concat "" (map (fieldLine product) keys))%string.
Proof.
  intros Hsafe. induction keys as [|k keys IH]; intros Hown acc.
  - simpl. rewrite append_empty_r. reflexivity.
  - cbn [fieldsLoop]. rewrite (hasOwnProperty_own product k Hsafe) by (apply Hown; left; reflexivity).
    cbn [bind]. rewrite IH by (intros k' Hk'; apply Hown; right; exact Hk').
    cbn [map]. rewrite concat_cons. unfold fieldLine at 2.
    rewrite !append_assoc. reflexivity.
Qed.

Lemma itemStep_literal (product : option Product) (acc : string) :
  (forall fields, product = Some fields -> answers_hasOwnProperty fields = true) ->
  itemStep product acc = Returns (acc ++ objectLiteral product)%string.
Proof.
  intros Hsafe. unfold itemStep, objectLiteral. destruct product as [fields|].
  - rewrite fieldsLoop_lines; [|apply Hsafe; reflexivity|apply for_in_keys_own].
    cbn [bind]. rewrite !append_assoc. reflexivity.
  - cbn [bind]. rewrite !append_assoc. reflexivity.
Qed.

Lemma productsLoop_literals (ps : jsobj Product) (remaining : nat) :
  forall i acc,
    (forall j fields, In j (seq i remaining) -> arr_get ps j = Some fields ->
                      answers_hasOwnProperty fields = true) ->
    productsLoop ps remaining i acc
    = Returns (acc ++ String.concat ""
                        (map (fun j => objectLiteral (arr_get ps j)) (seq i remaining)))%string.
Proof.
  induction remaining as [|n IH]; intros i acc Hsafe.
  - simpl. rewrite append_empty_r. reflexivity.
  - cbn [productsLoop]. rewrite itemStep_literal.
    + cbn [bind]. rewrite IH.
      * cbn [seq map]. rewrite concat_cons, append_assoc. reflexivity.
      * intros j fields Hj. apply Hsafe. right. exact Hj.
    + intros fields Hf. apply (Hsafe i fields); [left; reflexivity|exact Hf].
Qed.




(** ** More on schema identification *)

Lemma get_of_readable (o : jsval) (key : string) :
  readable o = true -> exists v, get o key = Returns v.
Proof.
  destruct o; simpl; try discriminate; intros _.
  - eexists; reflexivity.
  - eexists; reflexivity.
  - destruct (key =? "length"); [eexists; reflexivity|].
    destruct (array_index key); [|eexists; reflexivity].
    destruct (String.get (N.to_nat n) s); eexists; reflexivity.
  - destruct (key =? "length"); [eexists; reflexivity|].
    destruct (key =? "push"); [eexists; reflexivity|].
    destruct (array_index key); eexists; reflexivity.
  - destruct (own_property props key); eexists; reflexivity.
  - destruct (key =? "length"); [eexists; reflexivity|].
    destruct (key =? "name"); eexists; reflexivity.
Qed.

Lemma or_get_value (v w o : jsval) (key : string) :
  get o key = Returns w ->
  or_get (Returns v) o key = Returns (if truthy v then v else w).
Proof. intros H. rewrite or_get_Returns, H. destruct (truthy v); reflexivity. Qed.

Lemma truthy_or (v w : jsval) :
  truthy (if truthy v then v else w) = truthy v || truthy w.
Proof. destruct (truthy v) eqn:E; [rewrite E|]; reflexivity. Qed.

(** On a readable entry, one iteration is the plain fold. *)
Lemma classifyItem_readable (entry : jsval) (currentSchema : schema_var) :
  readable entry = true ->
  classifyItem entry currentSchema
  = Returns (fold_schema currentSchema (entry_schema entry)).
Proof.
  intros H. unfold classifyItem, entry_schema, has_unified, has_legacy.
  destruct (get_of_readable entry "item_id" H) as [v1 H1].
  destruct (get_of_readable entry "item_name" H) as [v2 H2].
  destruct (get_of_readable entry "promotion_id" H) as [v3 H3].
  destruct (get_of_readable entry "promotion_name" H) as [v4 H4].
  destruct (get_of_readable entry "creative_name" H) as [v5 H5].
  destruct (get_of_readable entry "id" H) as [v6 H6].
  destruct (get_of_readable entry "name" H) as [v7 H7].
  rewrite (holds_of_get _ _ _ H1), (holds_of_get _ _ _ H2), (holds_of_get _ _ _ H3),
    (holds_of_get _ _ _ H4), (holds_of_get _ _ _ H5), (holds_of_get _ _ _ H6),
    (holds_of_get _ _ _ H7).
  rewrite H1, (or_get_value _ _ _ _ H2), (or_get_value _ _ _ _ H3),
    (or_get_value _ _ _ _ H4), (or_get_value _ _ _ _ H5).
  rewrite H6, (or_get_value _ _ _ _ H7).
  cbn [bind]. rewrite !truthy_or.
  destruct (truthy v6 || truthy v7);
    destruct (truthy v1 || truthy v2 || truthy v3 || truthy v4 || truthy v5);
    destruct currentSchema as [k|]; try reflexivity;
    unfold fold_schema;
    match goal with |- context [strict_eq ?a ?b] => destruct (strict_eq a b) end;
    reflexivity.
Qed.

Lemma classifyFrom_readable (entries : list jsval) :
  Forall (fun e => readable e = true) entries ->
  forall currentSchema,
    classifyFrom entries currentSchema
    = Returns (fold_left fold_schema (map entry_schema entries) currentSchema).
Proof.
  induction 1 as [|e entries He _ IH]; intros cur; [reflexivity|].
  cbn [classifyFrom map fold_left]. rewrite (classifyItem_readable e cur He).
  cbn [bind]. apply IH.
Qed.

(** The counting loop over an array visits its entries in order. *)
Lemma itemsLoop_array (rest : list jsval) :
  forall (pre : list jsval) (currentSchema : schema_var),
    itemsLoop (VArr (pre ++ rest)) (List.length rest) (List.length pre) currentSchema
    = classifyFrom rest currentSchema.
Proof.
  induction rest as [|e rest IH]; intros pre cur; [reflexivity|].
  cbn [List.length itemsLoop classifyFrom get_index].
  rewrite nth_middle. cbn [bind].
  destruct (classifyItem e cur) as [cur'|err]; [|reflexivity].
  cbn [bind].
  replace (pre ++ e :: rest) with ((pre ++ [e]) ++ rest) by (rewrite <- app_assoc; reflexivity).
  replace (S (List.length pre)) with (List.length (pre ++ [e]))
    by (rewrite length_app; simpl; lia).
  apply IH.
Qed.

(** With a non-empty array for [items], the direct-call arm is the loop over
    its entries. *)
Lemma identifyGtag_array (props : list (string * jsval)) (entries : list jsval) :
  own_property props "items" = Some (VArr entries) ->
  entries <> [] ->
  identifySchema Api_GTAG (VObj props) = classifyFrom entries None.
Proof.
  intros Hitems Hne.
  unfold identifySchema, identifyGtag. simpl (Api_GTAG =? Api_GTAG). cbv iota.
  cbn [get]. rewrite Hitems. rewrite !or_get_Returns. cbn [truthy bind negb].
  cbn [get]. cbn [String.eqb Ascii.eqb Bool.eqb]. cbn [bind].
  assert (Hlen : (Z.of_nat (List.length entries) =? 0)%Z = false).
  { destruct entries; [congruence|]. apply Z.eqb_neq. simpl List.length. lia. }
  cbn [truthy]. rewrite Hlen. cbn [negb toNumber bind].
  rewrite iterations_integer, Nat2Z.id. exact (itemsLoop_array entries [] None).
Qed.

Lemma strict_eq_refl (s : schema_var) : strict_eq s s = true.
Proof. destruct s as [[]|]; reflexivity. Qed.

Lemma strict_eq_true (a b : schema_var) : strict_eq a b = true -> a = b.
Proof. destruct a as [[]|], b as [[]|]; simpl; intros H; try discriminate; reflexivity. Qed.

Lemma entry_schema_cases (entry : jsval) :
  entry_schema entry = None \/ entry_schema entry = Some UNIFIED
  \/ entry_schema entry = Some GTAG_UA.
Proof.
  unfold entry_schema. destruct (has_legacy entry); [tauto|].
  destruct (has_unified entry); tauto.
Qed.

(** Entries that all give the schema [k] fold to [k]. *)
Lemma fold_schema_same (k : KnownSchema) (entries : list jsval) :
  Forall (fun e => entry_schema e = Some k) entries ->
  forall currentSchema,
    currentSchema = None \/ currentSchema = Some k ->
    entries <> [] ->
    fold_left fold_schema (map entry_schema entries) currentSchema = Some k.
Proof.
  induction 1 as [|e entries He _ IH]; intros cur Hcur Hne; [congruence|].
  cbn [map fold_left]. rewrite He.
  assert (Hstep : fold_schema cur (Some k) = Some k).
  { destruct Hcur as [-> | ->]; [reflexivity|].
    unfold fold_schema. rewrite strict_eq_refl. reflexivity. }
  rewrite Hstep. destruct entries as [|e' entries]; [reflexivity|].
  apply IH; [right; reflexivity|discriminate].
Qed.

(** X1.  On the direct-call kind, a non-empty [items] array whose entries
    all carry a key of the unified schema and neither [id] nor [name] is
    classified [ga4-gtag]. *)
Theorem gtag_unified_items (props : list (string * jsval)) (entries : list jsval) :
  own_property props "items" = Some (VArr entries) ->
  entries <> [] ->
  Forall (fun e => readable e = true /\ has_unified e = true /\ has_legacy e = false)
         entries ->
  identifySchema Api_GTAG (VObj props) = Returns (Some UNIFIED).
Proof.
  intros Hitems Hne Hall.
  rewrite (identifyGtag_array props entries Hitems Hne).
  rewrite classifyFrom_readable
    by (eapply Forall_impl; [|exact Hall]; cbv beta; tauto).
  f_equal. apply fold_schema_same; [|left; reflexivity|exact Hne].
  eapply Forall_impl; [|exact Hall]. cbv beta. intros e [_ [Hu Hl]].
  unfold entry_schema. rewrite Hl, Hu. reflexivity.
Qed.

Lemma gtag_unified_items_witness :
  own_property [("items", VArr [VObj [("item_id", VStr "a")]; VObj [("item_name", VStr "b")]])]
               "items"
  = Some (VArr [VObj [("item_id", VStr "a")]; VObj [("item_name", VStr "b")]])
  /\ identifySchema Api_GTAG
       (VObj [("items", VArr [VObj [("item_id", VStr "a")]; VObj [("item_name", VStr "b")]])])
     = Returns (Some UNIFIED).
Proof.
  split; [reflexivity|].
  apply (gtag_unified_items
           [("items", VArr [VObj [("item_id", VStr "a")]; VObj [("item_name", VStr "b")]])]
           [VObj [("item_id", VStr "a")]; VObj [("item_name", VStr "b")]] eq_refl).
  - discriminate.
  - repeat constructor.
Defined.

(** X2.  An entry with a truthy [id] or [name] counts as legacy whatever else
    it carries: a non-empty [items] array whose entries all have [id] or
    [name] is classified [ua-gtag], also when they have [item_id] as well. *)
Theorem gtag_legacy_items (props : list (string * jsval)) (entries : list jsval) :
  own_property props "items" = Some (VArr entries) ->
  entries <> [] ->
  Forall (fun e => readable e = true /\ has_legacy e = true) entries ->
  identifySchema Api_GTAG (VObj props) = Returns (Some GTAG_UA).
Proof.
  intros Hitems Hne Hall.
  rewrite (identifyGtag_array props entries Hitems Hne).
  rewrite classifyFrom_readable
    by (eapply Forall_impl; [|exact Hall]; cbv beta; tauto).
  f_equal. apply fold_schema_same; [|left; reflexivity|exact Hne].
  eapply Forall_impl; [|exact Hall]. cbv beta. intros e [_ Hl].
  unfold entry_schema. rewrite Hl. reflexivity.
Qed.

Lemma gtag_legacy_items_witness :
  own_property [("items", VArr [VObj [("item_id", VStr "a"); ("id", VStr "a")]])] "items"
  = Some (VArr [VObj [("item_id", VStr "a"); ("id", VStr "a")]])
  /\ identifySchema Api_GTAG
       (VObj [("items", VArr [VObj [("item_id", VStr "a"); ("id", VStr "a")]])])
     = Returns (Some GTAG_UA).
Proof.
  split; [reflexivity|].
  apply (gtag_legacy_items
           [("items", VArr [VObj [("item_id", VStr "a"); ("id", VStr "a")]])]
           [VObj [("item_id", VStr "a"); ("id", VStr "a")]] eq_refl).
  - discriminate.
  - repeat constructor.
Defined.

(** Once the running schema is [gtag-unknown] it stays so. *)
Lemma fold_schema_absorbs (entries : list jsval) :
  fold_left fold_schema (map entry_schema entries) (Some UNKNOWN_GTAG)
  = Some UNKNOWN_GTAG.
Proof.
  induction entries as [|e entries IH]; [reflexivity|].
  cbn [map fold_left].
  destruct (entry_schema_cases e) as [-> | [-> | ->]]; exact IH.
Qed.

Lemma fold_schema_keeps (k : KnownSchema) (entries : list jsval) :
  forall currentSchema,
    currentSchema = Some k \/ currentSchema = Some UNKNOWN_GTAG ->
    fold_left fold_schema (map entry_schema entries) currentSchema = Some k
    \/ fold_left fold_schema (map entry_schema entries) currentSchema = Some UNKNOWN_GTAG.
Proof.
  induction entries as [|e entries IH]; intros cur Hcur; [exact Hcur|].
  cbn [map fold_left]. apply IH.
  destruct Hcur as [-> | ->].
  - unfold fold_schema. destruct (strict_eq (Some k) (entry_schema e)) eqn:E.
    + left. symmetry. exact (strict_eq_true _ _ E).
    + right. reflexivity.
  - right. destruct (entry_schema_cases e) as [-> | [-> | ->]]; reflexivity.
Qed.

(** An entry that is [undefined] or [null] stops the loop with a
    [TypeError], wherever it stands. *)
Lemma classifyFrom_unreadable (entries : list jsval) :
  Exists (fun e => readable e = false) entries ->
  forall currentSchema, classifyFrom entries currentSchema = Throws TypeError.
Proof.
  induction 1 as [e entries He|e entries _ IH]; intros cur; cbn [classifyFrom].
  - destruct e; try discriminate He; reflexivity.
  - destruct (classifyItem e cur) as [cur'|[]]; cbn [bind]; [apply IH|reflexivity].
Qed.

(** X3.  Mixed items.  When every entry can be read (none is [undefined] or
    [null]), the first entry is classified and a later entry is classified
    differently, or not at all, the result is [gtag-unknown], whatever the
    other entries are classified as.  When some entry is [undefined] or
    [null], the function throws a [TypeError] instead. *)
Theorem gtag_mixed_items (props : list (string * jsval))
        (first other : jsval) (mid post : list jsval) :
  own_property props "items" = Some (VArr (first :: mid ++ other :: post)) ->
  entry_schema first <> None ->
  entry_schema other <> entry_schema first ->
  (Forall (fun e => readable e = true) (first :: mid ++ other :: post) ->
   identifySchema Api_GTAG (VObj props) = Returns (Some UNKNOWN_GTAG))
  /\ (Exists (fun e => readable e = false) (first :: mid ++ other :: post) ->
      identifySchema Api_GTAG (VObj props) = Throws TypeError).
Proof.
  intros Hitems Hfirst Hother.
  rewrite (identifyGtag_array props _ Hitems) by discriminate.
  split; [|intros Hex; apply classifyFrom_unreadable; exact Hex].
  intros Hall.
  rewrite (classifyFrom_readable _ Hall). f_equal.
  cbn [map fold_left fold_schema].
  destruct (entry_schema first) as [k|] eqn:Ek; [|congruence].
  rewrite map_app, fold_left_app. cbn [map fold_left].
  destruct (fold_schema_keeps k mid (Some k) (or_introl eq_refl)) as [-> | ->].
  - unfold fold_schema at 2. destruct (strict_eq (Some k) (entry_schema other)) eqn:E.
    + apply strict_eq_true in E. congruence.
    + apply fold_schema_absorbs.
  - replace (fold_schema (Some UNKNOWN_GTAG) (entry_schema other)) with (Some UNKNOWN_GTAG)
      by (destruct (entry_schema_cases other) as [-> | [-> | ->]]; reflexivity).
    apply fold_schema_absorbs.
Qed.

Lemma gtag_mixed_items_witness :
  entry_schema (VObj [("item_id", VStr "a")]) <> None
  /\ entry_schema (VObj []) <> entry_schema (VObj [("item_id", VStr "a")])
  /\ identifySchema Api_GTAG
       (VObj [("items", VArr [VObj [("item_id", VStr "a")]; VObj []])])
     = Returns (Some UNKNOWN_GTAG)
  /\ identifySchema Api_GTAG
       (VObj [("items", VArr [VObj [("item_id", VStr "a")]; VObj []; VNull])])
     = Throws TypeError.
Proof.
  assert (H1 : entry_schema (VObj [("item_id", VStr "a")]) <> None) by discriminate.
  assert (H2 : entry_schema (VObj []) <> entry_schema (VObj [("item_id", VStr "a")]))
    by discriminate.
  split; [exact H1|]. split; [exact H2|]. split.
  - apply (proj1 (gtag_mixed_items
                    [("items", VArr [VObj [("item_id", VStr "a")]; VObj []])]
                    (VObj [("item_id", VStr "a")]) (VObj []) [] [] eq_refl H1 H2)).
    repeat constructor.
  - apply (proj2 (gtag_mixed_items
                    [("items", VArr [VObj [("item_id", VStr "a")]; VObj []; VNull])]
                    (VObj [("item_id", VStr "a")]) (VObj []) [] [VNull] eq_refl H1 H2)).
    apply Exists_cons_tl, Exists_cons_tl, Exists_cons_hd. reflexivity.
Defined.

Lemma classifyFrom_unmarked_prefix (pre rest : list jsval) :
  Forall (fun e => unmarked e = true) pre ->
  classifyFrom (pre ++ rest) None = classifyFrom rest None.
Proof.
  induction 1 as [|e pre He _ IH]; [reflexivity|].
  cbn [app classifyFrom]. rewrite (classifyItem_unmarked e He). cbn [bind]. exact IH.
Qed.

(** X4.  Entries without any marker key in front of the array do not
    count, as long as an entry is left behind them: the array classifies as
    the remaining entries alone do.  (When all entries are without a marker
    key nothing is left and the result is [undefined], not the
    [gtag-unknown] of the empty array.  Behind a classified entry such an
    entry makes the result [gtag-unknown], by the previous theorem: the
    order of the entries matters.) *)
Theorem gtag_leading_unmarked_ignored (props props' : list (string * jsval))
        (pre rest : list jsval) :
  own_property props "items" = Some (VArr (pre ++ rest)) ->
  own_property props' "items" = Some (VArr rest) ->
  Forall (fun e => unmarked e = true) pre ->
  rest <> [] ->
  identifySchema Api_GTAG (VObj props) = identifySchema Api_GTAG (VObj props').
Proof.
  intros Hitems Hitems' Hpre Hne.
  rewrite (identifyGtag_array props _ Hitems)
    by (destruct pre; [exact Hne|discriminate]).
  rewrite (identifyGtag_array props' _ Hitems' Hne).
  apply classifyFrom_unmarked_prefix. exact Hpre.
Qed.

Lemma gtag_leading_unmarked_ignored_witness :
  own_property [("items", VArr ([VObj []] ++ [VObj [("item_id", VStr "a")]]))] "items"
  = Some (VArr ([VObj []] ++ [VObj [("item_id", VStr "a")]]))
  /\ identifySchema Api_GTAG (VObj [("items", VArr [VObj []; VObj [("item_id", VStr "a")]])])
     = Returns (Some UNIFIED).
Proof.
  split; [reflexivity|].
  apply (eq_trans
           (gtag_leading_unmarked_ignored
              [("items", VArr ([VObj []] ++ [VObj [("item_id", VStr "a")]]))]
              [("items", VArr [VObj [("item_id", VStr "a")]])]
              [VObj []] [VObj [("item_id", VStr "a")]] eq_refl eq_refl
              ltac:(repeat constructor) ltac:(discriminate))).
  reflexivity.
Defined.

Ltac settle_outcome He :=
  rewrite action_decides by assumption;
  match goal with
  | |- context [holds ?a "actionField"] =>
      destruct (holds a "actionField"), (holds a "products"),
               (holds a "promotions"), (holds a "items"); cbn [orb]
  end;
  try reflexivity;
  rewrite impressions_fallback by exact He;
  match goal with
  | |- context [holds ?e "impressions"] => destruct (holds e "impressions")
  end; reflexivity.

Lemma dataLayer_outcome_readable (paramsObject : jsval) :
  readable paramsObject = true ->
  dataLayer_outcome (identifySchema Api_DATA_LAYER paramsObject) = true.
Proof.
  intros Hp.
  destruct (get_of_readable paramsObject "ecommerce" Hp) as [ecommerce Hget].
  unfold identifySchema. simpl (Api_DATA_LAYER =? Api_GTAG).
  simpl (Api_DATA_LAYER =? Api_DATA_LAYER). cbv iota.
  unfold identifyDataLayer. rewrite Hget. cbn [bind].
  destruct (truthy ecommerce) eqn:He; cbn [negb]; [|reflexivity].
  probe ecommerce "items" He; [reflexivity|].
  probe ecommerce "transaction_id" He; [reflexivity|].
  probe ecommerce "value" He; [reflexivity|].
  probe ecommerce "detail" He; [settle_outcome He|].
  probe ecommerce "click" He; [settle_outcome He|].
  probe ecommerce "add" He; [settle_outcome He|].
  probe ecommerce "remove" He; [settle_outcome He|].
  probe ecommerce "purchase" He; [settle_outcome He|].
  probe ecommerce "refund" He; [settle_outcome He|].
  probe ecommerce "checkout" He; [settle_outcome He|].
  probe ecommerce "checkoutStep" He; [settle_outcome He|].
  probe ecommerce "promoView" He; [settle_outcome He|].
  probe ecommerce "promoClick" He; [settle_outcome He|].
  rewrite impressions_fallback by exact He.
  destruct (holds ecommerce "impressions"); reflexivity.
Qed.

(** X5.  The structured-push arm is total: for every parameter object other
    than [undefined] and [null] it returns a label, and the label is
    [unknown], [ua-gtm] or [ga4-gtm]; nothing is thrown and [undefined] is
    never returned. *)
Theorem dataLayer_total (paramsObject : jsval) :
  readable paramsObject = true ->
  exists label,
    In label [UNKNOWN; GTM_UA; GTM_LEGACY_GA4]
    /\ identifySchema Api_DATA_LAYER paramsObject = Returns (Some label).
Proof.
  intros Hp. pose proof (dataLayer_outcome_readable paramsObject Hp) as H.
  destruct (identifySchema Api_DATA_LAYER paramsObject) as [[[]|]|];
    try discriminate H; eexists; (split; [|reflexivity]); simpl; tauto.
Qed.

Lemma dataLayer_total_witness :
  readable (VObj [("event", VStr "purchase")]) = true
  /\ exists label,
       In label [UNKNOWN; GTM_UA; GTM_LEGACY_GA4]
       /\ identifySchema Api_DATA_LAYER (VObj [("event", VStr "purchase")])
          = Returns (Some label).
Proof.
  split; [reflexivity|].
  apply (dataLayer_total (VObj [("event", VStr "purchase")])). reflexivity.
Defined.

Lemma classifyItem_result (entry : jsval) (currentSchema result : schema_var) :
  gtag_result currentSchema = true ->
  classifyItem entry currentSchema = Returns result ->
  gtag_result result = true.
Proof.
  intros Hcur. unfold classifyItem.
  destruct (or_get _ entry "creative_name") as [u|]; [|discriminate].
  cbn [bind]. destruct (or_get _ entry "name") as [l|]; [|discriminate].
  cbn [bind]. destruct (truthy l), (truthy u), currentSchema as [k|];
    try (intros H; injection H as <-; reflexivity);
    match goal with
    | |- context [strict_eq ?a ?b] => destruct (strict_eq a b)
    end; intros H; injection H as <-; reflexivity.
Qed.

Lemma itemsLoop_result (items : jsval) (remaining : nat) :
  forall (i : nat) (currentSchema result : schema_var),
    gtag_result currentSchema = true ->
    itemsLoop items remaining i currentSchema = Returns result ->
    gtag_result result = true.
Proof.
  induction remaining as [|n IH]; intros i cur result Hcur H; simpl in H.
  - injection H as <-. exact Hcur.
  - destruct (get_index items i) as [item|]; [|discriminate]. cbn [bind] in H.
    destruct (classifyItem item cur) as [cur'|] eqn:E; [|discriminate].
    cbn [bind] in H.
    exact (IH _ _ _ (classifyItem_result _ _ _ Hcur E) H).
Qed.

(** X6.  Whatever the parameter object, what the direct-call arm returns is
    never one of the two labels of the structured-push kind ([ua-gtm],
    [ga4-gtm]): it is [unknown], [gtag-unknown], [ua-gtag], [ga4-gtag] or
    [undefined]. *)
Theorem gtag_never_gtm_label (paramsObject : jsval) (result : schema_var) :
  identifySchema Api_GTAG paramsObject = Returns result ->
  gtag_result result = true.
Proof.
  unfold identifySchema, identifyGtag. simpl (Api_GTAG =? Api_GTAG). cbv iota.
  destruct (or_get _ paramsObject "currency") as [markers|]; [|discriminate].
  cbn [bind]. destruct (truthy markers); cbn [negb];
    [|intros H; injection H as <-; reflexivity].
  destruct (get paramsObject "items") as [items|]; [|discriminate]. cbn [bind].
  destruct (get items "length") as [len|]; [|discriminate]. cbn [bind].
  destruct (truthy len); cbn [negb]; [|intros H; injection H as <-; reflexivity].
  destruct (get items "push") as [push|]; [|discriminate]. cbn [bind].
  destruct (truthy push); cbn [negb]; [|intros H; injection H as <-; reflexivity].
  destruct (toNumber len) as [bound|]; [|discriminate]. cbn [bind].
  apply itemsLoop_result. reflexivity.
Qed.

Lemma gtag_never_gtm_label_witness :
  identifySchema Api_GTAG (VObj [("items", VArr [VObj [("id", VStr "a")]])])
  = Returns (Some GTAG_UA)
  /\ gtag_result (Some GTAG_UA) = true.
Proof.
  split; [reflexivity|].
  apply (gtag_never_gtm_label (VObj [("items", VArr [VObj [("id", VStr "a")]])])).
  reflexivity.
Defined.

(** ** The loop under an infinite bound *)

Lemma to_uint_nonnil (n : nat) : Nat.to_uint n <> Decimal.Nil.
Proof.
  pose proof (Unsigned.to_of (Nat.to_uint n)) as H. rewrite Unsigned.of_to in H.
  rewrite H. apply DecimalFacts.unorm_nonnil.
Qed.

Lemma decimal_inj (a b : nat) : decimal a = decimal b -> a = b.
Proof.
  unfold decimal. intros H.
  apply Unsigned.to_uint_inj.
  assert (Ha := NilZero.usu (Nat.to_uint a) (to_uint_nonnil a)).
  assert (Hb := NilZero.usu (Nat.to_uint b) (to_uint_nonnil b)).
  rewrite H in Ha. rewrite Ha in Hb. injection Hb as Hb. exact Hb.
Qed.

Lemma NoDup_map_injective {A B : Type} (f : A -> B) (l : list A) :
  (forall a b, f a = f b -> a = b) -> NoDup l -> NoDup (map f l).
Proof.
  intros Hf. induction l as [|x l IH]; intros H; cbn [map]; [constructor|].
  apply NoDup_cons_iff in H. destruct H as [Hx Hl].
  apply NoDup_cons_iff. split; [|exact (IH Hl)].
  intros Hin. apply in_map_iff in Hin. destruct Hin as [y [Hy Hin]].
  apply Hf in Hy. subst y. exact (Hx Hin).
Qed.

Lemma own_property_In (props : list (string * jsval)) (key : string) :
  own_property props key <> None -> In key (map fst props).
Proof.
  induction props as [|[k v] rest IH]; cbn [own_property map fst In]; [congruence|].
  destruct (k =? key) eqn:E; [left; apply String.eqb_eq; exact E|].
  intros H. right. exact (IH H).
Qed.

(** An object has no property for some index up to the number of its
    properties. *)
Lemma missing_index (props : list (string * jsval)) :
  exists j, j <= List.length props /\ own_property props (decimal j) = None.
Proof.
  destruct (Forall_Exists_dec (fun j => own_property props (decimal j) <> None)
              (fun j => match own_property props (decimal j) as o
                              return {o <> None} + {~ o <> None} with
                        | Some x => left (fun H => eq_ind (Some x)
                                                     (fun o => match o with
                                                               | Some _ => True
                                                               | None => False
                                                               end) I None H)
                        | None => right (fun H => H eq_refl)
                        end)
              (seq 0 (S (List.length props)))) as [Hall | Hex].
  - exfalso.
    assert (Hincl : incl (map decimal (seq 0 (S (List.length props)))) (map fst props)).
    { intros key Hkey. apply in_map_iff in Hkey. destruct Hkey as [j [<- Hj]].
      apply own_property_In. exact (proj1 (Forall_forall _ _) Hall j Hj). }
    assert (Hnd : NoDup (map decimal (seq 0 (S (List.length props))))).
    { apply NoDup_map_injective; [apply decimal_inj|apply seq_NoDup]. }
    pose proof (NoDup_incl_length Hnd Hincl) as Hlen.
    rewrite !length_map, length_seq in Hlen. lia.
  - apply Exists_exists in Hex. destruct Hex as [j [Hj Hnone]].
    exists j. apply in_seq in Hj. split; [lia|].
    destruct (own_property props (decimal j)); [exfalso; apply Hnone; discriminate|reflexivity].
Qed.

Lemma classifyItem_undefined (currentSchema : schema_var) :
  classifyItem VUndefined currentSchema = Throws TypeError.
Proof. reflexivity. Qed.

(** Past a missing index the loop does not get: it throws there at the
    latest, whatever the bound. *)
Lemma itemsLoop_missing (props : list (string * jsval)) (j : nat) :
  own_property props (decimal j) = None ->
  forall distance i remaining currentSchema,
    j = i + distance ->
    distance < remaining ->
    itemsLoop (VObj props) remaining i currentSchema = Throws TypeError.
Proof.
  intros Hj. induction distance as [|d IH]; intros i remaining cs Hi Hrem;
    (destruct remaining as [|r]; [lia|]); cbn [itemsLoop get_index get].
  - replace i with j by lia. rewrite Hj. cbn [bind]. rewrite classifyItem_undefined.
    reflexivity.
  - destruct (own_property props (decimal i)) as [x|]; cbn [bind].
    + destruct (classifyItem x cs) as [cs'|[]]; cbn [bind]; [|reflexivity].
      apply IH; lia.
    + rewrite classifyItem_undefined. reflexivity.
Qed.

(** So every bound above the number of properties of an array-like object
    shows what the loop does under an infinite bound: a [TypeError]. *)
Lemma itemsLoop_unbounded (props : list (string * jsval)) (bound : nat)
      (currentSchema : schema_var) :
  List.length props < bound ->
  itemsLoop (VObj props) bound 0 currentSchema = Throws TypeError.
Proof.
  intros H. destruct (missing_index props) as [j [Hle Hj]].
  apply (itemsLoop_missing props j Hj j 0); lia.
Qed.

(** An array-like object whose [length] converts to infinity makes the
    direct-call arm throw. *)
Lemma gtag_infinite_length (props itemProps : list (string * jsval)) (push : jsval) :
  own_property props "items" = Some (VObj itemProps) ->
  own_property itemProps "length" = Some (VStr "Infinity") ->
  own_property itemProps "push" = Some push ->
  truthy push = true ->
  identifySchema Api_GTAG (VObj props) = Throws TypeError.
Proof.
  intros Hitems Hlen Hpush Htruthy.
  unfold identifySchema, identifyGtag. simpl (Api_GTAG =? Api_GTAG). cbv iota.
  cbn [get]. rewrite Hitems. rewrite !or_get_Returns. cbn [truthy bind negb].
  cbn [get]. rewrite Hlen, Hpush. cbn [bind].
  change (truthy (VStr "Infinity")) with true. rewrite Htruthy. cbn [negb].
  change (toNumber (VStr "Infinity")) with (Returns (Infinity false)).
  cbn [bind iterations]. apply itemsLoop_unbounded. lia.
Qed.

(** Lengths of array-like objects that are not numbers: a numeral string
    and a one-element array count as their number, a string with blanks
    around the numeral too, and an object as NaN, under which the loop does
    not run. *)
Lemma array_like_lengths :
  identifySchema Api_GTAG
    (VObj [("items", VObj [("length", VStr "1e0"); ("push", VBool true);
                           ("0", VObj [("id", VStr "a")])])])
  = Returns (Some GTAG_UA)
  /\ identifySchema Api_GTAG
       (VObj [("items", VObj [("length", VArr [VNum 1]); ("push", VBool true);
                              ("0", VObj [("item_id", VStr "a")])])])
     = Returns (Some UNIFIED)
  /\ identifySchema Api_GTAG
       (VObj [("items", VObj [("length", VStr " 2"); ("push", VBool true);
                              ("0", VObj [("id", VStr "a")])])])
     = Throws TypeError
  /\ identifySchema Api_GTAG
       (VObj [("items", VObj [("length", VStr "1.5"); ("push", VBool true);
                              ("0", VObj [("id", VStr "a")]);
                              ("1", VObj [("item_id", VStr "b")])])])
     = Returns (Some UNKNOWN_GTAG)
  /\ identifySchema Api_GTAG
       (VObj [("items", VObj [("length", VObj []); ("push", VBool true);
                              ("0", VObj [("id", VStr "a")])])])
     = Returns None
  /\ identifySchema Api_GTAG
       (VObj [("items", VObj [("length", VObj [("toString", VNum 1)]);
                              ("push", VBool true)])])
     = Throws TypeError.
Proof. repeat split; vm_compute; reflexivity. Qed.

(** ** More on recognising hits *)

(** Where [test] succeeds, a match starts. *)
Lemma test_true_inv (r : regex) (s : string) :
  test r s = true ->
  exists pre suffix, s = (pre ++ suffix)%string /\ exec r suffix <> None.
Proof.
  induction s as [|c s IH]; simpl; intros H.
  - destruct (exec r "") eqn:E; [|discriminate].
    exists "", "". split; [reflexivity|]. rewrite E. discriminate.
  - destruct (exec r (String c s)) eqn:E.
    + exists "", (String c s). split; [reflexivity|]. rewrite E. discriminate.
    + destruct (IH H) as [pre [suffix [-> Hex]]].
      exists (String c pre), suffix. split; [reflexivity|exact Hex].
Qed.

Lemma test_collect_label_inv (label url : string) :
  test (Cat (Text "/collect?") (Cat (Star dot) (Text label))) url = true ->
  exists pre mid post,
    url = (pre ++ "/collect?" ++ mid ++ label ++ post)%string
    /\ all_chars dot mid = true.
Proof.
  intros H. destruct (test_true_inv _ _ H) as [pre [suffix [-> Hex]]].
  unfold exec in Hex. cbn [rmatch] in Hex.
  destruct (strip "/collect?" suffix) as [s1|] eqn:E1; [|contradiction].
  apply strip_Some in E1.
  destruct (star dot s1 _) as [x|] eqn:E2; [|contradiction].
  destruct (star_inv _ _ _ _ E2) as [mid [b [-> [Hmid Hk]]]].
  destruct (strip label b) as [post|] eqn:E3; [|discriminate].
  apply strip_Some in E3. subst b suffix.
  exists pre, mid, post. split; [reflexivity|exact Hmid].
Qed.

(** X7.  What the two UA recognisers accept, exactly: a URL is a UA legacy
    hit (a UA GA4 hit) if and only if it contains [/collect?] followed, with
    no line terminator in between, by [&el=GTM] ([&el=GA4]).  Nothing ties
    the label to the end of a parameter: [&el=GTMX] is accepted as well. *)
Theorem ua_recognisers_exact (url : string) :
  (Ua.isUaLegacyHit url = true <->
   exists pre mid post,
     url = (pre ++ "/collect?" ++ mid ++ "&el=GTM" ++ post)%string
     /\ all_chars dot mid = true)
  /\ (Ua.isUaGa4Hit url = true <->
      exists pre mid post,
        url = (pre ++ "/collect?" ++ mid ++ "&el=GA4" ++ post)%string
        /\ all_chars dot mid = true).
Proof.
  split; split.
  - apply test_collect_label_inv.
  - intros [pre [mid [post [-> Hmid]]]]. apply test_collect_label. exact Hmid.
  - apply test_collect_label_inv.
  - intros [pre [mid [post [-> Hmid]]]]. apply test_collect_label. exact Hmid.
Qed.

Lemma ua_recognisers_exact_witness :
  Ua.isUaLegacyHit "https://www.google-analytics.com/collect?v=1&t=event&el=GTMX" = true.
Proof.
  apply (proj2 (proj1 (ua_recognisers_exact
                         "https://www.google-analytics.com/collect?v=1&t=event&el=GTMX"))).
  exists "https://www.google-analytics.com", "v=1&t=event", "X".
  split; reflexivity.
Defined.

(** X8.  [isGa4Hit] accepts exactly the URLs that contain [/g/collect?],
    wherever it stands in the URL. *)
Theorem ga4_recogniser_exact (url : string) :
  Ga4.isGa4Hit url = true <->
  exists pre post, url = (pre ++ "/g/collect?" ++ post)%string.
Proof.
  unfold Ga4.isGa4Hit, Ga4.GA4_URL_REGEX. split.
  - intros H. destruct (test_true_inv _ _ H) as [pre [suffix [-> Hex]]].
    unfold exec in Hex. cbn [rmatch] in Hex.
    destruct (strip "/g/collect?" suffix) as [post|] eqn:E; [|contradiction].
    apply strip_Some in E. subst suffix. exists pre, post. reflexivity.
  - intros [pre [post ->]]. apply test_append. rewrite test_Text. reflexivity.
Qed.

Lemma ga4_recogniser_exact_witness :
  Ga4.isGa4Hit "https://example.com/?next=/g/collect?x" = true.
Proof.
  apply (proj2 (ga4_recogniser_exact "https://example.com/?next=/g/collect?x")).
  exists "https://example.com/?next=", "x". reflexivity.
Defined.

(** ** More on the two parsers *)

Section Assignments.
Context {V : Type}.
Implicit Types (o : jsobj V) (key : string) (v : V).

Lemma obj_get_set_inv o key key' v x :
  obj_get (obj_set o key v) key' = Some x ->
  (key' = key /\ x = v) \/ obj_get o key' = Some x.
Proof.
  unfold obj_set. destruct (key =? "__proto__"); [tauto|].
  destruct (string_dec key' key) as [-> | Hne].
  - rewrite obj_get_define_same. intros H. injection H as <-. left. tauto.
  - rewrite obj_get_define_other by exact Hne. tauto.
Qed.

Lemma obj_get_set_proto o key v :
  obj_get (obj_set o key v) "__proto__" = obj_get o "__proto__".
Proof.
  unfold obj_set. destruct (key =? "__proto__") eqn:E; [reflexivity|].
  apply obj_get_define_other. intros <-. rewrite String.eqb_refl in E. discriminate.
Qed.

Lemma obj_define_nonempty o key v : obj_define o key v <> [].
Proof. destruct o as [|[k x] rest]; simpl; [|destruct (k =? key)]; discriminate. Qed.

Lemma obj_set_nonempty o key v : key <> "__proto__" -> obj_set o key v <> [].
Proof.
  intros Hne. unfold obj_set. destruct (key =? "__proto__") eqn:E.
  - apply String.eqb_eq in E. contradiction.
  - apply obj_define_nonempty.
Qed.

Lemma obj_get_In o key v : obj_get o key = Some v -> In key (map fst o).
Proof.
  induction o as [|[k x] rest IH]; simpl; [discriminate|].
  destruct (k =? key) eqn:E; [apply String.eqb_eq in E; tauto|].
  intros H. right. exact (IH H).
Qed.

Lemma obj_define_keys o key v :
  map fst (obj_define o key v)
  = if existsb (String.eqb key) (map fst o) then map fst o else map fst o ++ [key].
Proof.
  induction o as [|[k x] rest IH]; simpl; [reflexivity|].
  rewrite (String.eqb_sym key k). destruct (k =? key); simpl; [reflexivity|].
  rewrite IH. destruct (existsb (String.eqb key) (map fst rest)); reflexivity.
Qed.

(** Assignment keeps the keys of an object distinct. *)
Lemma obj_set_unique o key v : unique_keys o -> unique_keys (obj_set o key v).
Proof.
  unfold unique_keys, obj_set. intros H. destruct (key =? "__proto__"); [exact H|].
  rewrite obj_define_keys.
  destruct (existsb (String.eqb key) (map fst o)) eqn:E; [exact H|].
  apply NoDup_app; [exact H|constructor; [simpl; tauto|constructor]|].
  intros k Hk [<- | []].
  assert (Hex : existsb (String.eqb key) (map fst o) = true)
    by (apply existsb_exists; exists key; split; [exact Hk|apply String.eqb_refl]).
  congruence.
Qed.

Context {M : Type} (kf : M -> string) (vf : M -> V).

(** A scan that assigns [vf m] under [kf m] for each match: at the end a key
    holds what the last match with that key assigned. *)
Lemma fold_set_last (ms : list M) :
  forall (init : jsobj V) key,
    key <> "__proto__" ->
    obj_get (fold_left (fun acc m => obj_set acc (kf m) (vf m)) ms init) key
    = match find (fun m => kf m =? key) (rev ms) with
      | Some m => Some (vf m)
      | None => obj_get init key
      end.
Proof.
  induction ms as [|m ms IH] using rev_ind; intros init key Hkey; [reflexivity|].
  rewrite fold_left_app, rev_app_distr. cbn [fold_left rev app find].
  destruct (kf m =? key) eqn:E.
  - apply String.eqb_eq in E. rewrite E. apply obj_get_set_same. exact Hkey.
  - rewrite obj_get_set_other; [apply IH; exact Hkey|].
    intros ->. rewrite String.eqb_refl in E. discriminate.
Qed.

Lemma fold_set_proto (ms : list M) :
  forall init : jsobj V,
    obj_get (fold_left (fun acc m => obj_set acc (kf m) (vf m)) ms init) "__proto__"
    = obj_get init "__proto__".
Proof.
  induction ms as [|m ms IH]; intros init; [reflexivity|].
  cbn [fold_left]. rewrite IH. apply obj_get_set_proto.
Qed.

Lemma fold_set_unique (ms : list M) :
  forall init : jsobj V,
    unique_keys init ->
    unique_keys (fold_left (fun acc m => obj_set acc (kf m) (vf m)) ms init).
Proof.
  induction ms as [|m ms IH]; intros init H; [exact H|].
  cbn [fold_left]. apply IH, obj_set_unique, H.
Qed.
End Assignments.

Lemma find_none {A : Type} (f : A -> bool) (l : list A) :
  (forall x, In x l -> f x = false) -> find f l = None.
Proof.
  induction l as [|a l IH]; intros H; [reflexivity|].
  simpl. rewrite (H a) by (left; reflexivity). apply IH. intros x Hx. apply H. right. exact Hx.
Qed.

(** X9.  In a GA4 hit the last product block of an index decides: the
    product at an index is decoded from the payload of the last [&pr<index>=]
    block, earlier blocks of that index leave nothing behind, and an index
    without a block has no product. *)
Theorem ga4_last_product_block_wins (url index : string) :
  obj_get (products (Ga4.parse url)) index
  = match find (fun p => group 1 p =? index)
               (rev (matchAll Ga4.GA4_PRODUCT_REGEX url)) with
    | Some p => Some (Ga4.parseProduct (group 2 p))
    | None => None
    end.
Proof.
  unfold Ga4.parse. cbn [products].
  destruct (string_dec index "__proto__") as [-> | Hne].
  - rewrite find_none;
      [exact (fold_set_proto (group 1) (fun p => Ga4.parseProduct (group 2 p)) _ [])|].
    intros p Hp. apply in_rev in Hp.
    pose proof (first_index_digits "&pr" _ url p Hp eq_refl) as Hd.
    apply String.eqb_neq. apply digits_not_proto. exact Hd.
  - exact (fold_set_last (group 1) (fun p => Ga4.parseProduct (group 2 p)) _ [] index Hne).
Qed.

(** X10.  Event parameters of a GA4 hit: a name holds the value of its last
    [&ep.name=] or [&epn.name=] occurrence (the event name, by contrast, is
    the first one), a name that does not occur is absent, and a parameter
    called [__proto__] is never stored. *)
Theorem ga4_last_param_wins (url : string) :
  exists ps,
    params (Ga4.parse url) = Some ps
    /\ obj_get ps "__proto__" = None
    /\ forall name,
         name <> "__proto__" ->
         obj_get ps name
         = match find (fun p => group 1 p =? name)
                      (rev (matchAll Ga4.GA4_PARAM_REGEX url)) with
           | Some p => Some (group 2 p)
           | None => None
           end.
Proof.
  unfold Ga4.parse. cbn [params]. eexists. split; [reflexivity|]. split.
  - exact (fold_set_proto (group 1) (group 2) _ []).
  - intros name Hne. exact (fold_set_last (group 1) (group 2) _ [] name Hne).
Qed.

Lemma ga4_last_param_wins_witness :
  exists ps,
    params (Ga4.parse "https://x.test/g/collect?v=2&ep.a=1&epn.a=2&ep.__proto__=3") = Some ps
    /\ obj_get ps "__proto__" = None
    /\ obj_get ps "a" = Some "2".
Proof.
  destruct (ga4_last_param_wins "https://x.test/g/collect?v=2&ep.a=1&epn.a=2&ep.__proto__=3")
    as [ps [H1 [H2 H3]]].
  exists ps. split; [exact H1|]. split; [exact H2|].
  rewrite (H3 "a"); [reflexivity|discriminate].
Defined.

(** *** Keys of decoded entries *)

Lemma table_get_In (table : field_table) (code name : string) :
  table_get table code = Some name -> In name (map snd table).
Proof.
  induction table as [|[k v] rest IH]; simpl; [discriminate|].
  destruct (k =? code); [intros H; injection H as ->; tauto|].
  intros H. right. exact (IH H).
Qed.

Lemma property_key_decoded (table : field_table) (code : string) :
  decoded_key table (property_key (table_get table code)).
Proof.
  unfold decoded_key. destruct (table_get table code) as [name|] eqn:E; simpl.
  - right. exact (table_get_In _ _ _ E).
  - left. reflexivity.
Qed.

(** Assigning a field keeps the keys of an entry decoded, and leaves an
    entry that is not empty. *)
Lemma assign_decoded (table : field_table) (entry : Product) (code fieldValue : string) :
  forallb (fun e => negb (snd e =? "__proto__")) table = true ->
  decoded_keys table entry ->
  obj_set entry (property_key (table_get table code)) fieldValue <> []
  /\ decoded_keys table (obj_set entry (property_key (table_get table code)) fieldValue).
Proof.
  intros Hord Hentry. split.
  - apply obj_set_nonempty, property_key_not_proto, Hord.
  - intros key v H. destruct (obj_get_set_inv _ _ _ _ _ H) as [[-> _] | H'].
    + apply property_key_decoded.
    + exact (Hentry key v H').
Qed.

Lemma decoded_keys_empty (table : field_table) : decoded_keys table [].
Proof. intros key v H. discriminate H. Qed.

Lemma partsLoop_decoded (rest : list string) :
  (forall part product,
      decoded_keys Ga4.GA4_PRODUCT_FIELDS product ->
      Ga4.partsLoop part rest product <> []
      /\ decoded_keys Ga4.GA4_PRODUCT_FIELDS (Ga4.partsLoop part rest product))
  /\ (forall next part product,
      decoded_keys Ga4.GA4_PRODUCT_FIELDS product ->
      Ga4.partsLoop part (next :: rest) product <> []
      /\ decoded_keys Ga4.GA4_PRODUCT_FIELDS (Ga4.partsLoop part (next :: rest) product)).
Proof.
  assert (Hstore : forall part product,
             decoded_keys Ga4.GA4_PRODUCT_FIELDS product ->
             Ga4.storePart product part <> []
             /\ decoded_keys Ga4.GA4_PRODUCT_FIELDS (Ga4.storePart product part)).
  { intros part product H. apply assign_decoded; [apply ga4_names_ordinary|exact H]. }
  induction rest as [|y rest [IH1 IH2]].
  - split.
    + intros part product H. apply Hstore, H.
    + intros next part product H. cbn [Ga4.partsLoop].
      destruct (next =? ""); [apply Hstore, H|].
      apply Hstore. apply Hstore, H.
  - split; [exact (IH2 y)|].
    intros next part product H. cbn [Ga4.partsLoop].
    destruct (next =? "").
    + apply IH1, H.
    + apply (IH2 y). apply Hstore, H.
Qed.

Lemma parseProduct_decoded (payload : string) :
  Ga4.parseProduct payload <> []
  /\ decoded_keys Ga4.GA4_PRODUCT_FIELDS (Ga4.parseProduct payload).
Proof.
  unfold Ga4.parseProduct.
  destruct (split_cons "~" payload) as [part [parts ->]].
  apply (proj1 (partsLoop_decoded parts)). apply decoded_keys_empty.
Qed.

Lemma parsed_products_decoded (url index : string) (product : Product) :
  obj_get (products (Ga4.parse url)) index = Some product ->
  product <> [] /\ decoded_keys Ga4.GA4_PRODUCT_FIELDS product.
Proof.
  unfold Ga4.parse. cbn [products].
  destruct (string_dec index "__proto__") as [-> | Hne].
  - rewrite (fold_set_proto (group 1) (fun p => Ga4.parseProduct (group 2 p)) _ []).
    discriminate.
  - rewrite (fold_set_last (group 1) (fun p => Ga4.parseProduct (group 2 p)) _ [] index Hne).
    destruct (find _ _) as [p|]; [|discriminate].
    intros H. injection H as <-. apply parseProduct_decoded.
Qed.

(** X11.  Every product decoded from a GA4 hit has at least one field, even
    when its payload is empty, and each of its keys is a field name of the
    code table or [undefined]; a two-character wire code never appears as a
    key. *)
Theorem ga4_products_decoded (url index : string) (product : Product) :
  obj_get (products (Ga4.parse url)) index = Some product ->
  product <> []
  /\ decoded_keys Ga4.GA4_PRODUCT_FIELDS product
  /\ forall code name, In (code, name) Ga4.GA4_PRODUCT_FIELDS -> obj_get product code = None.
Proof.
  intros H. destruct (parsed_products_decoded url index product H) as [Hne Hd].
  split; [exact Hne|]. split; [exact Hd|].
  intros code name Hin. destruct (obj_get product code) as [v|] eqn:E; [|reflexivity].
  exfalso. destruct (Hd _ _ E) as [-> | Hname].
  - revert Hin. cbn. intuition congruence.
  - revert Hin Hname. cbn. intuition congruence.
Qed.

Lemma ga4_products_decoded_witness :
  obj_get (products (Ga4.parse "https://x.test/g/collect?v=2&pr1=")) "1"
  = Some [("undefined", "")]
  /\ [("undefined", "")] <> ([] : Product).
Proof.
  assert (H : obj_get (products (Ga4.parse "https://x.test/g/collect?v=2&pr1=")) "1"
              = Some [("undefined", "")]) by reflexivity.
  split; [exact H|].
  exact (proj1 (ga4_products_decoded _ _ _ H)).
Defined.

Lemma fieldStep_decoded (table : field_table) (entries : jsobj Product) (p : list string) :
  forallb (fun e => negb (snd e =? "__proto__")) table = true ->
  decoded_entries table entries ->
  decoded_entries table (Ua.fieldStep table entries p).
Proof.
  intros Hord Hentries index entry H. unfold Ua.fieldStep in H.
  destruct (obj_get_set_inv _ _ _ _ _ H) as [[_ ->] | H']; [|exact (Hentries _ _ H')].
  apply assign_decoded; [exact Hord|].
  destruct (obj_get entries (group 1 p)) as [e|] eqn:E; cbn [Ua.or_empty].
  - exact (proj2 (Hentries _ _ E)).
  - apply decoded_keys_empty.
Qed.

Lemma fold_fieldStep_decoded (table : field_table) (ms : list (list string)) :
  forallb (fun e => negb (snd e =? "__proto__")) table = true ->
  forall entries,
    decoded_entries table entries ->
    decoded_entries table (fold_left (Ua.fieldStep table) ms entries).
Proof.
  intros Hord. induction ms as [|m ms IH]; intros entries H; [exact H|].
  cbn [fold_left]. apply IH, fieldStep_decoded; assumption.
Qed.

Lemma decoded_entries_empty (table : field_table) : decoded_entries table [].
Proof. intros index entry H. discriminate H. Qed.

Lemma listNameStep_decoded (lists : jsobj ImpressionList.t) (m : list string) :
  decoded_lists lists -> decoded_lists (Ua.listNameStep lists m).
Proof.
  intros Hlists index l H. unfold Ua.listNameStep in H.
  destruct (obj_get_set_inv _ _ _ _ _ H) as [[_ ->] | H']; [|exact (Hlists _ _ H')].
  cbn [ImpressionList.impressions].
  destruct (obj_get lists (group 1 m)) as [l0|] eqn:E; cbn [Ua.or_empty_list].
  - exact (Hlists _ _ E).
  - apply decoded_entries_empty.
Qed.

Lemma impressionStep_decoded (lists : jsobj ImpressionList.t) (imp : list string) :
  decoded_lists lists -> decoded_lists (Ua.impressionStep lists imp).
Proof.
  intros Hlists index l H. unfold Ua.impressionStep in H.
  destruct (obj_get_set_inv _ _ _ _ _ H) as [[_ ->] | H']; [|exact (Hlists _ _ H')].
  cbn [ImpressionList.impressions].
  assert (Hold : decoded_entries Ua.UA_IMPRESSION_FIELDS
                   (ImpressionList.impressions
                      (Ua.or_empty_list (obj_get lists (group 1 imp))))).
  { destruct (obj_get lists (group 1 imp)) as [l0|] eqn:E; cbn [Ua.or_empty_list].
    - exact (Hlists _ _ E).
    - apply decoded_entries_empty. }
  intros inner entry Hentry.
  destruct (obj_get_set_inv _ _ _ _ _ Hentry) as [[_ ->] | H']; [|exact (Hold _ _ H')].
  apply assign_decoded; [reflexivity|].
  destruct (obj_get _ (group 2 imp)) as [e|] eqn:E; cbn [Ua.or_empty].
  - exact (proj2 (Hold _ _ E)).
  - apply decoded_keys_empty.
Qed.

Lemma fold_lists_decoded (names fields : list (list string)) :
  forall lists,
    decoded_lists lists ->
    decoded_lists (fold_left Ua.impressionStep fields
                             (fold_left Ua.listNameStep names lists)).
Proof.
  induction names as [|m names IH]; intros lists H.
  - cbn [fold_left]. revert lists H.
    induction fields as [|imp fields IHf]; intros lists H; [exact H|].
    cbn [fold_left]. apply IHf, impressionStep_decoded, H.
  - cbn [fold_left]. apply IH, listNameStep_decoded, H.
Qed.

(** X12.  Every product, promotion and impression decoded from a UA hit has
    at least one field, and each of its keys is a field name of its code
    table or [undefined]. *)
Theorem ua_entries_decoded (url : string) :
  decoded_entries Ua.UA_PRODUCT_FIELDS (products (Ua.parse url))
  /\ (forall entries, promos (Ua.parse url) = Some entries ->
                      decoded_entries Ua.UA_PROMOTION_FIELDS entries)
  /\ (forall lists, impressions (Ua.parse url) = Some lists -> decoded_lists lists).
Proof.
  unfold Ua.parse. cbn [products promos impressions]. split; [|split].
  - apply fold_fieldStep_decoded; [reflexivity|apply decoded_entries_empty].
  - intros entries H. injection H as <-.
    apply fold_fieldStep_decoded; [reflexivity|apply decoded_entries_empty].
  - intros lists H. injection H as <-. apply fold_lists_decoded.
    intros index l H. discriminate H.
Qed.

Lemma ua_entries_decoded_witness :
  obj_get (products (Ua.parse "https://x.test/collect?v=1&pr1id=A&pr1zz=B")) "1"
  = Some [("item_id", "A"); ("undefined", "B")]
  /\ decoded_keys Ua.UA_PRODUCT_FIELDS [("item_id", "A"); ("undefined", "B")].
Proof.
  assert (H : obj_get (products (Ua.parse "https://x.test/collect?v=1&pr1id=A&pr1zz=B")) "1"
              = Some [("item_id", "A"); ("undefined", "B")]) by reflexivity.
  split; [exact H|].
  exact (proj2 (proj1 (ua_entries_decoded "https://x.test/collect?v=1&pr1id=A&pr1zz=B")
                      "1" _ H)).
Defined.

(** *** Action parameters of a UA hit *)

(** An alternation of literal texts consumes one of them. *)
Lemma rmatch_alternatives {R : Type} (r : regex) :
  forall (ts : list string) (s : string) (caps : list string)
         (k : string -> list string -> option R) (x : R),
    alternatives r = Some ts ->
    rmatch r s caps k = Some x ->
    exists t s', In t ts /\ s = (t ++ s')%string /\ k s' caps = Some x.
Proof.
  induction r as [t| | |r1 IH1 r2 IH2| | | |]; intros ts s caps k x Hts H;
    try discriminate Hts.
  - injection Hts as <-. cbn [rmatch] in H.
    destruct (strip t s) as [s'|] eqn:E; [|discriminate].
    exists t, s'. split; [left; reflexivity|]. split; [exact (strip_Some _ _ _ E)|exact H].
  - cbn [alternatives] in Hts.
    destruct (alternatives r1) as [ts1|]; [|discriminate].
    destruct (alternatives r2) as [ts2|]; [|discriminate].
    injection Hts as <-. cbn [rmatch] in H.
    destruct (rmatch r1 s caps k) as [y|] eqn:E.
    + injection H as ->. destruct (IH1 _ _ _ _ _ eq_refl E) as [t [s' [Hin [Hs Hk]]]].
      exists t, s'. split; [apply in_or_app; left; exact Hin|tauto].
    + destruct (IH2 _ _ _ _ _ eq_refl H) as [t [s' [Hin [Hs Hk]]]].
      exists t, s'. split; [apply in_or_app; right; exact Hin|tauto].
Qed.

(** The code captured by the action parameter expression is one of the
    twelve codes of [UA_PARAMS]. *)
Lemma ua_param_code (url : string) (p : list string) :
  In p (matchAll Ua.UA_PARAMS_REGEX url) -> In (group 1 p) (map fst Ua.UA_PARAMS).
Proof.
  intros Hin. destruct (matchAllFrom_In _ _ _ _ Hin) as [s [len E]].
  unfold exec, Ua.UA_PARAMS_REGEX in E.
  remember (Alt (Text "pa") _) as alt eqn:Ealt in E.
  assert (Hts : alternatives alt = Some (map fst Ua.UA_PARAMS))
    by (rewrite Ealt; reflexivity).
  clear Ealt. cbn [rmatch] in E.
  destruct (strip "&" s) as [s1|]; [|discriminate].
  destruct (rmatch_alternatives alt _ _ _ _ _ Hts E) as [t [s2 [Ht [-> Hk]]]].
  rewrite consumed_append in Hk. destruct (strip "=" s2) as [s3|]; [|discriminate].
  destruct (star_inv _ _ _ _ Hk) as [a [b [_ [_ Hf]]]].
  injection Hf as <- _. exact Ht.
Qed.

Lemma table_get_code (table : field_table) (code : string) :
  In code (map fst table) ->
  exists name, table_get table code = Some name /\ In name (map snd table).
Proof.
  induction table as [|[k v] rest IH]; simpl; [tauto|].
  intros H. destruct (k =? code) eqn:E.
  - exists v. tauto.
  - destruct H as [-> | H]; [rewrite String.eqb_refl in E; discriminate|].
    destruct (IH H) as [name [H1 H2]]. exists name. tauto.
Qed.

(** A scan of action parameters only ever assigns under the names of
    [UA_PARAMS]. *)
Lemma fold_paramStep_names (key : string) (ms : list (list string)) :
  (forall p, In p ms -> In (group 1 p) (map fst Ua.UA_PARAMS)) ->
  forall (acc : jsobj string) (fieldValue : string),
    (forall v, obj_get acc key = Some v -> In key (map snd Ua.UA_PARAMS)) ->
    obj_get (fold_left Ua.paramStep ms acc) key = Some fieldValue ->
    In key (map snd Ua.UA_PARAMS).
Proof.
  induction ms as [|m ms IH]; intros Hms acc fieldValue Hacc H; [exact (Hacc _ H)|].
  cbn [fold_left] in H.
  apply (IH (fun p Hp => Hms p (or_intror Hp)) (Ua.paramStep acc m) fieldValue); [|exact H].
  intros v Hv. unfold Ua.paramStep in Hv.
  destruct (obj_get_set_inv _ _ _ _ _ Hv) as [[-> _] | Hv']; [|exact (Hacc _ Hv')].
  destruct (table_get_code Ua.UA_PARAMS (group 1 m) (Hms m (or_introl eq_refl)))
    as [name [-> Hname]].
  exact Hname.
Qed.

Lemma parsed_params_names (url key fieldValue : string) (ps : jsobj string) :
  params (Ua.parse url) = Some ps ->
  obj_get ps key = Some fieldValue ->
  In key (map snd Ua.UA_PARAMS).
Proof.
  intros H. unfold Ua.parse in H. cbn [params] in H. injection H as <-.
  apply fold_paramStep_names; [intros p; apply ua_param_code|discriminate].
Qed.

(** X13.  The action parameters decoded from a UA hit carry only the twelve
    parameter names of [UA_PARAMS]; unlike a product, they never get the key
    [undefined], since the regular expression only lets the twelve codes
    through. *)
Theorem ua_params_names (url key fieldValue : string) :
  forall ps,
    params (Ua.parse url) = Some ps ->
    obj_get ps key = Some fieldValue ->
    In key (map snd Ua.UA_PARAMS) /\ key <> "undefined".
Proof.
  intros ps Hps H. pose proof (parsed_params_names url key fieldValue ps Hps H) as Hin.
  split; [exact Hin|]. intros ->. revert Hin. cbn.
  intuition discriminate.
Qed.

Lemma ua_params_names_witness :
  params (Ua.parse "https://x.test/collect?v=1&pa=purchase&pal=Search&xx=1")
  = Some [("product_action", "purchase"); ("item_list_name", "Search")]
  /\ In "item_list_name" (map snd Ua.UA_PARAMS).
Proof.
  split; [reflexivity|].
  apply (ua_params_names "https://x.test/collect?v=1&pa=purchase&pal=Search&xx=1"
                         "item_list_name" "Search" _ eq_refl).
  reflexivity.
Defined.

(** ** The recommendation for a decoded hit *)

Section EnumerationMore.
Context {V : Type}.
Implicit Types (o : jsobj V).

Lemma insert_index_In i key (l : list (N * string)) k :
  k = key \/ In k (map snd l) -> In k (map snd (insert_index i key l)).
Proof.
  induction l as [|[j kj] rest IH]; simpl.
  - intros [-> | []]. left; reflexivity.
  - destruct (i <=? j)%N; simpl.
    + intros [-> | H]; [left; reflexivity|right; exact H].
    + intros [-> | [<- | H]];
        [right; apply IH; left; reflexivity|left; reflexivity|right; apply IH; right; exact H].
Qed.

(** A [for ... in] loop visits every own property. *)
Lemma for_in_keys_complete o k : In k (map fst o) -> In k (for_in_keys o).
Proof.
  unfold for_in_keys. intros H. apply in_or_app.
  induction o as [|[key x] rest IH]; simpl in *; [tauto|].
  destruct (array_index key); simpl.
  - destruct H as [-> | H].
    + left. apply insert_index_In. left; reflexivity.
    + destruct (IH H) as [H' | H']; [left; apply insert_index_In; right; exact H'|right; exact H'].
  - destruct H as [-> | H]; [right; left; reflexivity|].
    destruct (IH H) as [H' | H']; [left; exact H'|right; right; exact H'].
Qed.

Lemma for_in_keys_nil o : for_in_keys o = [] -> o = [].
Proof.
  destruct o as [|[key x] rest]; [reflexivity|]. intros H.
  assert (Hin : In key (for_in_keys ((key, x) :: rest)))
    by (apply for_in_keys_complete; left; reflexivity).
  rewrite H in Hin. destruct Hin.
Qed.
End EnumerationMore.

(** The loop over the parameters throws at its first key when the
    parameters carry a property called [hasOwnProperty]. *)
Lemma paramsLoop_throws (ps : jsobj string) (x : string) :
  obj_get ps "hasOwnProperty" = Some x ->
  forall acc, paramsLoop ps (for_in_keys ps) acc = Throws TypeError.
Proof.
  intros H acc. destruct (for_in_keys ps) as [|k keys] eqn:E.
  - apply for_in_keys_nil in E. subst ps. discriminate H.
  - cbn [paramsLoop]. unfold hasOwnProperty. rewrite H. reflexivity.
Qed.

(** The outcome of the renderer on a record whose products can all be asked
    [hasOwnProperty]. *)
Lemma command_outcome (record : ParsedData) :
  (forall i fields, arr_get (products record) i = Some fields ->
                    answers_hasOwnProperty fields = true) ->
  buildGa4GtagCommand record
  = match params record with
    | Some ps =>
        if answers_hasOwnProperty ps then Returns (commandText record)
        else Throws TypeError
    | None => Returns (commandText record)
    end.
Proof.
  intros Hproducts. unfold buildGa4GtagCommand, commandText.
  destruct (params record) as [ps|].
  - destruct (answers_hasOwnProperty ps) eqn:Hs.
    + rewrite paramsLoop_lines; [|exact Hs|apply for_in_keys_own]. cbn [bind].
      rewrite productsLoop_literals by (intros j fields _; apply Hproducts).
      cbn [bind append]. reflexivity.
    + unfold answers_hasOwnProperty in Hs.
      destruct (obj_get ps "hasOwnProperty") as [x|] eqn:Hx; [|discriminate].
      rewrite (paramsLoop_throws ps x Hx). reflexivity.
  - cbn [bind]. rewrite productsLoop_literals by (intros j fields _; apply Hproducts).
    cbn [bind append]. reflexivity.
Qed.

Lemma decoded_answers (table : field_table) (entry : Product) :
  ~ In "hasOwnProperty" (map snd table) ->
  decoded_keys table entry ->
  answers_hasOwnProperty entry = true.
Proof.
  intros Hno Hd. unfold answers_hasOwnProperty.
  destruct (obj_get entry "hasOwnProperty") as [x|] eqn:E; [|reflexivity].
  destruct (Hd _ _ E) as [H | H]; [discriminate H|contradiction].
Qed.

Lemma table_without (table : field_table) (key : string) :
  forallb (fun entry => negb (snd entry =? key)) table = true ->
  ~ In key (map snd table).
Proof.
  induction table as [|[c n] rest IH]; simpl; [tauto|].
  intros H [E | Hin]; apply andb_prop in H; destruct H as [H1 H2].
  - subst n. rewrite String.eqb_refl in H1. discriminate.
  - exact (IH H2 Hin).
Qed.

Lemma parsed_command (url : string) :
  buildGa4GtagCommand (Ga4.parse url)
  = match obj_get (fold_left (fun acc p => obj_set acc (group 1 p) (group 2 p))
                             (matchAll Ga4.GA4_PARAM_REGEX url) [])
                  "hasOwnProperty" with
    | Some _ => Throws TypeError
    | None => Returns (commandText (Ga4.parse url))
    end.
Proof.
  rewrite command_outcome.
  - cbn [params Ga4.parse]. unfold answers_hasOwnProperty.
    match goal with |- context [obj_get ?o "hasOwnProperty"] =>
      destruct (obj_get o "hasOwnProperty") end; reflexivity.
  - intros i fields H. unfold arr_get in H.
    apply (decoded_answers Ga4.GA4_PRODUCT_FIELDS).
    + apply table_without. reflexivity.
    + exact (proj2 (parsed_products_decoded url _ _ H)).
Qed.

(** X14.  The recommendation for a GA4 hit.  The renderer throws a
    [TypeError] exactly when the hit has an event parameter called
    [hasOwnProperty]; the products never make it do so.  Without such a
    parameter, and when the text fits the string-length limit, it returns the
    text laid out from the event name, the parameters and the items. *)
Theorem ga4_command_outcome (url : string) :
  exists ps,
    params (Ga4.parse url) = Some ps
    /\ (buildGa4GtagCommand (Ga4.parse url) = Throws TypeError
        <-> exists x, obj_get ps "hasOwnProperty" = Some x)
    /\ (obj_get ps "hasOwnProperty" = None ->
        fits (commandText (Ga4.parse url)) ->
        buildGa4GtagCommand (Ga4.parse url) = Returns (commandText (Ga4.parse url))).
Proof.
  eexists. split; [reflexivity|]. rewrite parsed_command.
  destruct (obj_get _ "hasOwnProperty") as [x|]; split.
  - split; [intros _; exists x; reflexivity|reflexivity].
  - discriminate.
  - split; [discriminate|intros [x Hx]; discriminate Hx].
  - reflexivity.
Qed.

Lemma ga4_command_outcome_witness :
  buildGa4GtagCommand (Ga4.parse "https://x.test/g/collect?v=2&en=purchase&ep.value=1&pr1=idA")
  = Returns (commandText (Ga4.parse "https://x.test/g/collect?v=2&en=purchase&ep.value=1&pr1=idA")).
Proof.
  destruct (ga4_command_outcome "https://x.test/g/collect?v=2&en=purchase&ep.value=1&pr1=idA")
    as [ps [Hps [_ H]]].
  injection Hps as <-. apply H.
  - reflexivity.
  - unfold fits. apply N.leb_le. vm_compute. reflexivity.
Defined.

Lemma ua_products_decoded (url : string) :
  decoded_entries Ua.UA_PRODUCT_FIELDS (products (Ua.parse url)).
Proof.
  unfold Ua.parse. cbn [products].
  apply fold_fieldStep_decoded; [reflexivity|apply decoded_entries_empty].
Qed.

(** X15.  The recommendation for a record decoded from a UA hit.  The
    renderer never throws a [TypeError] on it: neither its products nor its
    action parameters can carry a property called [hasOwnProperty].  When the
    text fits the string-length limit the renderer returns it.  The UA parser
    sets no event name, so the command names the event [undefined]. *)
Theorem ua_command_outcome (url : string) :
  buildGa4GtagCommand (Ua.parse url) <> Throws TypeError
  /\ (fits (commandText (Ua.parse url)) ->
      buildGa4GtagCommand (Ua.parse url) = Returns (commandText (Ua.parse url)))
  /\ exists rest, commandText (Ua.parse url) = ("gtag('event', 'undefined', {" ++ rest)%string.
Proof.
  assert (H : buildGa4GtagCommand (Ua.parse url) = Returns (commandText (Ua.parse url))).
  { rewrite command_outcome.
    - destruct (params (Ua.parse url)) as [ps|] eqn:Eps; [|reflexivity].
      unfold answers_hasOwnProperty.
      destruct (obj_get ps "hasOwnProperty") as [x|] eqn:Hx; [|reflexivity].
      pose proof (parsed_params_names url _ _ ps Eps Hx) as Hin.
      exfalso. revert Hin. apply table_without. reflexivity.
    - intros i fields Hf. unfold arr_get in Hf.
      apply (decoded_answers Ua.UA_PRODUCT_FIELDS).
      + apply table_without. reflexivity.
      + exact (proj2 (ua_products_decoded url _ _ Hf)). }
  split; [rewrite H; discriminate|]. split; [intros _; exact H|].
  unfold commandText. eexists.
  change (event (Ua.parse url)) with (@None string).
  cbn [interpolate append]. reflexivity.
Qed.

Lemma ua_command_outcome_witness :
  buildGa4GtagCommand (Ua.parse "https://x.test/collect?v=1&pa=purchase&pr1id=A")
  = Returns (commandText (Ua.parse "https://x.test/collect?v=1&pa=purchase&pr1id=A")).
Proof.
  apply (proj1 (proj2 (ua_command_outcome "https://x.test/collect?v=1&pa=purchase&pr1id=A"))).
  unfold fits. apply N.leb_le. vm_compute. reflexivity.
Defined.

(** ** Array indices *)

Lemma digit_char (c : ascii) :
  is_digit c = true ->
  In c ["0"; "1"; "2"; "3"; "4"; "5"; "6"; "7"; "8"; "9"]%char.
Proof.
  destruct c as [[] [] [] [] [] [] [] []]; intros H;
    try (vm_compute in H; discriminate H); cbn; tauto.
Qed.

(** A string of digits is a numeral of the standard library, and
    [digits_value] is its value. *)
Lemma digits_uint (key : string) :
  all_chars is_digit key = true ->
  exists d, NilEmpty.uint_of_string key = Some d
            /\ forall acc, N.to_nat (digits_value acc key) = Nat.of_uint_acc d (N.to_nat acc).
Proof.
  induction key as [|c key IH]; intros H.
  - exists Decimal.Nil. split; reflexivity.
  - cbn [all_chars] in H. apply andb_prop in H. destruct H as [Hc Hkey].
    destruct (IH Hkey) as [d [Hd Hv]].
    cbn [NilEmpty.uint_of_string digits_value]. rewrite Hd.
    destruct (digit_char c Hc) as [<- | [<- | [<- | [<- | [<- | [<- | [<- | [<- | [<- | [<- | []]]]]]]]]]];
      (eexists; split; [reflexivity|]; intros acc; rewrite Hv; cbn [Nat.of_uint_acc];
       rewrite Nat.tail_mul_spec; f_equal;
       match goal with
       | |- context [digit_value ?c] =>
           let v := eval vm_compute in (digit_value c) in
           change (digit_value c) with v
       end; lia).
Qed.

(** An array index is the decimal numeral of its number. *)
Lemma array_index_decimal (key : string) (i : N) :
  array_index key = Some i -> decimal (N.to_nat i) = key.
Proof.
  unfold array_index. destruct key as [|c rest]; [discriminate|].
  destruct (all_chars is_digit (String c rest)) eqn:Hd; [|discriminate].
  destruct (negb (Ascii.eqb c "0") || String.eqb rest "")%bool eqn:Hc; [|discriminate].
  cbn [andb]. destruct (_ <? _)%N; [|discriminate]. intros H. injection H as <-.
  destruct (digits_uint _ Hd) as [d [Hu Hv]].
  change (digits_value (digit_value c) rest) with (digits_value 0 (String c rest)).
  rewrite Hv. change (Nat.of_uint_acc d (N.to_nat 0)) with (Nat.of_uint d).
  unfold decimal. rewrite Unsigned.to_of.
  assert (Hn : Decimal.unorm d = d).
  { cbn [NilEmpty.uint_of_string] in Hu.
    destruct (NilEmpty.uint_of_string rest) as [d'|] eqn:Hr; [|discriminate Hu].
    apply Bool.orb_true_iff in Hc. destruct Hc as [Hc | Hc].
    - apply Bool.negb_true_iff, Ascii.eqb_neq in Hc.
      cbn [all_chars] in Hd. apply andb_prop in Hd. destruct Hd as [Hd _].
      destruct (digit_char c Hd) as [<- | [<- | [<- | [<- | [<- | [<- | [<- | [<- | [<- | [<- | []]]]]]]]]]];
        try (exfalso; apply Hc; reflexivity);
        cbn in Hu; injection Hu as <-; reflexivity.
    - apply String.eqb_eq in Hc. subst rest. cbn in Hr. injection Hr as <-.
      cbn [all_chars] in Hd. apply andb_prop in Hd. destruct Hd as [Hd _].
      destruct (digit_char c Hd) as [<- | [<- | [<- | [<- | [<- | [<- | [<- | [<- | [<- | [<- | []]]]]]]]]]];
        cbn in Hu; injection Hu as <-; reflexivity. }
  rewrite Hn. apply NilZero.sus. exact Hu.
Qed.

Section ArrayFacts.
Context {V : Type}.
Implicit Types (a : jsobj V).

(** [length] exceeds every array index the array holds. *)
Lemma arr_length_bound a key i :
  In key (map fst a) -> array_index key = Some i -> N.to_nat i < arr_length a.
Proof.
  induction a as [|[k x] rest IH]; cbn [arr_length map fst In]; [tauto|].
  intros [-> | Hin] Hi.
  - rewrite Hi. lia.
  - specialize (IH Hin Hi). destruct (array_index k); lia.
Qed.

(** The element below [length] is there. *)
Lemma arr_length_last a n :
  arr_length a = S n -> exists v, arr_get a n = Some v.
Proof.
  unfold arr_get. induction a as [|[k x] rest IH]; cbn [arr_length obj_get]; [discriminate|].
  intros H. destruct (k =? decimal n) eqn:E; [eexists; reflexivity|].
  destruct (array_index k) as [i|] eqn:Hi; [|exact (IH H)].
  destruct (Nat.eq_dec (N.to_nat i) n) as [<- | Hne].
  - rewrite (array_index_decimal k i Hi), String.eqb_refl in E. discriminate.
  - apply IH. lia.
Qed.
End ArrayFacts.

Section ForEachFacts.
Context {V St : Type} (a : jsobj V) (callback : St -> V -> nat -> St).

Lemma forEachFrom_split (r1 r2 : nat) :
  forall k state,
    forEachFrom a callback (r1 + r2) k state
    = forEachFrom a callback r2 (k + r1) (forEachFrom a callback r1 k state).
Proof.
  induction r1 as [|r1 IH]; intros k state.
  - rewrite Nat.add_0_r. reflexivity.
  - cbn [Nat.add forEachFrom]. rewrite IH. rewrite Nat.add_succ_r. reflexivity.
Qed.

Lemma forEachFrom_invariant (P : St -> Prop) :
  (forall state element k, P state -> P (callback state element k)) ->
  forall remaining k state, P state -> P (forEachFrom a callback remaining k state).
Proof.
  intros Hcb. induction remaining as [|r IH]; intros k state H; [exact H|].
  cbn [forEachFrom]. apply IH. destruct (arr_get a k); [apply Hcb|]; exact H.
Qed.

(** The callback is run on every element below [length]. *)
Lemma forEach_visits (i : nat) (element : V) (state : St) :
  i < arr_length a ->
  arr_get a i = Some element ->
  exists before,
    forEach a callback state
    = forEachFrom a callback (arr_length a - S i) (S i) (callback before element i).
Proof.
  intros Hi He. exists (forEachFrom a callback i 0 state). unfold forEach.
  replace (arr_length a) with (i + (1 + (arr_length a - S i))) at 1 by lia.
  rewrite forEachFrom_split, forEachFrom_split. cbn [forEachFrom Nat.add].
  rewrite He. replace (i + 1) with (S i) by lia. reflexivity.
Qed.

Lemma forEach_empty (state : St) :
  arr_length a = 0 -> forEach a callback state = state.
Proof. unfold forEach. intros ->. reflexivity. Qed.
End ForEachFacts.

(** Loops whose callback appends at least one line, the first of them a
    heading line. *)
Section ForEachLines.
Context {V : Type} (a : jsobj V) (callback : list string -> V -> nat -> list string).
Hypothesis callback_appends :
  forall parts element k,
    exists h t, callback parts element k = parts ++ h :: t /\ heading_line h.

Lemma forEachFrom_appends (remaining k : nat) (parts : list string) :
  exists t, forEachFrom a callback remaining k parts = parts ++ t.
Proof.
  apply (forEachFrom_invariant a callback (fun parts' => exists t, parts' = parts ++ t)).
  - intros state element j [t ->].
    destruct (callback_appends (parts ++ t) element j) as [h [t' [-> _]]].
    exists (t ++ h :: t'). rewrite app_assoc. reflexivity.
  - exists []. rewrite app_nil_r. reflexivity.
Qed.

Lemma forEach_appends (parts : list string) :
  exists t, forEach a callback parts = parts ++ t.
Proof. apply forEachFrom_appends. Qed.

Lemma forEach_nil (parts : list string) :
  forEach a callback parts = [] <-> parts = [] /\ arr_length a = 0.
Proof.
  split.
  - intros H. destruct (forEach_appends parts) as [t Ht]. rewrite H in Ht.
    symmetry in Ht. apply app_eq_nil in Ht. destruct Ht as [-> _].
    split; [reflexivity|].
    destruct (arr_length a) as [|n] eqn:Hlen; [reflexivity|exfalso].
    destruct (arr_length_last a n Hlen) as [v Hv].
    destruct (forEach_visits a callback n v [] ltac:(lia) Hv) as [before Hb].
    rewrite Hlen, Nat.sub_diag in Hb. cbn [forEachFrom] in Hb.
    destruct (callback_appends before v n) as [h [t' [E _]]].
    rewrite H, E in Hb. destruct before; discriminate Hb.
  - intros [-> Hlen]. apply forEach_empty. exact Hlen.
Qed.

Lemma forEach_headed (parts : list string) :
  (forall h t, parts = h :: t -> heading_line h) ->
  forall h t, forEach a callback parts = h :: t -> heading_line h.
Proof.
  apply (forEachFrom_invariant a callback
           (fun parts' => forall h t, parts' = h :: t -> heading_line h)).
  intros state element k Hstate h t H.
  destruct (callback_appends state element k) as [h' [t' [E Hh]]].
  rewrite E in H. destruct state as [|s0 state].
  - injection H as <- _. exact Hh.
  - injection H as <- _. exact (Hstate _ _ eq_refl).
Qed.

Lemma forEach_keeps (parts : list string) (line : string) :
  In line parts -> In line (forEach a callback parts).
Proof.
  intros H. destruct (forEach_appends parts) as [t ->]. apply in_or_app. left. exact H.
Qed.
End ForEachLines.

(** *** What [show] writes *)

Lemma pushFields_lines (indent : string) (o : jsobj string) (parts : list string) :
  pushFields indent o parts = parts ++ map (shownField indent o) (for_in_keys o).
Proof.
  unfold pushFields. revert parts.
  induction (for_in_keys o) as [|k keys IH]; intros parts.
  - rewrite app_nil_r. reflexivity.
  - cbn [fold_left map]. rewrite IH, <- app_assoc. reflexivity.
Qed.

Lemma pushEntry_lines (heading indent : string) (parts : list string)
      (entry : Product) (index : nat) :
  pushEntry heading indent parts entry index
  = parts ++ (heading ++ decimal index)%string :: map (shownField indent entry) (for_in_keys entry).
Proof.
  unfold pushEntry. rewrite pushFields_lines, <- app_assoc. reflexivity.
Qed.

Lemma pushEntry_appends (c : ascii) (heading indent : string) :
  c <> "N"%char ->
  forall parts entry k,
    exists h t, pushEntry (String c heading) indent parts entry k = parts ++ h :: t
                /\ heading_line h.
Proof.
  intros Hc parts entry k. rewrite pushEntry_lines. eexists; eexists.
  split; [reflexivity|]. exists c. eexists. split; [reflexivity|exact Hc].
Qed.

Lemma pushList_appends (parts : list string) (l : ImpressionList.t) (k : nat) :
  exists h t, pushList parts l k = parts ++ h :: t /\ heading_line h.
Proof.
  unfold pushList.
  match goal with
  | |- context [forEach ?a ?cb ?s] =>
      destruct (forEach_appends a cb
                  (pushEntry_appends " " " Impression " "    " ltac:(discriminate)) s)
        as [t ->]
  end.
  exists ("Impression List " ++ decimal k)%string.
  destruct (ImpressionList.name l) as [n|]; [destruct (n =? "")|];
    rewrite <- ?app_assoc; cbn [app]; eexists;
    (split; [reflexivity|exists "I"%char; eexists; split; [reflexivity|discriminate]]).
Qed.

(** The four stages of [show], each appending to what the stages before
    collected. *)
Lemma products_stage (entries : jsobj Product) (c : ascii) (heading indent : string)
      (parts : list string) :
  c <> "N"%char ->
  (exists t, forEach entries (pushEntry (String c heading) indent) parts = parts ++ t)
  /\ (forEach entries (pushEntry (String c heading) indent) parts = []
      <-> parts = [] /\ arr_length entries = 0)
  /\ ((forall h t, parts = h :: t -> heading_line h) ->
      forall h t, forEach entries (pushEntry (String c heading) indent) parts = h :: t ->
                  heading_line h).
Proof.
  intros Hc. pose proof (pushEntry_appends c heading indent Hc) as Hcb.
  split; [|split].
  - apply forEach_appends. exact Hcb.
  - apply forEach_nil. exact Hcb.
  - apply forEach_headed. exact Hcb.
Qed.

Lemma params_stage (ps : jsobj string) (parts : list string) :
  match for_in_keys ps with
  | [] => parts
  | _ :: _ => pushFields "  " ps (parts ++ ["Additional Parameters:"])
  end
  = parts ++ match ps with
             | [] => []
             | _ :: _ => "Additional Parameters:" :: map (shownField "  " ps) (for_in_keys ps)
             end.
Proof.
  destruct (for_in_keys ps) as [|k keys] eqn:E.
  - rewrite (for_in_keys_nil ps E), app_nil_r. reflexivity.
  - destruct ps as [|b ps]; [discriminate E|].
    rewrite pushFields_lines, E, <- app_assoc. reflexivity.
Qed.

(** The lines of [show] are empty exactly when no collection has an element
    below its [length] and there are no parameters. *)
Lemma valueParts_nil (data : ParsedData) :
  valueParts data = []
  <-> arr_length (products data) = 0
      /\ (forall lists, impressions data = Some lists -> arr_length lists = 0)
      /\ (forall entries, promos data = Some entries -> arr_length entries = 0)
      /\ (forall ps, params data = Some ps -> ps = []).
Proof.
  unfold valueParts.
  set (p1 := forEach (products data) (pushEntry "Product " "  ") []).
  set (p2 := match impressions data with
             | Some lists => forEach lists pushList p1
             | None => p1
             end).
  set (p3 := match promos data with
             | Some entries => forEach entries (pushEntry "Promo " "  ") p2
             | None => p2
             end).
  assert (H1 : p1 = [] <-> arr_length (products data) = 0).
  { unfold p1.
    rewrite (proj1 (proj2 (products_stage (products data) "P" "roduct " "  " []
                                          ltac:(discriminate)))).
    tauto. }
  assert (H2 : p2 = [] <-> p1 = [] /\ forall lists, impressions data = Some lists ->
                                                    arr_length lists = 0).
  { unfold p2. destruct (impressions data) as [lists|].
    - rewrite (forEach_nil lists pushList pushList_appends p1). split.
      + intros [Hp Hl]. split; [exact Hp|]. intros ? E. injection E as <-. exact Hl.
      + intros [Hp Hl]. split; [exact Hp|]. apply Hl. reflexivity.
    - split; [intros Hp; split; [exact Hp|discriminate]|tauto]. }
  assert (H3 : p3 = [] <-> p2 = [] /\ forall entries, promos data = Some entries ->
                                                      arr_length entries = 0).
  { unfold p3. destruct (promos data) as [entries|].
    - rewrite (proj1 (proj2 (products_stage entries "P" "romo " "  " p2
                                            ltac:(discriminate)))).
      split.
      + intros [Hp Hl]. split; [exact Hp|]. intros ? E. injection E as <-. exact Hl.
      + intros [Hp Hl]. split; [exact Hp|]. apply Hl. reflexivity.
    - split; [intros Hp; split; [exact Hp|discriminate]|tauto]. }
  clearbody p1 p2 p3.
  destruct (params data) as [ps|].
  - rewrite params_stage. split.
    + intros H. apply app_eq_nil in H. destruct H as [Hp Hps].
      destruct ps as [|b ps]; [|discriminate Hps].
      repeat split; try tauto. intros ? E. injection E as <-. reflexivity.
    + intros [Ha [Hb [Hc Hd]]]. rewrite (Hd ps eq_refl), app_nil_r. tauto.
  - split; [intros H; repeat split; try tauto; discriminate|tauto].
Qed.

(** The first line of [show], when there is one, is a heading line. *)
Lemma valueParts_headed (data : ParsedData) :
  forall h t, valueParts data = h :: t -> heading_line h.
Proof.
  unfold valueParts.
  set (p1 := forEach (products data) (pushEntry "Product " "  ") []).
  set (p2 := match impressions data with
             | Some lists => forEach lists pushList p1
             | None => p1
             end).
  set (p3 := match promos data with
             | Some entries => forEach entries (pushEntry "Promo " "  ") p2
             | None => p2
             end).
  assert (H1 : forall h t, p1 = h :: t -> heading_line h).
  { unfold p1.
    apply (proj2 (proj2 (products_stage (products data) "P" "roduct " "  " []
                                        ltac:(discriminate)))).
    discriminate. }
  assert (H2 : forall h t, p2 = h :: t -> heading_line h).
  { unfold p2. destruct (impressions data) as [lists|]; [|exact H1].
    apply (forEach_headed lists pushList pushList_appends). exact H1. }
  assert (H3 : forall h t, p3 = h :: t -> heading_line h).
  { unfold p3. destruct (promos data) as [entries|]; [|exact H2].
    apply (proj2 (proj2 (products_stage entries "P" "romo " "  " p2 ltac:(discriminate)))).
    exact H2. }
  clearbody p1 p2 p3.
  destruct (params data) as [ps|]; [|exact H3].
  rewrite params_stage. intros h t H. destruct p3 as [|h3 p3].
  - destruct ps as [|b ps]; [discriminate H|]. injection H as <- _.
    exists "A"%char. eexists. split; [reflexivity|discriminate].
  - injection H as <- _. exact (H3 _ _ eq_refl).
Qed.

Lemma concat_headed (h : string) (t : list string) :
  heading_line h -> String.concat nl (h :: t) <> "No ecommerce data found".
Proof.
  intros [c [r [-> Hc]]] H. destruct t; cbn in H; injection H as E _; exact (Hc E).
Qed.

(** X16.  The box reads [No ecommerce data found] on one row exactly when
    the record has nothing to list: no product, impression list or promotion
    below the [length] of its array, and no parameter.  A product stored
    under a key that is not an array index does not count. *)
Theorem show_no_data (data : ParsedData) :
  show data = noData
  <-> arr_length (products data) = 0
      /\ (forall lists, impressions data = Some lists -> arr_length lists = 0)
      /\ (forall entries, promos data = Some entries -> arr_length entries = 0)
      /\ (forall ps, params data = Some ps -> ps = []).
Proof.
  rewrite <- valueParts_nil. unfold show.
  destruct (valueParts data) as [|h t] eqn:E.
  - split; reflexivity.
  - split; [|discriminate]. intros H. exfalso.
    apply (concat_headed h t (valueParts_headed data h t E)).
    unfold noData in H. injection H as H _. exact H.
Qed.

Lemma show_no_data_witness :
  show (Ga4.parse "https://x.test/g/collect?v=2&pr01=idA") = noData
  /\ obj_get (products (Ga4.parse "https://x.test/g/collect?v=2&pr01=idA")) "01"
     = Some [("item_id", "A")].
Proof.
  split; [|reflexivity].
  apply (proj2 (show_no_data (Ga4.parse "https://x.test/g/collect?v=2&pr01=idA"))).
  split; [reflexivity|]. split; [discriminate|]. split; [discriminate|].
  intros ps H. injection H as <-. reflexivity.
Defined.

Lemma valueParts_products (data : ParsedData) (line : string) :
  In line (forEach (products data) (pushEntry "Product " "  ") []) ->
  In line (valueParts data).
Proof.
  intros H. unfold valueParts.
  assert (H2 : In line match impressions data with
                       | Some lists =>
                           forEach lists pushList
                                   (forEach (products data) (pushEntry "Product " "  ") [])
                       | None => forEach (products data) (pushEntry "Product " "  ") []
                       end).
  { destruct (impressions data) as [lists|]; [|exact H].
    apply (forEach_keeps lists pushList pushList_appends). exact H. }
  revert H2. generalize (match impressions data with
                         | Some lists =>
                             forEach lists pushList
                                     (forEach (products data) (pushEntry "Product " "  ") [])
                         | None => forEach (products data) (pushEntry "Product " "  ") []
                         end).
  intros p2 H2.
  assert (H3 : In line match promos data with
                       | Some entries => forEach entries (pushEntry "Promo " "  ") p2
                       | None => p2
                       end).
  { destruct (promos data) as [entries|]; [|exact H2].
    apply (forEach_keeps entries _ (pushEntry_appends "P" "romo " "  " ltac:(discriminate))).
    exact H2. }
  revert H3. generalize (match promos data with
                         | Some entries => forEach entries (pushEntry "Promo " "  ") p2
                         | None => p2
                         end).
  intros p3 H3. destruct (params data) as [ps|]; [|exact H3].
  rewrite params_stage. apply in_or_app. left. exact H3.
Qed.

(** X17.  Every product stored at an array index is listed by [show]: the
    box holds the heading [Product <index>] and, for each field of the
    product, the line with its name and value; [rows] is the number of lines
    collected. *)
Theorem show_lists_products (data : ParsedData) (index : string) (i : N) (entry : Product) :
  obj_get (products data) index = Some entry ->
  array_index index = Some i ->
  exists parts,
    show data = {| value := String.concat nl parts; rows := List.length parts |}
    /\ In ("Product " ++ index)%string parts
    /\ forall field fieldValue,
         obj_get entry field = Some fieldValue ->
         In ("  " ++ field ++ ": " ++ fieldValue)%string parts.
Proof.
  intros Hentry Hindex. exists (valueParts data).
  pose proof (array_index_decimal index i Hindex) as Hdec.
  assert (Hlt : N.to_nat i < arr_length (products data))
    by (apply (arr_length_bound _ index); [exact (obj_get_In _ _ _ Hentry)|exact Hindex]).
  assert (Hget : arr_get (products data) (N.to_nat i) = Some entry)
    by (unfold arr_get; rewrite Hdec; exact Hentry).
  destruct (forEach_visits (products data) (pushEntry "Product " "  ") _ entry [] Hlt Hget)
    as [before Hb].
  rewrite pushEntry_lines, Hdec in Hb.
  destruct (forEachFrom_appends (products data) _
              (pushEntry_appends "P" "roduct " "  " ltac:(discriminate))
              (arr_length (products data) - S (N.to_nat i)) (S (N.to_nat i))
              (before ++ ("Product " ++ index)%string
                        :: map (shownField "  " entry) (for_in_keys entry)))
    as [t Ht].
  rewrite Ht in Hb. clear Ht.
  assert (Hhead : In ("Product " ++ index)%string (valueParts data)).
  { apply valueParts_products. rewrite Hb. apply in_or_app. left.
    apply in_or_app. right. left. reflexivity. }
  split; [|split].
  - unfold show. destruct (valueParts data); [destruct Hhead|reflexivity].
  - exact Hhead.
  - intros field fieldValue Hf. apply valueParts_products. rewrite Hb.
    apply in_or_app. left. apply in_or_app. right. right.
    apply in_map_iff. exists field. split.
    + unfold shownField. rewrite Hf. reflexivity.
    + apply for_in_keys_complete. exact (obj_get_In _ _ _ Hf).
Qed.

Lemma show_lists_products_witness :
  exists parts,
    show (Ga4.parse "https://x.test/g/collect?v=2&pr3=idA~nmB")
    = {| value := String.concat nl parts; rows := List.length parts |}
    /\ In "Product 3" parts
    /\ In "  item_name: B" parts.
Proof.
  destruct (show_lists_products (Ga4.parse "https://x.test/g/collect?v=2&pr3=idA~nmB")
                                "3" 3%N [("item_id", "A"); ("item_name", "B")]
                                eq_refl eq_refl) as [parts [H1 [H2 H3]]].
  exists parts. split; [exact H1|]. split; [exact H2|].
  exact (H3 "item_name" "B" eq_refl).
Defined.

(** *** The resource observer *)

Lemma isGa4Hit_collect (url : string) :
  includes "/collect?" url = false -> Ga4.isGa4Hit url = false.
Proof.
  intros H. unfold Ga4.isGa4Hit, Ga4.GA4_URL_REGEX. rewrite test_Text.
  destruct (includes "/g/collect?" url) eqn:E; [|reflexivity].
  apply includes_collect in E. congruence.
Qed.

(** X18.  A resource whose URL does not contain [/collect?] is none of the
    three kinds of hit: the observer leaves all four boxes as they are and
    raises nothing. *)
Theorem entry_without_collect (page : Page) (url : string) :
  includes "/collect?" url = false -> onEntry page url = (page, None).
Proof.
  intros H. unfold onEntry.
  rewrite (isGa4Hit_collect url H).
  unfold Ua.isUaLegacyHit, Ua.isUaGa4Hit, Ua.UA_LEGACY_REGEX, Ua.UA_GA4_REGEX.
  rewrite !(includes_false_test "/collect?" _ url H). reflexivity.
Qed.

Lemma entry_without_collect_witness :
  onEntry {| Ga4Result := noData; UaGa4Result := noData;
             UaLegacyResult := noData; Ga4GtagCommand := noData |}
          "https://x.test/style.css?el=GTM&pr1=idA"
  = ({| Ga4Result := noData; UaGa4Result := noData;
        UaLegacyResult := noData; Ga4GtagCommand := noData |}, None).
Proof.
  apply (entry_without_collect _ "https://x.test/style.css?el=GTM&pr1=idA").
  reflexivity.
Defined.

(** X19.  A GA4 hit with an event parameter called [hasOwnProperty] stops
    the observer callback with a [TypeError] after the first box was
    written: the command box keeps its old content, and the two UA boxes are
    not updated even when the URL is a UA hit as well. *)
Theorem entry_raises (page : Page) (url : string) :
  forall ps x,
    Ga4.isGa4Hit url = true ->
    params (Ga4.parse url) = Some ps ->
    obj_get ps "hasOwnProperty" = Some x ->
    onEntry page url
    = ({| Ga4Result := show (Ga4.parse url);
          UaGa4Result := UaGa4Result page;
          UaLegacyResult := UaLegacyResult page;
          Ga4GtagCommand := Ga4GtagCommand page |}, Some TypeError).
Proof.
  intros ps x Hhit Hps Hx. unfold onEntry. rewrite Hhit, parsed_command.
  cbn [params Ga4.parse] in Hps. injection Hps as <-. rewrite Hx. reflexivity.
Qed.

Lemma entry_raises_witness :
  UaLegacyResult
    (fst (onEntry {| Ga4Result := noData; UaGa4Result := noData;
                     UaLegacyResult := noData; Ga4GtagCommand := noData |}
                  "https://x.test/g/collect?v=2&ep.hasOwnProperty=1&el=GTM"))
  = noData
  /\ Ua.isUaLegacyHit "https://x.test/g/collect?v=2&ep.hasOwnProperty=1&el=GTM" = true.
Proof.
  split; [|reflexivity].
  rewrite (entry_raises _ "https://x.test/g/collect?v=2&ep.hasOwnProperty=1&el=GTM"
                        [("hasOwnProperty", "1")] "1" eq_refl eq_refl eq_refl).
  reflexivity.
Defined.

(** X20.  In every other case the observer raises nothing, as long as the
    texts it writes fit the string-length limit.  For a GA4 hit it then
    leaves in the first box what [show] writes for the decoded hit and in the
    command box the recommendation, on one row more than the text has lines;
    for any other URL the two GA4 boxes keep their content. *)
Theorem entry_completes (page : Page) (url : string) :
  (Ga4.isGa4Hit url = true ->
   forall ps, params (Ga4.parse url) = Some ps -> obj_get ps "hasOwnProperty" = None) ->
  (Ga4.isGa4Hit url = true ->
   fits (value (show (Ga4.parse url))) /\ fits (commandText (Ga4.parse url))) ->
  (Ua.isUaLegacyHit url = true \/ Ua.isUaGa4Hit url = true ->
   fits (value (show (Ua.parse url)))) ->
  snd (onEntry page url) = None
  /\ Ga4Result (fst (onEntry page url))
     = (if Ga4.isGa4Hit url then show (Ga4.parse url) else Ga4Result page)
  /\ Ga4GtagCommand (fst (onEntry page url))
     = (if Ga4.isGa4Hit url
        then {| value := commandText (Ga4.parse url);
                rows := List.length (split "010" (commandText (Ga4.parse url))) + 1 |}
        else Ga4GtagCommand page).
Proof.
  intros H _ _. unfold onEntry. destruct (Ga4.isGa4Hit url).
  - rewrite parsed_command. specialize (H eq_refl _ eq_refl).
    cbn [params Ga4.parse] in H. rewrite H.
    destruct (Ua.isUaLegacyHit url), (Ua.isUaGa4Hit url); repeat split; reflexivity.
  - destruct (Ua.isUaLegacyHit url), (Ua.isUaGa4Hit url); repeat split; reflexivity.
Qed.

Lemma entry_completes_witness :
  value (Ga4GtagCommand
           (fst (onEntry {| Ga4Result := noData; UaGa4Result := noData;
                            UaLegacyResult := noData; Ga4GtagCommand := noData |}
                         "https://x.test/g/collect?v=2&en=purchase")))
  = ("gtag('event', 'purchase', {" ++ nl ++ "});")%string.
Proof.
  destruct (entry_completes
              {| Ga4Result := noData; UaGa4Result := noData;
                 UaLegacyResult := noData; Ga4GtagCommand := noData |}
              "https://x.test/g/collect?v=2&en=purchase") as [_ [_ H]].
  - intros _ ps Hps. injection Hps as <-. reflexivity.
  - intros _. split; unfold fits; apply N.leb_le; vm_compute; reflexivity.
  - intros [H | H]; discriminate H.
  - rewrite H. reflexivity.
Defined.
